(** * Consolidation pipeline of the cross-domain knowledge-graph backend

    A shallow embedding of [backend/app/models.py], [backend/app/tools/checker.py],
    [backend/app/tools/merge.py] and [backend/app/tools/schema_validate.py],
    and the properties of the schema repairer, the graph normalizer and the
    evidence checker; then of the offline part of
    [backend/app/tools/retrieval.py] with [backend/app/tools/seed_corpus.py]
    and of [backend/app/tools/extract.py], which feed them.

    Modelling conventions.
    - A Python [str] is the list of its Unicode code points ([N]).
    - A Python [float] that holds a confidence or a score is an exact rational
      ([Q]); binary64 rounding and underflow are not modelled.
    - A Python [dict] is an association list in insertion order; a Python
      [set] is the duplicate-free list of its insertions, and the order in
      which it is iterated is a parameter ([set_iter]).
    - Objects are values: the edges and evidence records handed to one call are
      pairwise distinct objects (they are built one by one by the extractor or
      by model validation), so in-place mutation is an update of the
      container that holds them.
    - What the interpreter and its libraries own and the repository does not
      ([str.lower], [str.isalnum], [str()] of a non-string, the coercions
      of the schema library, the answer of the online lookup) is a
      [Variable] of the section that uses it. *)

From Stdlib Require Import Bool String Ascii List NArith ZArith QArith Qminmax Lqa Lia Permutation.
Import ListNotations.

Set Implicit Arguments.

(* ================================================================== *)
(** * Python strings *)
(* ================================================================== *)

Module Py.
Local Open Scope N_scope.

Definition char := N.
Definition str := list char.

Fixpoint of_string (s : string) : str :=
  match s with
  | EmptyString => []
  | String a r => N_of_ascii a :: of_string r
  end.

Definition str_eq_dec : forall a b : str, {a = b} + {a <> b} := list_eq_dec N.eq_dec.

Definition str_eqb (a b : str) : bool := if str_eq_dec a b then true else false.

(** Truthiness of a string: [if s:]. *)
Definition truthy (s : str) : bool := match s with [] => false | _ :: _ => true end.

(** [s or d] on strings. *)
Definition str_or (s d : str) : str := if truthy s then s else d.

(** [str.isspace] of one code point, which is also the class [\s] of [re]
    on [str] patterns and the set [str.strip()] removes. *)
Definition is_space (c : char) : bool :=
  ((9 <=? c) && (c <=? 13)) || ((28 <=? c) && (c <=? 32))
  || (c =? 133) || (c =? 160) || (c =? 5760)
  || ((8192 <=? c) && (c <=? 8202))
  || (c =? 8232) || (c =? 8233) || (c =? 8239) || (c =? 8287) || (c =? 12288).

Fixpoint lstrip (s : str) : str :=
  match s with
  | [] => []
  | c :: r => if is_space c then lstrip r else s
  end.

Definition rstrip (s : str) : str := rev (lstrip (rev s)).

(** [s.strip()] *)
Definition strip (s : str) : str := rstrip (lstrip s).

Fixpoint starts_with (p s : str) : bool :=
  match p, s with
  | [], _ => true
  | _ :: _, [] => false
  | a :: p', b :: s' => (a =? b) && starts_with p' s'
  end.

(** [p in s] on strings: [p] occurs as a contiguous substring of [s]. *)
Fixpoint contains (s p : str) : bool :=
  starts_with p s ||
  match s with
  | [] => false
  | _ :: r => contains r p
  end.

(** [s.split(" ")]: split at every single space; never the empty list. *)
Fixpoint split_space (s : str) : list str :=
  match s with
  | [] => [[]]
  | c :: r =>
      if c =? 32 then [] :: split_space r
      else match split_space r with
           | [] => [[c]]
           | w :: ws => (c :: w) :: ws
           end
  end.

(** ** The three substitutions of [_norm] and [_normalize_name] *)

(** Distance to the first [")"] of [s] when no newline comes before it:
    what the lazy [.*?] followed by [\)] can reach ([.] does not match
    a newline). *)
Fixpoint close_dist (s : str) : option nat :=
  match s with
  | [] => None
  | c :: r =>
      if c =? 41 then Some O
      else if c =? 10 then None
      else option_map S (close_dist r)
  end.

(** [re.sub(r"\(.*?\)", "", s)]; [skip] counts the characters of the
    match in progress that are still to be dropped. *)
Fixpoint sub_parens_from (skip : nat) (s : str) : str :=
  match s with
  | [] => []
  | c :: r =>
      match skip with
      | S k => sub_parens_from k r
      | O =>
          if c =? 40 then
            match close_dist r with
            | Some d => sub_parens_from (S d) r
            | None => c :: sub_parens_from O r
            end
          else c :: sub_parens_from O r
      end
  end.

Definition sub_parens (s : str) : str := sub_parens_from O s.

(** The class [[a-z0-9一-鿿]]. *)
Definition is_word (c : char) : bool :=
  ((97 <=? c) && (c <=? 122)) || ((48 <=? c) && (c <=? 57))
  || ((19968 <=? c) && (c <=? 40959)).

(** Replace every maximal run of characters satisfying [p] by one space:
    [re.sub(r"[...]+", " ", s)]. [in_run] tells that the previous
    character belonged to the run. *)
Fixpoint squeeze_from (p : char -> bool) (in_run : bool) (s : str) : str :=
  match s with
  | [] => []
  | c :: r =>
      if p c then
        if in_run then squeeze_from p true r else 32 :: squeeze_from p true r
      else c :: squeeze_from p false r
  end.

Definition squeeze (p : char -> bool) (s : str) : str := squeeze_from p false s.

(** [re.sub(r"[^a-z0-9一-鿿]+", " ", s)] *)
Definition sub_nonword (s : str) : str := squeeze (fun c => negb (is_word c)) s.

(** [re.sub(r"\s+", " ", s)] *)
Definition sub_spaces (s : str) : str := squeeze is_space s.

(** [str.lower] restricted to ASCII text, where it only moves [A-Z] to
    [a-z]; used to run the definitions on ASCII examples. *)
Definition ascii_lower (s : str) : str :=
  map (fun c => if (65 <=? c) && (c <=? 90) then c + 32 else c) s.

End Py.

(* ================================================================== *)
(** * SHA-1, as [hashlib.sha1(...).hexdigest()] *)
(* ================================================================== *)

Module Sha1.
Import Py.
Local Open Scope N_scope.

Definition byte := N.

(** [s.encode("utf-8", "ignore")]: lone surrogates cannot be encoded and
    are dropped. *)
Definition utf8_char (c : char) : list byte :=
  if c <? 128 then [c]
  else if c <? 2048 then [192 + c / 64; 128 + c mod 64]
  else if (55296 <=? c) && (c <=? 57343) then []
  else if c <? 65536 then [224 + c / 4096; 128 + (c / 64) mod 64; 128 + c mod 64]
  else [240 + c / 262144; 128 + (c / 4096) mod 64; 128 + (c / 64) mod 64; 128 + c mod 64].

Definition utf8 (s : str) : list byte := flat_map utf8_char s.

Definition w32 (x : N) : N := N.land x 4294967295.
Definition add32 (x y : N) : N := w32 (x + y).
Definition rotl (n x : N) : N := w32 (N.lor (N.shiftl x n) (N.shiftr x (32 - n))).
Definition not32 (x : N) : N := N.lxor x 4294967295.

(** Big-endian bytes of the low [8 * n] bits of [x]. *)
Fixpoint be_bytes (n : nat) (x : N) : list byte :=
  match n with
  | O => []
  | S k => be_bytes k (x / 256) ++ [x mod 256]
  end.

Definition pad (m : list byte) : list byte :=
  let l := N.of_nat (length m) in
  let z := N.to_nat ((119 - l mod 64) mod 64) in
  m ++ [128] ++ repeat 0 z ++ be_bytes 8%nat (8 * l).

Fixpoint words (fuel : nat) (bs : list byte) : list N :=
  match fuel, bs with
  | S k, a :: b :: c :: d :: r => (((a * 256 + b) * 256 + c) * 256 + d) :: words k r
  | _, _ => []
  end.

(** The message schedule, most recent word first. *)
Fixpoint schedule (n : nat) (w : list N) : list N :=
  match n with
  | O => w
  | S k =>
      match w with
      | w1 :: w2 :: w3 :: r =>
          let x := N.lxor (N.lxor w3 (nth 4%nat r 0)) (N.lxor (nth 10%nat r 0) (nth 12%nat r 0)) in
          schedule k (rotl 1 x :: w)
      | _ => w
      end
  end.

Definition state := (N * N * N * N * N)%type.

Definition round (t : nat) (st : state) (wt : N) : state :=
  let '(a, b, c, d, e) := st in
  let '(f, k) :=
    if Nat.ltb t 20%nat then (N.lor (N.land b c) (N.land (not32 b) d), 1518500249)
    else if Nat.ltb t 40%nat then (N.lxor (N.lxor b c) d, 1859775393)
    else if Nat.ltb t 60%nat then
      (N.lor (N.lor (N.land b c) (N.land b d)) (N.land c d), 2400959708)
    else (N.lxor (N.lxor b c) d, 3395469782) in
  (add32 (add32 (add32 (add32 (rotl 5 a) f) e) k) wt, a, rotl 30 b, c, d).

Fixpoint rounds (t : nat) (st : state) (ws : list N) : state :=
  match ws with
  | [] => st
  | w :: r => rounds (S t) (round t st w) r
  end.

Definition compress (h : state) (block : list byte) : state :=
  let ws := rev (schedule 64%nat (rev (words 16%nat block))) in
  let '(a, b, c, d, e) := rounds O h ws in
  let '(h0, h1, h2, h3, h4) := h in
  (add32 h0 a, add32 h1 b, add32 h2 c, add32 h3 d, add32 h4 e).

Fixpoint blocks (fuel : nat) (h : state) (bs : list byte) : state :=
  match fuel with
  | O => h
  | S k =>
      match bs with
      | [] => h
      | _ => blocks k (compress h (firstn 64 bs)) (skipn 64 bs)
      end
  end.

Definition init : state := (1732584193, 4023233417, 2562383102, 271733878, 3285377520).

Definition digest (m : list byte) : state :=
  let p := pad m in blocks (length p) init p.

Definition hex_digit (x : N) : char := if x <? 10 then 48 + x else 87 + x.

Definition hex8 (x : N) : str :=
  map (fun i => hex_digit ((x / 16 ^ i) mod 16)) [7; 6; 5; 4; 3; 2; 1; 0].

Definition hexdigest (m : list byte) : str :=
  let '(h0, h1, h2, h3, h4) := digest m in
  hex8 h0 ++ hex8 h1 ++ hex8 h2 ++ hex8 h3 ++ hex8 h4.

End Sha1.

(* ================================================================== *)
(** * Python numbers, sets and dicts *)
(* ================================================================== *)

Module Num.
Local Open Scope Q_scope.

Definition Qltb (a b : Q) : bool := negb (Qle_bool b a).

(** [min(a, b)] and [max(a, b)] of two floats: the first argument is
    returned unless the second is strictly better. *)
Definition py_min (a b : Q) : Q := if Qltb b a then b else a.
Definition py_max (a b : Q) : Q := if Qltb a b then b else a.

End Num.

Module PySet.
Import Py.

(** A set of strings, as the list of its insertions. *)
Definition t := list str.

Definition mem (x : str) (s : t) : bool := existsb (str_eqb x) s.

(** [s.add(x)] *)
Definition add (x : str) (s : t) : t := if mem x s then s else s ++ [x].

(** [set(l)], [{x for x in l}], [{*l}] *)
Definition of_list (l : list str) : t := fold_left (fun s x => add x s) l [].

End PySet.

Module Dict.
Section Dict.
Variables (K V : Type) (eqb : K -> K -> bool).

(** Entries in insertion order. *)
Definition t := list (K * V).

(** [d.get(k)] *)
Fixpoint get (d : t) (k : K) : option V :=
  match d with
  | [] => None
  | (k', v) :: r => if eqb k' k then Some v else get r k
  end.

(** [k in d] *)
Definition mem (d : t) (k : K) : bool :=
  match get d k with Some _ => true | None => false end.

(** [d.get(k, dflt)] *)
Definition get_or (d : t) (k : K) (dflt : V) : V :=
  match get d k with Some v => v | None => dflt end.

(** [d[k] = v]: an existing key keeps its place, a new one goes last. *)
Fixpoint set (d : t) (k : K) (v : V) : t :=
  match d with
  | [] => [(k, v)]
  | (k', v') :: r => if eqb k' k then (k', v) :: r else (k', v') :: set r k v
  end.

(** [d.setdefault(k, v)], for its effect on [d]. *)
Definition setdefault (d : t) (k : K) (v : V) : t :=
  if mem d k then d else set d k v.

(** [d.keys()], [d.values()] *)
Definition keys (d : t) : list K := map fst d.
Definition values (d : t) : list V := map snd d.

End Dict.
End Dict.

(* ================================================================== *)
(** * Untyped values: what a decoded JSON draft is made of *)
(* ================================================================== *)

Module Json.
Import Py.

#[warnings="-register-all"]
Inductive value : Type :=
| VNone
| VBool (b : bool)
| VInt (z : Z)
| VFloat (q : Q)
| VStr (s : str)
| VList (l : list value)
| VDict (d : list (value * value)).

End Json.

(* ================================================================== *)
(** * [app/models.py] *)
(* ================================================================== *)

Module Evidence.
Import Py.

Record t := mk {
  title : str;
  snippet : str;
  url : option str;
  domain : option str
}.

Definition set_snippet (s : str) (ev : t) : t := mk (title ev) s (url ev) (domain ev).

End Evidence.

Module Node.
Import Py.

Record t := mk {
  id : str;
  name : str;
  domain : str;
  definition : option str;
  confidence : Q
}.

End Node.

Module Edge.
Import Py.

Record t := mk {
  id : option str;
  source : str;
  target : str;
  relation : str;
  explanation : str;
  evidence : Evidence.t;
  confidence : Q;
  checked : bool;
  check_reason : option str;
  flags : list str
}.

Definition set_id v e :=
  mk v (source e) (target e) (relation e) (explanation e) (evidence e)
     (confidence e) (checked e) (check_reason e) (flags e).
Definition set_source v e :=
  mk (id e) v (target e) (relation e) (explanation e) (evidence e)
     (confidence e) (checked e) (check_reason e) (flags e).
Definition set_target v e :=
  mk (id e) (source e) v (relation e) (explanation e) (evidence e)
     (confidence e) (checked e) (check_reason e) (flags e).
Definition set_relation v e :=
  mk (id e) (source e) (target e) v (explanation e) (evidence e)
     (confidence e) (checked e) (check_reason e) (flags e).
Definition set_explanation v e :=
  mk (id e) (source e) (target e) (relation e) v (evidence e)
     (confidence e) (checked e) (check_reason e) (flags e).
Definition set_evidence v e :=
  mk (id e) (source e) (target e) (relation e) (explanation e) v
     (confidence e) (checked e) (check_reason e) (flags e).
Definition set_confidence v e :=
  mk (id e) (source e) (target e) (relation e) (explanation e) (evidence e)
     v (checked e) (check_reason e) (flags e).
Definition set_checked v e :=
  mk (id e) (source e) (target e) (relation e) (explanation e) (evidence e)
     (confidence e) v (check_reason e) (flags e).
Definition set_check_reason v e :=
  mk (id e) (source e) (target e) (relation e) (explanation e) (evidence e)
     (confidence e) (checked e) v (flags e).
Definition set_flags v e :=
  mk (id e) (source e) (target e) (relation e) (explanation e) (evidence e)
     (confidence e) (checked e) (check_reason e) v.

(** [f"{self.source}|{self.relation}|{self.target}"] hashed, first 12 hex
    digits. *)
Definition hash_id (source relation target : str) : str :=
  firstn 12 (Sha1.hexdigest (Sha1.utf8 (source ++ [124%N] ++ relation ++ [124%N] ++ target))).

(** [if self.id: return] covers both [None] and the empty string. *)
Definition has_id (e : t) : bool :=
  match id e with Some s => truthy s | None => false end.

Definition ensure_id (e : t) : t :=
  if has_id e then e
  else set_id (Some (hash_id (source e) (relation e) (target e))) e.

End Edge.

Module CheckerSummary.

Record t := mk {
  schema_fixed : Z;
  edges_checked : Z;
  edges_failed : Z;
  edges_downgraded : Z;
  dedup_nodes_merged : Z;
  dedup_edges_removed : Z;
  conflicts_flagged : Z;
  passed : Z;
  failed : Z
}.

End CheckerSummary.

Module Meta.
Import Py.

Record t := mk {
  generated_at : str;
  version : str;
  checker_summary : CheckerSummary.t;
  agent_trace : option (list (Json.value * Json.value))
}.

End Meta.

Module GraphResult.
Import Py.

Record t := mk {
  concept : str;
  nodes : list Node.t;
  edges : list Edge.t;
  meta : Meta.t
}.

End GraphResult.

(* ================================================================== *)
(** * [app/tools/checker.py] *)
(* ================================================================== *)

Module Checker.
Import Py Num.
Local Open Scope Q_scope.

Definition _clamp01 (x : Q) : Q := py_max 0 (py_min 1 x).

Definition missing_evidence_reason : str :=
  of_string "Missing evidence.title or evidence.snippet.".
Definition missing_explanation_reason : str := of_string "Missing explanation.".
Definition empty_snippet_reason : str := of_string "Empty evidence snippet.".
Definition no_mention_reason : str :=
  of_string "Evidence snippet does not mention source/target concept.".
Definition pass_reason : str := of_string "Evidence supports the relation.".
Definition fallback_explanation : str :=
  of_string "No supported evidence found; marked as unchecked.".

Definition whitelist : list str :=
  map of_string ["related_to"; "used_in"; "is_a"; "explains"; "bridges"]%string.

Section WithInterpreter.

(** [str.lower], and the order in which a set of strings is iterated. *)
Variable lower : str -> str.
Variable set_iter : list str -> list str.

Definition _norm (s : str) : str :=
  strip (sub_spaces (sub_nonword (sub_parens (lower s)))).

Definition long_parts (n : nat) (s : str) : list str :=
  filter (fun p => Nat.leb n (length p)) (split_space s).

(** The local function [_mentions] of [evidence_check], with the snippet
    [sn] it closes over. *)
Definition _mentions (sn name : str) : bool :=
  if negb (truthy name) then false
  else
    match long_parts 4 name with
    | [] => contains sn name
    | parts => existsb (contains sn) (firstn 4 parts)
    end.

(** [sum(1 for t in list(tokens)[:12] if t in exp)] *)
Definition overlap (sn exp : str) : nat :=
  let tokens := PySet.of_list (long_parts 6 sn) in
  length (filter (contains exp) (firstn 12 (set_iter tokens))).

Definition score_of (n : nat) : Q := _clamp01 (0.55 + 0.07 * inject_Z (Z.of_nat n)).

Definition evidence_check (edge : Edge.t) (source_name target_name : str)
  : bool * Q * str :=
  let ev := Edge.evidence edge in
  if negb (truthy (Evidence.title ev) && truthy (Evidence.snippet ev)) then
    (false, 0, missing_evidence_reason)
  else if negb (truthy (strip (Edge.explanation edge))) then
    (false, 0, missing_explanation_reason)
  else
    let sn := _norm (Evidence.snippet ev) in
    let sname := _norm source_name in
    let tname := _norm target_name in
    if negb (truthy sn) then (false, 0, empty_snippet_reason)
    else if negb (_mentions sn sname || _mentions sn tname) then
      (false, 0.15, no_mention_reason)
    else
      let exp := _norm (Edge.explanation edge) in
      (true, score_of (overlap sn exp), pass_reason).

(** [{n.id: n.name for n in graph.nodes}] *)
Definition node_names (nodes : list Node.t) : Dict.t str str :=
  fold_left (fun d n => Dict.set str_eqb d (Node.id n) (Node.name n)) nodes [].

(** [node_name.get(i, i)] *)
Definition endpoint_name (names : Dict.t str str) (i : str) : str :=
  Dict.get_or str_eqb names i i.

(** The relation whitelist step of the loop body; the boolean tells
    whether the edge was downgraded. *)
Definition whitelist_relation (e : Edge.t) : Edge.t * bool :=
  if existsb (str_eqb (Edge.relation e)) whitelist then (e, false)
  else (Edge.set_flags (Edge.flags e ++ [of_string "downgraded"])
          (Edge.set_relation (of_string "related_to") e), true).

(** The verdict step of the loop body. *)
Definition apply_verdict (strict : bool) (e : Edge.t) (v : bool * Q * str) : Edge.t :=
  let '(ok, score, reason) := v in
  if ok then
    Edge.set_check_reason (Some reason)
      (Edge.set_confidence (_clamp01 ((Edge.confidence e + score) / 2))
         (Edge.set_checked true e))
  else
    let e1 :=
      Edge.set_check_reason (Some reason)
        (Edge.set_confidence (_clamp01 (Edge.confidence e * 0.45))
           (Edge.set_checked false e)) in
    if strict then
      Edge.set_explanation (str_or (Edge.explanation e1) fallback_explanation) e1
    else e1.

(** One iteration of the loop of [run_check] on edge [e]: the edge as it
    is appended to [edges], whether it passed, whether it was downgraded. *)
Definition check_edge (names : Dict.t str str) (strict : bool) (e : Edge.t)
  : Edge.t * bool * bool :=
  let e0 := Edge.ensure_id e in
  let sname := endpoint_name names (Edge.source e0) in
  let tname := endpoint_name names (Edge.target e0) in
  let '(e1, down) := whitelist_relation e0 in
  let v := evidence_check e1 sname tname in
  (apply_verdict strict e1 v, fst (fst v), down).

Record loop_state := mk_loop {
  passed : Z;
  failed : Z;
  downgraded : Z;
  checked_total : Z;
  edges : list Edge.t
}.

Definition loop_body (names : Dict.t str str) (strict : bool)
    (st : loop_state) (e : Edge.t) : loop_state :=
  let '(e', ok, down) := check_edge names strict e in
  mk_loop (if ok then passed st + 1 else passed st)%Z
          (if ok then failed st else failed st + 1)%Z
          (if down then downgraded st + 1 else downgraded st)%Z
          (checked_total st + 1)%Z
          (edges st ++ [e']).

Definition run_check (graph : GraphResult.t) (strict : bool) : GraphResult.t :=
  let names := node_names (GraphResult.nodes graph) in
  let st := fold_left (loop_body names strict) (GraphResult.edges graph)
                      (mk_loop 0 0 0 0 []) in
  let m := GraphResult.meta graph in
  let cs := Meta.checker_summary m in
  let cs' :=
    CheckerSummary.mk
      (CheckerSummary.schema_fixed cs) (checked_total st) (failed st) (downgraded st)
      (CheckerSummary.dedup_nodes_merged cs) (CheckerSummary.dedup_edges_removed cs)
      (CheckerSummary.conflicts_flagged cs) (passed st) (failed st) in
  GraphResult.mk (GraphResult.concept graph) (GraphResult.nodes graph) (edges st)
    (Meta.mk (Meta.generated_at m) (Meta.version m) cs' (Meta.agent_trace m)).

(** The edge as the loop sees it when it calls [evidence_check]. *)
Definition prepared (e : Edge.t) : Edge.t := fst (whitelist_relation (Edge.ensure_id e)).

(** The names [run_check] passes for the endpoints of [e]. *)
Definition source_name (graph : GraphResult.t) (e : Edge.t) : str :=
  endpoint_name (node_names (GraphResult.nodes graph)) (Edge.source e).
Definition target_name (graph : GraphResult.t) (e : Edge.t) : str :=
  endpoint_name (node_names (GraphResult.nodes graph)) (Edge.target e).

(** The edge that replaces [e] in the graph. *)
Definition checked_edge (graph : GraphResult.t) (strict : bool) (e : Edge.t) : Edge.t :=
  fst (fst (check_edge (node_names (GraphResult.nodes graph)) strict e)).

End WithInterpreter.

(** ** Sample graphs *)

Definition sample_meta : Meta.t :=
  Meta.mk (of_string "2024-01-01T00:00:00Z") (of_string "v1")
          (CheckerSummary.mk 0 0 0 0 0 0 0 0 0) None.

Definition sample_edge (title snippet explanation : string) (c : Q) : Edge.t :=
  Edge.mk (Some (of_string "e1")) (of_string "core:entropy") (of_string "physics:heat")
          (of_string "explains") (of_string explanation)
          (Evidence.mk (of_string title) (of_string snippet) None None)
          c true None [].

Definition sample_nodes : list Node.t :=
  [ Node.mk (of_string "core:entropy") (of_string "Entropy") (of_string "Core") None 0.9;
    Node.mk (of_string "physics:heat") (of_string "Heat") (of_string "Physics") None 0.78 ].

Definition sample_graph (e : Edge.t) : GraphResult.t :=
  GraphResult.mk (of_string "Entropy") sample_nodes [e] sample_meta.

(** The hard rule fails on the empty title. *)
Definition untitled_edge : Edge.t :=
  sample_edge "" "Entropy measures disorder." "Entropy explains heat flow." 0.7.

(** Nothing in the snippet names an endpoint. *)
Definition unrelated_edge : Edge.t :=
  sample_edge "Notes" "Prices rose sharply." "Entropy explains heat flow." 0.1.

(** The snippet has no character of the word class. *)
Definition punctuation_edge : Edge.t :=
  sample_edge "Notes" "?!..." "Entropy explains heat flow." 0.7.

(** As [punctuation_edge], with an explanation made of one space. *)
Definition blank_explanation_edge : Edge.t :=
  sample_edge "Notes" "?!..." " " 0.7.

(** The snippet names the target and shares exactly three long tokens
    ("increases", "entropy", "because") with the explanation. *)
Definition supported_edge (title : string) (c : Q) : Edge.t :=
  sample_edge title "Heat increases entropy because molecules move."
              "Entropy increases because heat spreads." c.

(** [run_check] on a sample graph, strict, sets iterated in insertion
    order. *)
Definition run_sample (e : Edge.t) : list Edge.t :=
  GraphResult.edges (Checker.run_check ascii_lower (fun l => l) (sample_graph e) true).

End Checker.

(* ================================================================== *)
(** * [app/tools/merge.py] *)
(* ================================================================== *)

Module Merge.
Import Py Num.
Local Open Scope Q_scope.

Record MergeStats := mk_stats {
  nodes_merged : Z;
  edges_removed : Z;
  conflicts_flagged : Z
}.

Definition _ABBREV : Dict.t str str :=
  [ (of_string "nn", of_string "neural network");
    (of_string "ml", of_string "machine learning");
    (of_string "dl", of_string "deep learning");
    (of_string "kl divergence", of_string "kullback leibler divergence") ].

(** Keys of [out_edges] and of [by_pair]. *)
Definition edge_key := (str * str * str)%type.
Definition pair_key := (str * str)%type.

Definition pair_eqb (a b : pair_key) : bool :=
  str_eqb (fst a) (fst b) && str_eqb (snd a) (snd b).

Definition key_eqb (a b : edge_key) : bool :=
  pair_eqb (fst a) (fst b) && str_eqb (snd a) (snd b).

Definition duplicate_flag : str := of_string "duplicate".
Definition conflict_flag : str := of_string "conflict".

Section WithInterpreter.

(** [str.lower], and the order in which a set of strings is iterated. *)
Variable lower : str -> str.
Variable set_iter : list str -> list str.

Definition _normalize_name (name : str) : str :=
  let s := lower (strip name) in
  let s := sub_parens s in
  let s := sub_nonword s in
  let s := strip (sub_spaces s) in
  Dict.get_or str_eqb _ABBREV s s.

Definition _k (name domain : str) : str :=
  lower domain ++ of_string "::" ++ _normalize_name name.

(** ** First loop: nodes *)

Record node_state := mk_node_state {
  id_map : Dict.t str str;
  kept : Dict.t str Node.t;
  merged_count : Z
}.

(** One iteration on node [n]. When the key is new the node is stored
    and [kept[key]] is [n] itself. *)
Definition node_step (st : node_state) (n : Node.t) : node_state :=
  let key := _k (Node.name n) (Node.domain n) in
  match Dict.get str_eqb (kept st) key with
  | None =>
      mk_node_state (Dict.set str_eqb (id_map st) (Node.id n) (Node.id n))
                    (Dict.set str_eqb (kept st) key n)
                    (merged_count st)
  | Some first =>
      mk_node_state (Dict.set str_eqb (id_map st) (Node.id n) (Node.id first))
                    (kept st)
                    (merged_count st + 1)%Z
  end.

Definition node_loop (nodes : list Node.t) : node_state :=
  fold_left node_step nodes (mk_node_state [] [] 0%Z).

(** ** Second loop: edges *)

(** The rewriting of the endpoints at the top of the loop body. *)
Definition remap (idm : Dict.t str str) (e : Edge.t) : Edge.t :=
  let s := Dict.get_or str_eqb idm (Edge.source e) (Edge.source e) in
  let t := Dict.get_or str_eqb idm (Edge.target e) (Edge.target e) in
  Edge.ensure_id (Edge.set_target t (Edge.set_source s e)).

Definition key_of (e : Edge.t) : edge_key :=
  (Edge.source e, Edge.target e, Edge.relation e).

(** The two symmetric branches of the duplicate case: [win] survives,
    [lose] is dropped after its snippet has been appended. *)
Definition absorb (win lose : Edge.t) : Edge.t :=
  let ws := Evidence.snippet (Edge.evidence win) in
  let ls := Evidence.snippet (Edge.evidence lose) in
  let win1 :=
    if truthy ls && negb (contains (str_or ws []) ls) then
      Edge.set_evidence
        (Evidence.set_snippet (strip (str_or ws []) ++ [10%N] ++ strip ls)
                              (Edge.evidence win))
        win
    else win in
  Edge.set_flags (set_iter (PySet.of_list (Edge.flags win1 ++ [duplicate_flag]))) win1.

Record edge_state := mk_edge_state {
  out_edges : Dict.t edge_key Edge.t;
  removed_count : Z
}.

Definition edge_step (idm : Dict.t str str) (st : edge_state) (e0 : Edge.t) : edge_state :=
  let e := remap idm e0 in
  let k := key_of e in
  match Dict.get key_eqb (out_edges st) k with
  | None => mk_edge_state (Dict.set key_eqb (out_edges st) k e) (removed_count st)
  | Some cur =>
      if Qle_bool (Edge.confidence e) (Edge.confidence cur) then
        mk_edge_state (Dict.set key_eqb (out_edges st) k (absorb cur e))
                      (removed_count st + 1)%Z
      else
        mk_edge_state (Dict.set key_eqb (out_edges st) k (absorb e cur))
                      (removed_count st + 1)%Z
  end.

Definition edge_loop (idm : Dict.t str str) (edges : list Edge.t) : edge_state :=
  fold_left (edge_step idm) edges (mk_edge_state [] 0%Z).

(** ** The deduplication rule in the words of the specification *)

(** The loser's snippet is appended to the survivor's unless it is
    already a substring of it, and the survivor is flagged "duplicate". *)
Definition spec_survivor (win lose : Edge.t) : Edge.t :=
  let ws := Evidence.snippet (Edge.evidence win) in
  let ls := Evidence.snippet (Edge.evidence lose) in
  let merged := if contains ws ls then ws else strip ws ++ [10%N] ++ strip ls in
  Edge.set_flags (set_iter (PySet.of_list (Edge.flags win ++ [duplicate_flag])))
    (Edge.set_evidence (Evidence.set_snippet merged (Edge.evidence win)) win).

(** The kept edge stays unless the later one has strictly higher
    confidence, in which case the later one replaces it. *)
Definition spec_dedup_rule (kept_edge later : Edge.t) : Edge.t :=
  if Qltb (Edge.confidence kept_edge) (Edge.confidence later)
  then spec_survivor later kept_edge
  else spec_survivor kept_edge later.

(** The survivor of a group of edges that share a key, first edge first. *)
Definition spec_group_survivor (group : list Edge.t) : option Edge.t :=
  match group with
  | [] => None
  | first :: rest => Some (fold_left spec_dedup_rule rest first)
  end.

(** The edges of the input that have key [k] once their endpoints are
    rewritten, in input order. *)
Definition group_of (idm : Dict.t str str) (edges : list Edge.t) (k : edge_key)
  : list Edge.t :=
  filter (fun e => key_eqb (key_of e) k) (map (remap idm) edges).

(** ** Conflict marking *)

(** [by_pair.setdefault((s, t), set()).add(rel)] *)
Definition by_pair_step (bp : Dict.t pair_key PySet.t) (k : edge_key)
  : Dict.t pair_key PySet.t :=
  let '(s, t, rel) := k in
  Dict.set pair_eqb bp (s, t) (PySet.add rel (Dict.get_or pair_eqb bp (s, t) [])).

Definition by_pair_of (out : Dict.t edge_key Edge.t) : Dict.t pair_key PySet.t :=
  fold_left by_pair_step (Dict.keys out) [].

Definition has_conflict_flag (e : Edge.t) : bool := PySet.mem conflict_flag (Edge.flags e).

(** What the inner loop does to one edge. *)
Definition mark_conflict (e : Edge.t) : Edge.t :=
  let e1 :=
    if has_conflict_flag e then e
    else Edge.set_flags (Edge.flags e ++ [conflict_flag]) e in
  Edge.set_confidence (py_max 0 (py_min 1 (Edge.confidence e1 * 0.8))) e1.

Record conflict_state := mk_conflict_state {
  marked_edges : Dict.t edge_key Edge.t;
  flagged_count : Z
}.

(** The body of the inner loop. [out_edges[(s, t, rel)]] is always there:
    [rel] was collected from the keys of [out_edges]. *)
Definition conflict_step (p : pair_key) (st : conflict_state) (rel : str) : conflict_state :=
  let k := (p, rel) in
  match Dict.get key_eqb (marked_edges st) k with
  | None => st
  | Some e =>
      mk_conflict_state (Dict.set key_eqb (marked_edges st) k (mark_conflict e))
                        (if has_conflict_flag e then flagged_count st
                         else flagged_count st + 1)%Z
  end.

Definition pair_step (st : conflict_state) (item : pair_key * PySet.t) : conflict_state :=
  let '(p, rels) := item in
  if Nat.leb (length rels) 1 then st
  else fold_left (conflict_step p) (set_iter rels) st.

Definition conflict_loop (out : Dict.t edge_key Edge.t) : conflict_state :=
  fold_left pair_step (by_pair_of out) (mk_conflict_state out 0%Z).

(** A key is in conflict when another key of the same (source, target)
    pair carries a different relation. *)
Definition in_conflict (out : Dict.t edge_key Edge.t) (k : edge_key) : bool :=
  existsb (fun k' => pair_eqb (fst k') (fst k) && negb (str_eqb (snd k') (snd k)))
          (Dict.keys out).

Definition merge_synonyms (nodes : list Node.t) (edges : list Edge.t)
  : list Node.t * list Edge.t * MergeStats :=
  let ns := node_loop nodes in
  let es := edge_loop (id_map ns) edges in
  let cs := conflict_loop (out_edges es) in
  (Dict.values (kept ns), Dict.values (marked_edges cs),
   mk_stats (merged_count ns) (removed_count es) (flagged_count cs)).

(** ** Notions used to state the properties of the loops *)

(** After the nodes [seen]: every id the map can return is the id of a
    kept node, and the id of every node seen is mapped. *)
Definition node_inv (seen : list Node.t) (st : node_state) : Prop :=
  (forall i j, Dict.get str_eqb (id_map st) i = Some j ->
     exists n, In n (Dict.values (kept st)) /\ Node.id n = j)
  /\ (forall n, In n seen -> Dict.mem str_eqb (id_map st) (Node.id n) = true).

(** The effect of one inner iteration on the dict. *)
Definition mark_at (m : Dict.t edge_key Edge.t) (k : edge_key) : Dict.t edge_key Edge.t :=
  match Dict.get key_eqb m k with
  | None => m
  | Some e => Dict.set key_eqb m k (mark_conflict e)
  end.

Definition mark_entry (hit : bool) (kv : edge_key * Edge.t) : edge_key * Edge.t :=
  if hit then (fst kv, mark_conflict (snd kv)) else kv.

(** The keys the two nested loops visit, in the order they visit them. *)
Definition visited (bp : Dict.t pair_key PySet.t) : list edge_key :=
  flat_map (fun item =>
              if Nat.leb (length (snd item)) 1 then []
              else map (fun rel => (fst item, rel)) (set_iter (snd item))) bp.

(** The relations collected for a pair, and what [by_pair] holds after
    the keys [done]. *)
Definition rels_of (bp : Dict.t pair_key PySet.t) (p : pair_key) : PySet.t :=
  Dict.get_or pair_eqb bp p [].

Definition by_pair_inv (done : list edge_key) (bp : Dict.t pair_key PySet.t) : Prop :=
  NoDup (Dict.keys bp)
  /\ forall p, NoDup (rels_of bp p) /\ forall rel, In rel (rels_of bp p) <-> In (p, rel) done.

End WithInterpreter.

(** ** Sample inputs *)

Definition sample_node (id name domain : string) : Node.t :=
  Node.mk (of_string id) (of_string name) (of_string domain) None 0.75.

Definition sample_edge (source target relation snippet : string) (c : Q)
    (flags : list str) : Edge.t :=
  Edge.mk (Some (of_string "e")) (of_string source) (of_string target)
          (of_string relation) (of_string "because")
          (Evidence.mk (of_string "Notes") (of_string snippet) None None)
          c true None flags.

(** Two names of one concept, and a second concept. *)
Definition sample_nodes : list Node.t :=
  [ sample_node "cs:nn" "Neural Network" "CS";
    sample_node "cs:nn2" "neural network (NN)" "CS";
    sample_node "cs:bp" "Backpropagation" "CS" ].

(** Two edges that share a key once [cs:nn2] is rewritten to [cs:nn]. *)
Definition duplicate_edges : list Edge.t :=
  [ sample_edge "cs:nn2" "cs:bp" "used_in" "first snippet" 0.5 [];
    sample_edge "cs:nn" "cs:bp" "used_in" "second snippet" 0.7 [] ].

(** Two relations on one pair; the first edge comes in with the flag
    "conflict" written twice. *)
Definition conflicting_edges : list Edge.t :=
  [ sample_edge "cs:nn" "cs:bp" "is_a" "one" 0.5 [conflict_flag; conflict_flag];
    sample_edge "cs:nn" "cs:bp" "explains" "two" 0.5 [] ].

(** An edge whose source is the id of no node. *)
Definition dangling_edges : list Edge.t :=
  [ sample_edge "cs:gan" "cs:bp" "is_a" "one" 0.5 [] ].

(** [merge_synonyms] on the sample nodes, sets iterated in insertion
    order. *)
Definition run_sample (edges : list Edge.t) : list Node.t * list Edge.t * MergeStats :=
  Merge.merge_synonyms ascii_lower (fun l => l) sample_nodes edges.

Definition sample_id_map : Dict.t str str :=
  id_map (Merge.node_loop ascii_lower sample_nodes).

End Merge.

(* ================================================================== *)
(** * [app/tools/schema_validate.py] *)
(* ================================================================== *)

Module SchemaValidate.
Import Py Json.
Local Open Scope Z_scope.

(** A [dict] of the draft. [json.loads] only makes string keys; [dict(...)]
    of a list of pairs can make a key of any hashable value. *)
Definition dict := list (value * value).

(** The number a value is compared as, for [==] between keys. *)
Definition num_of (v : value) : option Q :=
  match v with
  | VBool b => Some (if b then 1%Q else 0%Q)
  | VInt z => Some (inject_Z z)
  | VFloat q => Some q
  | _ => None
  end.

(** [a == b] on hashable values, as a dict compares its keys. *)
Definition value_eqb (a b : value) : bool :=
  match a, b with
  | VNone, VNone => true
  | VStr s, VStr s' => str_eqb s s'
  | _, _ =>
      match num_of a, num_of b with
      | Some x, Some y => Qeq_bool x y
      | _, _ => false
      end
  end.

(** [bool(v)] *)
Definition truthy (v : value) : bool :=
  match v with
  | VNone => false
  | VBool b => b
  | VInt z => negb (z =? 0)
  | VFloat q => negb (Qeq_bool q 0)
  | VStr s => Py.truthy s
  | VList l => match l with [] => false | _ => true end
  | VDict d => match d with [] => false | _ => true end
  end.

Definition key (s : string) : value := VStr (of_string s).

(** [d.get(k)] with [None] for a missing key. *)
Definition get (d : dict) (k : string) : value :=
  match Dict.get value_eqb d (key k) with Some v => v | None => VNone end.

(** [k in d] *)
Definition has (d : dict) (k : string) : bool := Dict.mem value_eqb d (key k).

(** [d[k] = v], [d.setdefault(k, v)] *)
Definition put (d : dict) (k : string) (v : value) : dict := Dict.set value_eqb d (key k) v.
Definition setdefault (d : dict) (k : string) (v : value) : dict :=
  Dict.setdefault value_eqb d (key k) v.

(** [v or d] *)
Definition or_else (v d : value) : value := if truthy v then v else d.

Definition is_dict (v : value) : bool := match v with VDict _ => true | _ => false end.
Definition is_list (v : value) : bool := match v with VList _ => true | _ => false end.

(** [list(v)]: [None] when it raises [TypeError]. *)
Definition py_list (v : value) : option (list value) :=
  match v with
  | VList l => Some l
  | VDict d => Some (Dict.keys d)
  | VStr s => Some (map (fun c => VStr [c]) s)
  | _ => None
  end.

Definition hashable (v : value) : bool :=
  match v with VList _ | VDict _ => false | _ => true end.

(** One element of the sequence given to [dict(...)], unpacked as a
    key and a value. *)
Definition as_pair (v : value) : option (value * value) :=
  match v with
  | VList [a; b] => if hashable a then Some (a, b) else None
  | VStr [a; b] => Some (VStr [a], VStr [b])
  | VDict [(a, _); (b, _)] => Some (a, b)
  | _ => None
  end.

Fixpoint dict_of_pairs (acc : dict) (l : list value) : option dict :=
  match l with
  | [] => Some acc
  | x :: r =>
      match as_pair x with
      | Some (k, v) => dict_of_pairs (Dict.set value_eqb acc k v) r
      | None => None
      end
  end.

(** [dict(v)]: a copy of a dict, the dict of a sequence of pairs, [None]
    when it raises. *)
Definition py_dict (v : value) : option dict :=
  match v with
  | VDict d => Some d
  | VList l => dict_of_pairs [] l
  | VStr [] => Some []
  | _ => None
  end.

Definition of_opt_str (o : option str) : value :=
  match o with Some s => VStr s | None => VNone end.

Section WithLibraries.

(** [str(v)]; on a string it is the string itself. *)
Variable py_str : value -> str.

(** What the schema library accepts, in its default mode, for a field
    declared [float] with bounds 0 and 1, [bool], and [int]. *)
Variable accepts_unit_float : value -> bool.
Variable accepts_bool : value -> bool.
Variable accepts_int : value -> bool.

(** ** [validate_graph]: the schema of [app/models.py] *)

Definition is_str (v : value) : bool := match v with VStr _ => true | _ => false end.
Definition is_opt_str (v : value) : bool :=
  match v with VStr _ | VNone => true | _ => false end.

(** A field without a default, and a field with one. *)
Definition required (d : dict) (k : string) (p : value -> bool) : bool :=
  match Dict.get value_eqb d (key k) with Some v => p v | None => false end.
Definition optional (d : dict) (k : string) (p : value -> bool) : bool :=
  match Dict.get value_eqb d (key k) with Some v => p v | None => true end.

Definition is_relation (v : value) : bool :=
  match v with
  | VStr s => existsb (str_eqb s) Checker.whitelist
  | _ => false
  end.

Definition valid_evidence (v : value) : bool :=
  match v with
  | VDict d =>
      required d "title" is_str && required d "snippet" is_str
      && optional d "url" is_opt_str && optional d "domain" is_opt_str
  | _ => false
  end.

Definition valid_node (v : value) : bool :=
  match v with
  | VDict d =>
      required d "id" is_str && required d "name" is_str && required d "domain" is_str
      && optional d "definition" is_opt_str
      && optional d "confidence" accepts_unit_float
  | _ => false
  end.

Definition is_str_list (v : value) : bool :=
  match v with VList l => forallb is_str l | _ => false end.

Definition valid_edge (v : value) : bool :=
  match v with
  | VDict d =>
      optional d "id" is_opt_str
      && required d "source" is_str && required d "target" is_str
      && required d "relation" is_relation
      && required d "explanation" is_str
      && required d "evidence" valid_evidence
      && optional d "confidence" accepts_unit_float
      && optional d "checked" accepts_bool
      && optional d "check_reason" is_opt_str
      && optional d "flags" is_str_list
  | _ => false
  end.

Definition valid_checker_summary (v : value) : bool :=
  match v with
  | VDict d =>
      forallb (fun k => optional d k accepts_int)
        ["schema_fixed"; "edges_checked"; "edges_failed"; "edges_downgraded";
         "dedup_nodes_merged"; "dedup_edges_removed"; "conflicts_flagged";
         "passed"; "failed"]%string
  | _ => false
  end.

Definition is_opt_str_dict (v : value) : bool :=
  match v with
  | VNone => true
  | VDict d => forallb is_str (Dict.keys d)
  | _ => false
  end.

Definition valid_meta (v : value) : bool :=
  match v with
  | VDict d =>
      required d "generated_at" is_str && required d "version" is_str
      && required d "checker_summary" valid_checker_summary
      && optional d "agent_trace" is_opt_str_dict
  | _ => false
  end.

Definition all_valid (p : value -> bool) (v : value) : bool :=
  match v with VList l => forallb p l | _ => false end.

(** The first component of [validate_graph]: whether
    [GraphResult.model_validate] accepts the dict. *)
Definition validate_graph (graph_dict : dict) : bool :=
  required graph_dict "concept" is_str
  && required graph_dict "nodes" (all_valid valid_node)
  && required graph_dict "edges" (all_valid valid_edge)
  && required graph_dict "meta" valid_meta.

(** ** [light_fix] *)

(** The local function [_sha]. *)
Definition _sha (source relation target : str) : str := Edge.hash_id source relation target.

(** The loop that fills [node_domain]. *)
Definition node_domain_step (nd : Dict.t str str) (n : value) : Dict.t str str :=
  match n with
  | VDict d =>
      if truthy (get d "id") && truthy (get d "domain") then
        Dict.set str_eqb nd (py_str (get d "id")) (py_str (get d "domain"))
      else nd
  | _ => nd
  end.

(** [ev = ee.get("evidence") if isinstance(ee.get("evidence"), dict) else {}] *)
Definition evidence_of (ee : dict) : dict :=
  match get ee "evidence" with VDict d => d | _ => [] end.

(** The four fills of the evidence dict and how many were counted;
    [inferred] is [node_domain.get(tid)], used when "domain" is missing. *)
Definition fill_evidence (ev : dict) (inferred : value) : dict * Z :=
  let '(ev, n) := if has ev "title" then (ev, 0) else (put ev "title" (VStr []), 1) in
  let '(ev, n) := if has ev "snippet" then (ev, n) else (put ev "snippet" (VStr []), n + 1) in
  let ev := if has ev "url" then ev else put ev "url" VNone in
  if has ev "domain" then (ev, n) else (put ev "domain" inferred, n + 1).

(** The evidence part of the loop body on the copy [ee]. *)
Definition fix_evidence (nd : Dict.t str str) (ee : dict) : dict * Z :=
  let tid := py_str (or_else (get ee "target") (VStr [])) in
  fill_evidence (evidence_of ee) (of_opt_str (Dict.get str_eqb nd tid)).

(** The test of the last [if] of the loop body. *)
Definition needs_id (ee : dict) : bool :=
  negb (truthy (get ee "id")) && truthy (get ee "source")
  && truthy (get ee "target") && truthy (get ee "relation").

(** The loop body on a dict entry [e] of the edge list: the repaired
    copy and the number of fixes counted. *)
Definition fix_edge (nd : Dict.t str str) (e : dict) : dict * Z :=
  let ee := e in
  let '(ee, n) :=
    if negb (has ee "flags") || negb (is_list (get ee "flags"))
    then (put ee "flags" (VList []), 1) else (ee, 0) in
  let ee := setdefault ee "check_reason" VNone in
  let '(ev, m) := fix_evidence nd ee in
  let ee := put ee "evidence" (VDict ev) in
  if needs_id ee then
    (put ee "id" (VStr (_sha (py_str (get ee "source")) (py_str (get ee "relation"))
                             (py_str (get ee "target")))),
     n + m + 1)
  else (ee, n + m).

(** The loop over the edge list; entries that are not dicts are skipped. *)
Fixpoint fix_edges (nd : Dict.t str str) (es : list value) : list value * Z :=
  match es with
  | [] => ([], 0)
  | VDict e :: r =>
      let '(ee, n) := fix_edge nd e in
      let '(out, m) := fix_edges nd r in
      (VDict ee :: out, n + m)
  | _ :: r => fix_edges nd r
  end.

Definition count_missing (d : dict) (k : string) : Z :=
  if has d k then 0 else 1.

(** The four top-level [setdefault]s, and the fixes counted for them
    against the dict that was passed in. *)
Definition with_defaults (g : dict) : dict :=
  let g := setdefault g "concept" (VStr (of_string "Unknown")) in
  let g := setdefault g "nodes" (VList []) in
  let g := setdefault g "edges" (VList []) in
  setdefault g "meta" (VDict []).

Definition missing_top_level (graph_dict : dict) : Z :=
  count_missing graph_dict "concept" + count_missing graph_dict "nodes"
  + count_missing graph_dict "edges" + count_missing graph_dict "meta".

(** The three [setdefault]s on [meta]; each test is made on [meta] after
    its own [setdefault]. *)
Definition meta_with_defaults (meta : dict) : dict * Z :=
  let meta := setdefault meta "generated_at" (VStr []) in
  let n1 := count_missing meta "generated_at" in
  let meta := setdefault meta "version" (VStr (of_string "v1")) in
  let n2 := count_missing meta "version" in
  let meta := setdefault meta "checker_summary" (VDict []) in
  let n3 := count_missing meta "checker_summary" in
  (meta, n1 + n2 + n3).

(** [light_fix(graph_dict, errors)]; [None] when an exception escapes. *)
Definition light_fix (graph_dict : dict) (errors : list str) : option (dict * Z) :=
  let g := with_defaults graph_dict in
  let fixed := missing_top_level graph_dict in
  match py_dict (or_else (get g "meta") (VDict [])) with
  | None => None
  | Some meta =>
      let '(meta, n_meta) := meta_with_defaults meta in
      let g := put g "meta" (VDict meta) in
      match py_list (or_else (get g "nodes") (VList [])) with
      | None => None
      | Some ns =>
          let node_domain := fold_left node_domain_step ns [] in
          match py_list (or_else (get g "edges") (VList [])) with
          | None => None
          | Some es =>
              let '(fixed_edges, n) := fix_edges node_domain es in
              Some (put g "edges" (VList fixed_edges), fixed + n_meta + n)
          end
      end
  end.

(** ** Notions used to state the properties of [light_fix] *)

(** An evidence dict that carries the four keys the loop fills. *)
Definition filled_evidence (ev : dict) : bool :=
  has ev "title" && has ev "snippet" && has ev "url" && has ev "domain".

(** An edge dict on which the loop body finds nothing to do. *)
Definition repaired_edge (ee : dict) : bool :=
  has ee "flags" && is_list (get ee "flags") && has ee "check_reason"
  && has ee "evidence"
  && match get ee "evidence" with VDict ev => filled_evidence ev | _ => false end
  && negb (needs_id ee).

(** An entry of the edge list that is a repaired edge dict. *)
Definition repaired_entry (v : value) : Prop :=
  exists ee, v = VDict ee /\ repaired_edge ee = true.

(** An edge entry that spells out every key the schema lets it omit and
    the loop body would add: [flags], [check_reason], the [url] and
    [domain] of its evidence, and an [id] when the loop would make one. *)
Definition complete_edge (v : value) : bool :=
  match v with
  | VDict d =>
      has d "flags" && has d "check_reason"
      && match get d "evidence" with
         | VDict ev => has ev "url" && has ev "domain"
         | _ => false
         end
      && negb (needs_id d)
  | _ => false
  end.

(** The entries of the "edges" value as the loop iterates over them. *)
Definition edge_entries (g : dict) : option (list value) :=
  py_list (or_else (get g "edges") (VList [])).

End WithLibraries.

(** [str()] on the values whose text the repository fixes: strings,
    [None], booleans; used to run [light_fix] on drafts made of strings. *)
Definition str_of_plain (v : value) : str :=
  match v with
  | VStr s => s
  | VNone => of_string "None"
  | VBool true => of_string "True"
  | VBool false => of_string "False"
  | _ => []
  end.

(** The strict readings of the three scalar fields: a JSON number between
    0 and 1, a JSON boolean, a JSON integer. *)
Definition strict_unit_float (v : value) : bool :=
  match v with
  | VFloat q => Qle_bool 0 q && Qle_bool q 1
  | VInt z => (0 <=? z) && (z <=? 1)
  | _ => false
  end.
Definition strict_bool (v : value) : bool := match v with VBool _ => true | _ => false end.
Definition strict_int (v : value) : bool := match v with VInt _ => true | _ => false end.

(** ** Sample drafts *)

Local Open Scope string_scope.

Definition txt (s : string) : value := VStr (of_string s).
Definition entries (l : list (string * value)) : dict :=
  map (fun kv => (key (fst kv), snd kv)) l.
Definition obj (l : list (string * value)) : value := VDict (entries l).

Definition sample_node (id name domain : string) : value :=
  obj [("id", txt id); ("name", txt name); ("domain", txt domain)].

(** An edge with the required fields only. *)
Definition short_edge : value :=
  obj [ ("source", txt "core:entropy"); ("target", txt "physics:heat");
        ("relation", txt "explains"); ("explanation", txt "Entropy explains heat flow.");
        ("evidence", obj [("title", txt "Notes"); ("snippet", txt "Heat flows.")]) ].

(** The same edge with every optional key written out. *)
Definition full_edge : value :=
  obj [ ("id", txt "e1");
        ("source", txt "core:entropy"); ("target", txt "physics:heat");
        ("relation", txt "explains"); ("explanation", txt "Entropy explains heat flow.");
        ("evidence", obj [("title", txt "Notes"); ("snippet", txt "Heat flows.");
                          ("url", VNone); ("domain", txt "Physics")]);
        ("confidence", VFloat 0.7); ("checked", VBool true);
        ("check_reason", VNone); ("flags", VList []) ].

Definition sample_draft (edges : list value) : dict :=
  entries
    [ ("concept", txt "Entropy");
      ("nodes", VList [ sample_node "core:entropy" "Entropy" "Core";
                        sample_node "physics:heat" "Heat" "Physics" ]);
      ("edges", VList edges);
      ("meta", obj [ ("generated_at", txt "2024-01-01T00:00:00Z"); ("version", txt "v1");
                     ("checker_summary", obj []) ]) ].

(** [light_fix] and [validate_graph] with the plain readings of the
    library functions. *)
Definition run_light_fix (g : dict) : option (dict * Z) := light_fix str_of_plain g [].
Definition run_validate (g : dict) : bool :=
  validate_graph strict_unit_float strict_bool strict_int g.

End SchemaValidate.

(* ================================================================== *)
(** * More of Python's [str] *)
(* ================================================================== *)

Module PyText.
Import Py.
Local Open Scope N_scope.

(** [re.sub(r"[...]+", rep, s)] for a one-character replacement: every
    maximal run of characters satisfying [p] becomes [rep]. *)
Fixpoint squeeze_with (rep : char) (p : char -> bool) (in_run : bool) (s : str) : str :=
  match s with
  | [] => []
  | c :: r =>
      if p c then
        if in_run then squeeze_with rep p true r else rep :: squeeze_with rep p true r
      else c :: squeeze_with rep p false r
  end.

(** [s.strip(chars)], [p] telling the characters of [chars]. *)
Fixpoint lstrip_by (p : char -> bool) (s : str) : str :=
  match s with
  | [] => []
  | c :: r => if p c then lstrip_by p r else s
  end.

Definition strip_by (p : char -> bool) (s : str) : str :=
  rev (lstrip_by p (rev (lstrip_by p s))).

(** [s.replace(pat, "")] for a non-empty [pat]: the occurrences are
    found from the left and do not overlap; [skip] counts the characters
    of the occurrence in progress that are still to be dropped. *)
Fixpoint drop_from (pat : str) (skip : nat) (s : str) : str :=
  match s with
  | [] => []
  | c :: r =>
      match skip with
      | S k => drop_from pat k r
      | O =>
          if starts_with pat s then drop_from pat (pred (length pat)) r
          else c :: drop_from pat O r
      end
  end.

Definition replace_drop (pat s : str) : str := drop_from pat O s.

(** [a < b] on strings: lexicographic on code points. *)
Fixpoint str_ltb (a b : str) : bool :=
  match a, b with
  | _, [] => false
  | [], _ :: _ => true
  | x :: a', y :: b' => (x <? y) || ((x =? y) && str_ltb a' b')
  end.

Fixpoint insert_sorted (x : str) (l : list str) : list str :=
  match l with
  | [] => [x]
  | y :: r => if str_ltb x y then x :: l else y :: insert_sorted x r
  end.

(** [sorted(l)] on strings. Equal strings cannot be told apart, so every
    sorting algorithm returns the same list. *)
Definition sorted (l : list str) : list str := fold_left (fun acc x => insert_sorted x acc) l [].

End PyText.

(* ================================================================== *)
(** * [app/tools/seed_corpus.py] *)
(* ================================================================== *)

Module Passage.
Import Py.

Record t := mk {
  domain : str;
  title : str;
  snippet : str;
  url : option str
}.

End Passage.

Module SeedCorpus.
Import Py.
Local Open Scope string_scope.

Definition seed (domain title snippet : string) : Passage.t :=
  Passage.mk (of_string domain) (of_string title) (of_string snippet) None.

Definition SEED_PASSAGES : Dict.t str (list Passage.t) :=
  [ (of_string "Computer Science",
     [ seed "Computer Science" "Information Entropy (seed)"
         "Information entropy (Shannon entropy) measures uncertainty in a random variable and is used in coding and machine learning.";
       seed "Computer Science" "Cross-entropy (seed)"
         "Cross-entropy compares two probability distributions and is widely used as a loss function in classification tasks." ]);
    (of_string "Physics",
     [ seed "Physics" "Thermodynamic Entropy (seed)"
         "Thermodynamic entropy quantifies the number of microscopic configurations corresponding to a macroscopic state; it relates to the second law of thermodynamics." ]);
    (of_string "Mathematics",
     [ seed "Mathematics" "Probability distributions (seed)"
         "A probability distribution assigns probabilities to outcomes; many entropy definitions depend on distributions." ]);
    (of_string "Biology",
     [ seed "Biology" "Biological information (seed)"
         "Entropy-like measures appear in bioinformatics for sequence variability and information content." ]);
    (of_string "Economics",
     [ seed "Economics" "Information and uncertainty (seed)"
         "In economics, uncertainty and information affect decision-making; entropy can be used as a diversity/uncertainty measure in some models." ]) ].

Definition DEFAULT_DOMAINS : list str :=
  map of_string ["Mathematics"; "Physics"; "Computer Science"; "Biology"; "Economics"].

End SeedCorpus.

(* ================================================================== *)
(** * [app/tools/retrieval.py] *)
(* ================================================================== *)

Module Retrieval.
Import Py SeedCorpus.
Local Open Scope string_scope.
Local Open Scope list_scope.

Local Abbreviation lit := of_string.

Section WithEnvironment.

(** [str.lower]; the setting [settings.enable_wiki]; and what the online
    branch of [search] returns for a domain and a concept (the empty list
    on any failure). *)
Variable lower : str -> str.
Variable enable_wiki : bool.
Variable wiki_summary : str -> str -> list Passage.t.

Definition _norm (s : str) : str := sub_spaces (lower (strip s)).

Definition _synthetic_passage (domain concept : str) : Passage.t :=
  let c := strip concept in
  let '(title, snippet) :=
    if str_eqb domain (lit "Mathematics") then
      (c ++ lit " (Mathematics)",
       c ++ lit " is studied in mathematics as a definition/recurrence that refers to itself; it is used for sequences, induction, and recursive definitions.")
    else if str_eqb domain (lit "Computer Science") then
      (c ++ lit " in programming (Computer Science)",
       lit "In computer science, " ++ c ++ lit " is a technique where a function calls itself to solve a problem by reducing it to smaller subproblems; it relates to recursion depth and base cases.")
    else if str_eqb domain (lit "Physics") then
      (c ++ lit " and self-similarity (Physics)",
       lit "In physics, ideas related to " ++ c ++ lit " appear in self-similar systems and fractal-like structures; recursive patterns can model scale-invariant phenomena.")
    else if str_eqb domain (lit "Biology") then
      (c ++ lit " in biological processes (Biology)",
       lit "In biology, " ++ c ++ lit "-like feedback loops and self-referential processes appear in regulatory networks; recursion can describe repeated hierarchical structures.")
    else if str_eqb domain (lit "Economics") then
      (c ++ lit " in dynamic models (Economics)",
       lit "In economics, " ++ c ++ lit " can be used in dynamic programming and recursive utility where today's value depends on future values; recursive equations define equilibria.")
    else
      (c ++ lit " (" ++ domain ++ lit ")",
       c ++ lit " is connected to concepts in " ++ domain ++ lit "; this is an offline fallback passage for evidence and visualization.")
  in
  Passage.mk domain title snippet None.

(** The test of the loop over the seed passages of the domain. *)
Definition seed_match (concept_n domain : str) (p : Passage.t) : bool :=
  contains (_norm (Passage.snippet p)) concept_n
  || contains (_norm (Passage.title p)) concept_n
  || contains (_norm domain) concept_n.

Definition search (domain concept : str) : list Passage.t :=
  let concept_n := _norm concept in
  let out :=
    fold_left (fun out p => if seed_match concept_n domain p then out ++ [p] else out)
              (Dict.get_or str_eqb SEED_PASSAGES domain []) [] in
  match out with
  | _ :: _ => out
  | [] =>
      if negb enable_wiki then [_synthetic_passage domain concept]
      else wiki_summary domain concept
  end.

End WithEnvironment.

(** [if not domains] holds for [None] and for the empty list. *)
Definition domains_or_default (domains : option (list str)) : list str :=
  match domains with
  | None | Some [] => DEFAULT_DOMAINS
  | Some ds => ds
  end.

Definition flatten (passages_by_domain : Dict.t str (list Passage.t)) : list Passage.t :=
  fold_left (fun out ps => out ++ ps) (Dict.values passages_by_domain) [].

End Retrieval.

(* ================================================================== *)
(** * [app/tools/extract.py] *)
(* ================================================================== *)

Module Extract.
Import Py PyText.
Local Open Scope string_scope.
Local Open Scope list_scope.
Local Open Scope Q_scope.

Local Abbreviation lit := of_string.

Record Extracted := mk_extracted {
  nodes : list Node.t;
  edges : list Edge.t
}.

Section WithInterpreter.

(** [str.lower], and [str.isalnum] of one code point: with the
    underscore it makes the class [\w] of [re] on [str] patterns. *)
Variable lower : str -> str.
Variable is_alnum : char -> bool.

(** The class [[\w一-鿿]]. *)
Definition slug_keeps (c : char) : bool :=
  (is_alnum c || (c =? 95)%N) || ((19968 <=? c)%N && (c <=? 40959)%N).

Definition _slug (s : str) : str :=
  let raw := lower (strip s) in
  let raw := squeeze_with 95%N (fun c => negb (slug_keeps c)) false raw in
  let raw := strip_by (fun c => (c =? 95)%N)
                      (squeeze_with 95%N (fun c => (c =? 95)%N) false raw) in
  if truthy raw then raw
  else firstn 10 (Sha1.hexdigest (Sha1.utf8 s)).

Definition _make_node (name domain : str) (definition : option str) (confidence : Q)
  : Node.t :=
  Node.mk (_slug domain ++ lit ":" ++ _slug name) name domain definition confidence.

(** ** [graph_from_passages] *)

(** The heuristic relation, from the lowercased snippet. *)
Definition relation_of (sn : str) : str :=
  if contains sn (lit "loss function") || contains sn (lit "classification")
  then lit "used_in"
  else if contains sn (lit "second law") || contains sn (lit "thermodynamics")
  then lit "explains"
  else if contains sn (lit "probability distribution") || contains sn (lit "distributions")
  then lit "is_a"
  else lit "related_to".

(** The node [n] made for a passage. *)
Definition passage_node (p : Passage.t) : Node.t :=
  _make_node (strip (replace_drop (lit "(seed)") (Passage.title p)))
             (Passage.domain p) (Some (Passage.snippet p)) 0.78.

Definition concept_node_of (concept : str) : Node.t :=
  _make_node concept (lit "Core") (Some (lit "User query concept: " ++ concept)) 0.9.

Record loop_state := mk_loop {
  loop_nodes : Dict.t str Node.t;
  loop_edges : list Edge.t
}.

(** The loop body on passage [p]. *)
Definition loop_body (concept : str) (concept_node : Node.t) (st : loop_state)
    (p : Passage.t) : loop_state :=
  let n := passage_node p in
  let nodes := Dict.setdefault str_eqb (loop_nodes st) (Node.id n) n in
  let rel := relation_of (lower (Passage.snippet p)) in
  mk_loop nodes
    (loop_edges st ++
     [Edge.mk None (Node.id concept_node) (Node.id n) rel
        (concept ++ lit " is connected to " ++ Node.name n ++ lit " in the domain of "
         ++ Passage.domain p ++ lit ".")
        (Evidence.mk (Passage.title p) (Passage.snippet p) (Passage.url p)
                     (Some (Passage.domain p)))
        0.72 true None []]).

Definition graph_from_passages (concept : str) (passages : list Passage.t) : Extracted :=
  let concept_node := concept_node_of concept in
  let st := fold_left (loop_body concept concept_node) passages
                      (mk_loop [(Node.id concept_node, concept_node)] []) in
  mk_extracted (Dict.values (loop_nodes st)) (loop_edges st).

(** ** [bridge_discovery] *)

Definition bridge_node : Node.t :=
  _make_node (lit "Uncertainty") (lit "Bridge")
    (Some (lit "A bridge concept used to connect multiple disciplines via uncertainty/information viewpoints."))
    0.74.

(** [{n.id: n for n in extracted.nodes}] *)
Definition index_nodes (ns : list Node.t) : Dict.t str Node.t :=
  fold_left (fun d n => Dict.set str_eqb d (Node.id n) n) ns [].

(** [sorted({n.domain for n in nodes.values() if n.domain not in ("Core",)})] *)
Definition bridge_domains (nodes : Dict.t str Node.t) : list str :=
  sorted (PySet.of_list
            (map Node.domain
               (filter (fun n => negb (str_eqb (Node.domain n) (lit "Core")))
                       (Dict.values nodes)))).

(** [candidate.definition or ""] *)
Definition definition_or_empty (n : Node.t) : str :=
  match Node.definition n with
  | Some s => str_or s []
  | None => []
  end.

(** The body of the loop over the first four domains. A node object is
    always truthy, so [if not candidate] tests for [None]. *)
Definition bridge_body (nodes : Dict.t str Node.t) (bridge : Node.t)
    (es : list Edge.t) (d : str) : list Edge.t :=
  match find (fun n => str_eqb (Node.domain n) d) (Dict.values nodes) with
  | None => es
  | Some candidate =>
      es ++
      [Edge.mk None (Node.id candidate) (Node.id bridge) (lit "bridges")
         (Node.name candidate
          ++ lit " can be interpreted through uncertainty; this bridges " ++ d
          ++ lit " with other domains.")
         (Evidence.mk (lit "Bridge rationale") (definition_or_empty candidate) None None)
         0.62 true None []]
  end.

Definition bridge_discovery (extracted : Extracted) : Extracted :=
  let nodes0 := index_nodes (nodes extracted) in
  let domains := bridge_domains nodes0 in
  if Nat.ltb (length domains) 2 then extracted
  else
    let bridge := bridge_node in
    let nodes1 := Dict.setdefault str_eqb nodes0 (Node.id bridge) bridge in
    mk_extracted (Dict.values nodes1)
      (fold_left (bridge_body nodes1 bridge) (firstn 4 domains) (edges extracted)).

(** ** Notions used to state the properties of the extractor *)

(** Every endpoint of every edge is the id of a node of the list. *)
Definition closed (ns : list Node.t) (es : list Edge.t) : Prop :=
  Forall (fun e => In (Edge.source e) (map Node.id ns)
                   /\ In (Edge.target e) (map Node.id ns)) es.

End WithInterpreter.

(** A dict of nodes in which every node sits under its own id. *)
Definition indexed (d : Dict.t str Node.t) : Prop :=
  NoDup (Dict.keys d) /\ forall k n, In (k, n) d -> Node.id n = k.

(** What holds of an edge that [graph_from_passages] makes, and of one
    that [bridge_discovery] adds. *)
Definition concept_edge (concept_id : str) (ids : list str) (e : Edge.t) : Prop :=
  Edge.source e = concept_id
  /\ In (Edge.target e) ids
  /\ existsb (str_eqb (Edge.relation e)) Checker.whitelist = true
  /\ Edge.checked e = true
  /\ Edge.confidence e = 0.72.

Definition bridge_edge (bridge_id : str) (ids : list str) (e : Edge.t) : Prop :=
  Edge.relation e = lit "bridges"
  /\ Edge.target e = bridge_id
  /\ In (Edge.source e) ids
  /\ In (Edge.target e) ids.

End Extract.

(* ================================================================== *)
(** * Notions used to state further properties *)
(* ================================================================== *)

Module Shape.
Import Py.
Local Open Scope N_scope.

(** A lowercase hexadecimal digit. *)
Definition is_hex (c : char) : bool :=
  ((48 <=? c) && (c <=? 57)) || ((97 <=? c) && (c <=? 102)).

(** No two adjacent spaces. *)
Fixpoint single_spaced (s : str) : bool :=
  match s with
  | a :: (b :: _) as r => negb ((a =? 32) && (b =? 32)) && single_spaced r
  | _ => true
  end.

(** The shape of a normalized string: characters of the word class
    separated by single spaces, no space at either end. *)
Definition normalized (s : str) : bool :=
  forallb (fun c => is_word c || (c =? 32)) s
  && single_spaced s
  && negb (starts_with [32] s)
  && negb (starts_with [32] (rev s)).

(** The number of elements of [l] that satisfy [f]. *)
Definition count (A : Type) (f : A -> bool) (l : list A) : Z :=
  Z.of_nat (length (filter f l)).

End Shape.

(** ** Notions used to state what [merge_synonyms] returns *)

Module MergeShape.
Import Py Merge.

Section WithInterpreter.
Variable lower : str -> str.

(** The key under which the first loop files a node. *)
Definition node_key (n : Node.t) : str := _k lower (Node.name n) (Node.domain n).

(** The first node of the list filed under [k]. *)
Definition first_with_key (nodes : list Node.t) (k : str) : option Node.t :=
  find (fun n => str_eqb (node_key n) k) nodes.

(** The last node of the list whose id is [i]. *)
Definition last_with_id (nodes : list Node.t) (i : str) : option Node.t :=
  find (fun n => str_eqb (Node.id n) i) (rev nodes).

(** What the first loop has built after the nodes [seen]. *)
Definition node_loop_inv (seen : list Node.t) (st : node_state) : Prop :=
  (forall k, Dict.get str_eqb (kept st) k = first_with_key seen k)
  /\ NoDup (Dict.keys (kept st))
  /\ (Z.of_nat (length (kept st)) + merged_count st = Z.of_nat (length seen))%Z
  /\ (forall i, Dict.get str_eqb (id_map st) i
                = match last_with_id seen i with
                  | None => None
                  | Some n => option_map Node.id (first_with_key seen (node_key n))
                  end).

End WithInterpreter.

(** Every entry of the dict of edges sits under its own key. *)
Definition entries_inv (d : Dict.t edge_key Edge.t) : Prop :=
  NoDup (Dict.keys d) /\ forall k e, In (k, e) d -> key_of e = k.

(** Two edges that differ at most by snippet, confidence and flags. *)
Definition same_statement (a b : Edge.t) : Prop :=
  Edge.id a = Edge.id b
  /\ Edge.source a = Edge.source b
  /\ Edge.target a = Edge.target b
  /\ Edge.relation a = Edge.relation b
  /\ Edge.explanation a = Edge.explanation b
  /\ Edge.checked a = Edge.checked b
  /\ Edge.check_reason a = Edge.check_reason b
  /\ Evidence.title (Edge.evidence a) = Evidence.title (Edge.evidence b)
  /\ Evidence.url (Edge.evidence a) = Evidence.url (Edge.evidence b)
  /\ Evidence.domain (Edge.evidence a) = Evidence.domain (Edge.evidence b).

(** An entry of the deduplicated edges that the conflict loop flags for
    the first time. *)
Definition newly_flagged (out : Dict.t edge_key Edge.t) (kv : edge_key * Edge.t) : bool :=
  in_conflict out (fst kv) && negb (has_conflict_flag (snd kv)).

End MergeShape.

(* ================================================================== *)
(** * Facts about the Python layer *)
(* ================================================================== *)

Module PyFacts.
Import Py.
Local Open Scope N_scope.

Lemma str_eqb_eq a b : str_eqb a b = true <-> a = b.
Proof. unfold str_eqb; destruct (str_eq_dec a b); split; congruence. Qed.

Lemma str_eqb_refl a : str_eqb a a = true.
Proof. now apply str_eqb_eq. Qed.

Lemma str_eqb_neq a b : str_eqb a b = false <-> a <> b.
Proof. unfold str_eqb; destruct (str_eq_dec a b); split; congruence. Qed.

Lemma In_firstn (A : Type) (x : A) n : forall l, In x (firstn n l) -> In x l.
Proof.
  induction n as [|n IH]; intros [|a l]; simpl; try contradiction.
  intros [H|H]; [now left | right; auto].
Qed.

End PyFacts.

Module Sha1Facts.
Import Py Sha1.
Local Open Scope N_scope.

(** The two standard test vectors. *)
Example sha1_abc :
  hexdigest (utf8 (of_string "abc")) = of_string "a9993e364706816aba3e25717850c26c9cd0d89d".
Proof. vm_compute. reflexivity. Qed.

Example sha1_empty :
  hexdigest [] = of_string "da39a3ee5e6b4b0d3255bfef95601890afd80709".
Proof. vm_compute. reflexivity. Qed.

Example sha1_two_blocks :
  hexdigest (utf8 (of_string "abcdbcdecdefdefgefghfghighijhijkijkljklmklmnlmnomnopnopq"))
  = of_string "84983e441c3bd26ebaae4aa1f95129e5e54670f1".
Proof. vm_compute. reflexivity. Qed.

(** A string with a two-byte, a three-byte and a four-byte character and
    a lone surrogate, which the encoder drops. *)
Example sha1_unicode :
  firstn 12%nat (hexdigest (utf8 [233; 55296; 20013; 128512; 124; 120]))
  = of_string "526d4d6169d6".
Proof. vm_compute. reflexivity. Qed.

Example hash_id_sample :
  Edge.hash_id (of_string "a") (of_string "is_a") (of_string "b") = of_string "7331cbdcbf28".
Proof. vm_compute. reflexivity. Qed.

Lemma hexdigest_firstn_nonempty m : firstn 12%nat (hexdigest m) <> [].
Proof.
  unfold hexdigest. destruct (digest m) as [[[[h0 h1] h2] h3] h4].
  unfold hex8 at 1. simpl. discriminate.
Qed.

End Sha1Facts.

Module NumFacts.
Import Num.
Local Open Scope Q_scope.

Lemma Qltb_lt a b : Qltb a b = true <-> a < b.
Proof.
  unfold Qltb. rewrite negb_true_iff. split; intro H.
  - apply Qnot_le_lt. intro L. apply Qle_bool_iff in L. congruence.
  - destruct (Qle_bool b a) eqn:E; [|reflexivity].
    apply Qle_bool_iff in E. exfalso. apply (Qlt_not_le _ _ H E).
Qed.

Lemma Qltb_ge a b : Qltb a b = false <-> b <= a.
Proof.
  unfold Qltb. rewrite negb_false_iff. apply Qle_bool_iff.
Qed.

End NumFacts.

Module PySetFacts.
Import Py PyFacts PySet.

Lemma mem_In x s : mem x s = true <-> In x s.
Proof.
  unfold mem. rewrite existsb_exists. split.
  - intros (y & Hy & E). apply str_eqb_eq in E. now subst.
  - intro H. exists x. split; [assumption | apply str_eqb_refl].
Qed.

Lemma mem_not_In x s : mem x s = false <-> ~ In x s.
Proof.
  rewrite <- mem_In. destruct (mem x s); split; congruence.
Qed.

Lemma In_add y x s : In y (add x s) <-> y = x \/ In y s.
Proof.
  unfold add. destruct (mem x s) eqn:E.
  - apply mem_In in E. split; [tauto | intros [->|]; assumption].
  - rewrite in_app_iff. simpl. split; intros [H|H]; auto.
    destruct H as [H|[]]; auto.
Qed.

Lemma NoDup_add x s : NoDup s -> NoDup (add x s).
Proof.
  intro H. unfold add. destruct (mem x s) eqn:E; [assumption|].
  apply mem_not_In in E.
  apply NoDup_rev in H. rewrite <- (rev_involutive (s ++ [x])).
  apply NoDup_rev. rewrite rev_app_distr. simpl. constructor; [|assumption].
  now rewrite <- in_rev.
Qed.

Lemma of_list_from_spec l : forall s0,
  NoDup s0 ->
  NoDup (fold_left (fun s x => add x s) l s0)
  /\ forall y, In y (fold_left (fun s x => add x s) l s0) <-> In y s0 \/ In y l.
Proof.
  induction l as [|x l IH]; intros s0 H; simpl.
  - split; [assumption | tauto].
  - destruct (IH (add x s0) (NoDup_add x H)) as [N I]. split; [assumption|].
    intro y. rewrite I, In_add. simpl. intuition congruence.
Qed.

Lemma NoDup_of_list l : NoDup (of_list l).
Proof. apply (of_list_from_spec l (s0 := [])). constructor. Qed.

Lemma In_of_list y l : In y (of_list l) <-> In y l.
Proof.
  unfold of_list. destruct (of_list_from_spec l (s0 := [])) as [_ I]; [constructor|].
  rewrite I. simpl. tauto.
Qed.

End PySetFacts.

Module DictFacts.
Import Dict.
Section Facts.
Variables (K V : Type) (eqb : K -> K -> bool).
Local Abbreviation get := (@Dict.get K V eqb).
Local Abbreviation set := (@Dict.set K V eqb).
Local Abbreviation mem := (@Dict.mem K V eqb).
Local Abbreviation keys := (@Dict.keys K V).
Local Abbreviation values := (@Dict.values K V).
Hypothesis eqb_eq : forall a b, eqb a b = true <-> a = b.

Lemma eqb_refl a : eqb a a = true.
Proof. now apply eqb_eq. Qed.

Lemma eqb_neq a b : a <> b -> eqb a b = false.
Proof. intro H. destruct (eqb a b) eqn:E; [apply eqb_eq in E; contradiction | reflexivity]. Qed.

Lemma get_set_same d k v : get (set d k v) k = Some v.
Proof.
  induction d as [|[k' v'] r IH]; simpl.
  - now rewrite eqb_refl.
  - destruct (eqb k' k) eqn:E; simpl; rewrite E; [reflexivity | exact IH].
Qed.

Lemma get_set_other d k v k' : k' <> k -> get (set d k v) k' = get d k'.
Proof.
  intro N. induction d as [|[k0 v0] r IH]; simpl.
  - rewrite eqb_neq; auto.
  - destruct (eqb k0 k) eqn:E; simpl.
    + apply eqb_eq in E; subst k0. rewrite eqb_neq; auto.
    + destruct (eqb k0 k'); [reflexivity | exact IH].
Qed.

Lemma get_In d k v : get d k = Some v -> In (k, v) d.
Proof.
  induction d as [|[k' v'] r IH]; simpl; [discriminate|].
  destruct (eqb k' k) eqn:E.
  - apply eqb_eq in E. intros [= ->]. left. now subst.
  - intro H. right. auto.
Qed.

Lemma get_None_keys d k : get d k = None <-> ~ In k (keys d).
Proof.
  induction d as [|[k' v'] r IH]; simpl; [tauto|].
  destruct (eqb k' k) eqn:E.
  - apply eqb_eq in E. split; [discriminate | intro H; exfalso; apply H; now left].
  - rewrite IH. split; intro H.
    + intros [A|A]; [|contradiction]. subst. rewrite eqb_refl in E. discriminate.
    + intro A. apply H. now right.
Qed.

Lemma In_get d k v : NoDup (keys d) -> In (k, v) d -> get d k = Some v.
Proof.
  induction d as [|[k' v'] r IH]; simpl; [contradiction|].
  intros ND [H|H].
  - injection H as -> ->. now rewrite eqb_refl.
  - inversion ND as [|? ? Hn Hr]; subst.
    destruct (eqb k' k) eqn:E.
    + apply eqb_eq in E; subst. exfalso. apply Hn.
      change k with (fst (k, v)). now apply in_map.
    + auto.
Qed.

Lemma keys_set d k v :
  keys (set d k v) = if mem d k then keys d else keys d ++ [k].
Proof.
  unfold mem. induction d as [|[k' v'] r IH]; simpl; [reflexivity|].
  destruct (eqb k' k) eqn:E; simpl; [reflexivity|].
  rewrite IH. now destruct (get r k).
Qed.

Lemma length_set_mem d k v : mem d k = true -> length (set d k v) = length d.
Proof.
  intro H. rewrite <- (length_map fst (set d k v)), <- (length_map fst d).
  change (length (keys (set d k v)) = length (keys d)). now rewrite keys_set, H.
Qed.

Lemma NoDup_keys_set d k v : NoDup (keys d) -> NoDup (keys (set d k v)).
Proof.
  intro H. rewrite keys_set. unfold mem. destruct (get d k) eqn:E; [assumption|].
  apply get_None_keys in E.
  apply NoDup_rev in H. rewrite <- (rev_involutive (keys d ++ [k])).
  apply NoDup_rev. rewrite rev_app_distr. simpl. constructor; [|assumption].
  now rewrite <- in_rev.
Qed.

Lemma In_values_set d k v x :
  In x (values (set d k v)) -> x = v \/ In x (values d).
Proof.
  unfold values. induction d as [|[k' v'] r IH]; simpl.
  - intros [H|[]]; auto.
  - destruct (eqb k' k); simpl; intros [H|H]; auto.
    destruct (IH H); auto.
Qed.

Lemma set_absent d k v : get d k = None -> set d k v = d ++ [(k, v)].
Proof.
  induction d as [|[k' v'] r IH]; simpl; [reflexivity|].
  destruct (eqb k' k); [discriminate|]. intro H. now rewrite IH.
Qed.

Lemma get_In_values d k v : get d k = Some v -> In v (values d).
Proof.
  induction d as [|[k' v'] r IH]; simpl; [discriminate|].
  destruct (eqb k' k); [intros [= ->]; now left | right; auto].
Qed.

Lemma Forall_values_set (P : V -> Prop) d k v :
  Forall P (values d) -> P v -> Forall P (values (set d k v)).
Proof.
  intros H Hv. apply Forall_forall. intros x Hx.
  apply In_values_set in Hx. destruct Hx as [->|Hx]; [assumption|].
  rewrite Forall_forall in H. auto.
Qed.

Lemma In_set d k v k' v' : In (k', v') (set d k v) -> v' = v \/ In (k', v') d.
Proof.
  induction d as [|[k0 v0] r IH]; simpl.
  - intros [H|[]]. injection H as _ <-. now left.
  - destruct (eqb k0 k); simpl; intros [H|H]; auto.
    + injection H as _ <-. now left.
    + destruct (IH H); auto.
Qed.

(** With distinct keys, writing at a present key is a pointwise update. *)
Lemma set_present_map d k v :
  NoDup (keys d) -> mem d k = true ->
  set d k v = map (fun kv => if eqb (fst kv) k then (fst kv, v) else kv) d.
Proof.
  unfold Dict.mem. induction d as [|[k' v'] r IH]; simpl; [discriminate|].
  intros ND H. inversion ND as [|? ? Hn Hr]; subst.
  destruct (eqb k' k) eqn:E.
  - f_equal. apply eqb_eq in E. subst k'.
    clear -Hn eqb_eq. induction r as [|[k1 v1] r IH]; simpl; [reflexivity|].
    simpl in Hn. rewrite eqb_neq by (intro; subst; apply Hn; now left).
    f_equal. apply IH. intro; apply Hn; now right.
  - f_equal. now apply IH.
Qed.

Lemma keys_map_values (f : K * V -> V) d :
  keys (map (fun kv => (fst kv, f kv)) d) = keys d.
Proof.
  unfold Dict.keys. rewrite map_map. simpl. reflexivity.
Qed.

End Facts.
End DictFacts.

Module EdgeFacts.

Lemma ensure_id_fields e :
  Edge.source (Edge.ensure_id e) = Edge.source e
  /\ Edge.target (Edge.ensure_id e) = Edge.target e
  /\ Edge.relation (Edge.ensure_id e) = Edge.relation e
  /\ Edge.explanation (Edge.ensure_id e) = Edge.explanation e
  /\ Edge.evidence (Edge.ensure_id e) = Edge.evidence e
  /\ Edge.confidence (Edge.ensure_id e) = Edge.confidence e
  /\ Edge.flags (Edge.ensure_id e) = Edge.flags e.
Proof. unfold Edge.ensure_id. destruct (Edge.has_id e); repeat split. Qed.

End EdgeFacts.

(* ================================================================== *)
(** * The evidence checker *)
(* ================================================================== *)

Module CheckerProofs.
Import Py Num NumFacts Checker.
Local Open Scope Q_scope.

(** ** Clamping *)

Lemma clamp01_cases x :
  (x <= 0 /\ _clamp01 x = 0) \/ (0 < x /\ x < 1 /\ _clamp01 x = x) \/ (1 <= x /\ _clamp01 x = 1).
Proof.
  unfold _clamp01, py_min, py_max.
  destruct (Qltb x 1) eqn:A.
  - apply Qltb_lt in A. destruct (Qltb 0 x) eqn:B.
    + apply Qltb_lt in B. right; left. auto.
    + apply Qltb_ge in B. left. auto.
  - apply Qltb_ge in A. right; right. split; [assumption|].
    reflexivity.
Qed.

Lemma clamp01_range x : 0 <= _clamp01 x /\ _clamp01 x <= 1.
Proof.
  destruct (clamp01_cases x) as [[_ ->]|[(A & B & ->)|[_ ->]]]; split; lra.
Qed.

Lemma failed_confidence_floor c : c <= 0 -> _clamp01 (c * 0.45) == 0.
Proof.
  intro H. destruct (clamp01_cases (c * 0.45)) as [[A ->]|[(A & B & ->)|[A ->]]]; lra.
Qed.

Lemma score_of_ge n : (3 <= n)%nat -> 0.76 <= score_of n /\ score_of n <= 1.
Proof.
  intro H. unfold score_of.
  assert (L : (3 <= Z.of_nat n)%Z) by lia.
  assert (Q3 : 3 <= inject_Z (Z.of_nat n)).
  { change 3 with (inject_Z 3). now rewrite <- Zle_Qle. }
  set (x := 0.55 + 0.07 * inject_Z (Z.of_nat n)).
  assert (X : 0.76 <= x) by (unfold x; lra).
  destruct (clamp01_cases x) as [[A ->]|[(A & B & ->)|[A ->]]]; lra.
Qed.

(** ** The loop of [run_check] *)

Section WithInterpreter.
Variable lower : str -> str.
Variable set_iter : list str -> list str.

Local Abbreviation _norm := (Checker._norm lower).
Local Abbreviation evidence_check := (Checker.evidence_check lower set_iter).
Local Abbreviation check_edge := (Checker.check_edge lower set_iter).
Local Abbreviation run_check := (Checker.run_check lower set_iter).

Local Abbreviation prepared := Checker.prepared.
Local Abbreviation source_name := Checker.source_name.
Local Abbreviation target_name := Checker.target_name.
Local Abbreviation checked_edge := (Checker.checked_edge lower set_iter).

Lemma fold_loop_edges names strict l : forall st,
  edges (fold_left (loop_body lower set_iter names strict) l st)
  = edges st ++ map (fun e => fst (fst (check_edge names strict e))) l.
Proof.
  induction l as [|e l IH]; intro st; simpl.
  - now rewrite app_nil_r.
  - rewrite IH. unfold loop_body.
    destruct (check_edge names strict e) as [[e' ok] down]. simpl.
    now rewrite <- app_assoc.
Qed.

Lemma run_check_edges graph strict :
  GraphResult.edges (run_check graph strict)
  = map (checked_edge graph strict) (GraphResult.edges graph).
Proof.
  unfold Checker.run_check. simpl. now rewrite fold_loop_edges.
Qed.

Lemma run_check_nth graph strict i e :
  nth_error (GraphResult.edges graph) i = Some e ->
  nth_error (GraphResult.edges (run_check graph strict)) i
  = Some (checked_edge graph strict e).
Proof.
  intro H. rewrite run_check_edges. now apply map_nth_error.
Qed.

Lemma prepared_fields e :
  Edge.source (prepared e) = Edge.source e
  /\ Edge.target (prepared e) = Edge.target e
  /\ Edge.explanation (prepared e) = Edge.explanation e
  /\ Edge.evidence (prepared e) = Edge.evidence e
  /\ Edge.confidence (prepared e) = Edge.confidence e.
Proof.
  destruct (EdgeFacts.ensure_id_fields e) as (A & B & _ & C & D & E & _).
  unfold prepared, whitelist_relation.
  destruct (existsb _ whitelist); simpl; repeat split; assumption.
Qed.

(** [evidence_check] reads the evidence and the explanation only. *)
Lemma evidence_check_ext e1 e2 s t :
  Edge.evidence e1 = Edge.evidence e2 ->
  Edge.explanation e1 = Edge.explanation e2 ->
  evidence_check e1 s t = evidence_check e2 s t.
Proof. intros A B. unfold Checker.evidence_check. now rewrite A, B. Qed.

Lemma checked_edge_eq graph strict e :
  checked_edge graph strict e
  = apply_verdict strict (prepared e)
      (evidence_check e (source_name graph e) (target_name graph e)).
Proof.
  unfold checked_edge, Checker.check_edge, source_name, target_name, prepared.
  destruct (EdgeFacts.ensure_id_fields e) as (A & B & _ & C & D & _).
  rewrite A, B.
  destruct (whitelist_relation (Edge.ensure_id e)) as [e1 down] eqn:W. simpl.
  f_equal. apply evidence_check_ext.
  - transitivity (Edge.evidence (Edge.ensure_id e)); [|assumption].
    unfold whitelist_relation in W.
    destruct (existsb _ whitelist); injection W as <- _; reflexivity.
  - transitivity (Edge.explanation (Edge.ensure_id e)); [|assumption].
    unfold whitelist_relation in W.
    destruct (existsb _ whitelist); injection W as <- _; reflexivity.
Qed.

(** The failing branch of the loop body. *)
Lemma checked_edge_fail graph strict e score reason :
  evidence_check e (source_name graph e) (target_name graph e) = (false, score, reason) ->
  Edge.checked (checked_edge graph strict e) = false
  /\ Edge.confidence (checked_edge graph strict e) = _clamp01 (Edge.confidence e * 0.45)
  /\ Edge.check_reason (checked_edge graph strict e) = Some reason.
Proof.
  intro H. rewrite checked_edge_eq, H.
  destruct (prepared_fields e) as (_ & _ & _ & _ & C).
  unfold apply_verdict. destruct strict; simpl; rewrite C; repeat split.
Qed.

(** The passing branch of the loop body. *)
Lemma checked_edge_pass graph strict e score reason :
  evidence_check e (source_name graph e) (target_name graph e) = (true, score, reason) ->
  Edge.checked (checked_edge graph strict e) = true
  /\ Edge.confidence (checked_edge graph strict e)
     = _clamp01 ((Edge.confidence e + score) / 2)
  /\ Edge.check_reason (checked_edge graph strict e) = Some reason.
Proof.
  intro H. rewrite checked_edge_eq, H.
  destruct (prepared_fields e) as (_ & _ & _ & _ & C).
  unfold apply_verdict. simpl. rewrite C. repeat split.
Qed.

Lemma truthy_false (s : str) : truthy s = false <-> s = [].
Proof. destruct s; simpl; split; congruence. Qed.

Lemma truthy_true (s : str) : truthy s = true <-> s <> [].
Proof. destruct s; simpl; split; congruence. Qed.

(** ** The hard rule *)

(** The verdict when the hard rule fails: ok is false and the score 0. *)
Lemma evidence_check_hard e s t :
  Evidence.title (Edge.evidence e) = []
  \/ Evidence.snippet (Edge.evidence e) = []
  \/ strip (Edge.explanation e) = [] ->
  evidence_check e s t = (false, 0, missing_evidence_reason)
  \/ evidence_check e s t = (false, 0, missing_explanation_reason).
Proof.
  intro H. unfold Checker.evidence_check.
  destruct (truthy (Evidence.title (Edge.evidence e))) eqn:A; simpl; [|now left].
  destruct (truthy (Evidence.snippet (Edge.evidence e))) eqn:B; simpl; [|now left].
  destruct (truthy (strip (Edge.explanation e))) eqn:C; simpl; [|now right].
  apply truthy_true in A, B, C. destruct H as [H|[H|H]]; contradiction.
Qed.

(** C1 (as amended). An edge whose evidence title, evidence snippet or
    explanation is empty is failed at once: [evidence_check] answers not-ok
    with score 0 and a missing-evidence or missing-explanation reason, and
    [run_check] sets [checked] to false and the confidence to
    [_clamp01 (old * 0.45)]; the score 0 is not stored, and the new
    confidence is 0 whenever the old one is 0 or less. *)
Theorem C1_hard_rule_fails_edge (graph : GraphResult.t) (strict : bool) (i : nat) (e : Edge.t) :
  nth_error (GraphResult.edges graph) i = Some e ->
  Evidence.title (Edge.evidence e) = []
  \/ Evidence.snippet (Edge.evidence e) = []
  \/ Edge.explanation e = [] ->
  exists e',
    nth_error (GraphResult.edges (run_check graph strict)) i = Some e'
    /\ Edge.checked e' = false
    /\ Edge.confidence e' = _clamp01 (Edge.confidence e * 0.45)
    /\ (Edge.confidence e <= 0 -> Edge.confidence e' == 0)
    /\ (Edge.check_reason e' = Some missing_evidence_reason
        \/ Edge.check_reason e' = Some missing_explanation_reason)
    /\ forall s t, fst (evidence_check e s t) = (false, 0).
Proof.
  intros Hn H. exists (checked_edge graph strict e).
  assert (H' : Evidence.title (Edge.evidence e) = []
               \/ Evidence.snippet (Edge.evidence e) = []
               \/ strip (Edge.explanation e) = []).
  { destruct H as [H|[H|H]]; auto. right; right. now rewrite H. }
  split; [now apply run_check_nth|].
  destruct (evidence_check_hard e (source_name graph e) (target_name graph e) H') as [E|E];
    destruct (checked_edge_fail graph strict e E) as (A & B & C);
    (split; [exact A|]); (split; [exact B|]);
    (split; [rewrite B; apply failed_confidence_floor|]);
    (split; [auto|]);
    intros s t; destruct (evidence_check_hard e s t H') as [F|F]; now rewrite F.
Qed.

(** ** The mention rule *)

Lemma evidence_check_soft e s t :
  Evidence.title (Edge.evidence e) <> [] ->
  Evidence.snippet (Edge.evidence e) <> [] ->
  strip (Edge.explanation e) <> [] ->
  evidence_check e s t =
    let sn := _norm (Evidence.snippet (Edge.evidence e)) in
    if negb (truthy sn) then (false, 0, empty_snippet_reason)
    else if negb (_mentions sn (_norm s) || _mentions sn (_norm t)) then
      (false, 0.15, no_mention_reason)
    else (true, score_of (overlap set_iter sn (_norm (Edge.explanation e))), pass_reason).
Proof.
  intros A B C. apply truthy_true in A, B, C.
  unfold Checker.evidence_check. now rewrite A, B, C.
Qed.

(** C2 (as amended). An edge that passes the hard rule and whose
    normalized snippet mentions neither endpoint name is failed: [checked]
    is false and the confidence is [_clamp01 (old * 0.45)]. When the
    normalized snippet is not empty the verdict of [evidence_check] carries
    the score 0.15 and the no-mention reason; the score is not a floor of
    the confidence. *)
Theorem C2_no_mention_fails_edge (graph : GraphResult.t) (strict : bool) (i : nat) (e : Edge.t) :
  nth_error (GraphResult.edges graph) i = Some e ->
  Evidence.title (Edge.evidence e) <> [] ->
  Evidence.snippet (Edge.evidence e) <> [] ->
  strip (Edge.explanation e) <> [] ->
  _mentions (_norm (Evidence.snippet (Edge.evidence e))) (_norm (source_name graph e)) = false ->
  _mentions (_norm (Evidence.snippet (Edge.evidence e))) (_norm (target_name graph e)) = false ->
  exists e',
    nth_error (GraphResult.edges (run_check graph strict)) i = Some e'
    /\ Edge.checked e' = false
    /\ Edge.confidence e' = _clamp01 (Edge.confidence e * 0.45)
    /\ (_norm (Evidence.snippet (Edge.evidence e)) <> [] ->
        evidence_check e (source_name graph e) (target_name graph e)
        = (false, 0.15, no_mention_reason)
        /\ Edge.check_reason e' = Some no_mention_reason).
Proof.
  intros Hn A B C Ms Mt. exists (checked_edge graph strict e).
  split; [now apply run_check_nth|].
  pose proof (evidence_check_soft e (source_name graph e) (target_name graph e) A B C) as E.
  cbv zeta in E. rewrite Ms, Mt in E. simpl in E.
  destruct (truthy (_norm (Evidence.snippet (Edge.evidence e)))) eqn:T; simpl in E.
  - destruct (checked_edge_fail graph strict e E) as (X & Y & Z).
    split; [exact X|]. split; [exact Y|]. intros _. split; [exact E | exact Z].
  - destruct (checked_edge_fail graph strict e E) as (X & Y & Z).
    split; [exact X|]. split; [exact Y|].
    intro N. apply truthy_false in T. contradiction.
Qed.

(** ** The empty normalized snippet *)

Lemma In_sub_parens_from c s : forall k, In c (sub_parens_from k s) -> In c s.
Proof.
  induction s as [|a r IH]; intros k H; simpl in *; [assumption|].
  destruct k as [|k].
  - destruct (N.eqb a 40).
    + destruct (close_dist r); [right; eauto|].
      destruct H as [H|H]; [now left | right; eauto].
    + destruct H as [H|H]; [now left | right; eauto].
  - right. eauto.
Qed.

Lemma squeeze_open_run p s :
  (forall c, In c s -> p c = true) -> squeeze_from p true s = [].
Proof.
  induction s as [|a r IH]; intro H; simpl; [reflexivity|].
  rewrite (H a (or_introl eq_refl)). apply IH. intros; apply H; now right.
Qed.

Lemma squeeze_all p s :
  (forall c, In c s -> p c = true) -> squeeze p s = [] \/ squeeze p s = [32%N].
Proof.
  unfold squeeze. destruct s as [|a r]; intro H; simpl; [now left|].
  rewrite (H a (or_introl eq_refl)). right.
  rewrite squeeze_open_run; [reflexivity|]. intros; apply H; now right.
Qed.

(** A snippet whose lowercase form has no character of the class
    [[a-z0-9一-鿿]] normalizes to the empty string. *)
Lemma norm_without_word_chars s :
  (forall c, In c (lower s) -> is_word c = false) -> _norm s = [].
Proof.
  intro H. unfold Checker._norm, sub_nonword.
  destruct (squeeze_all (fun c => negb (is_word c)) (sub_parens (lower s))) as [E|E].
  - intros c Hc. apply In_sub_parens_from in Hc. now rewrite (H c Hc).
  - rewrite E. reflexivity.
  - rewrite E. reflexivity.
Qed.

(** C10 (as amended). An edge whose title and snippet are not empty and
    whose explanation is not blank, but whose snippet normalizes to the
    empty string, is failed with the reason "Empty evidence snippet.":
    [checked] is false and the confidence is [_clamp01 (old * 0.45)]. *)
Theorem C10_empty_normalized_snippet (graph : GraphResult.t) (strict : bool) (i : nat) (e : Edge.t) :
  nth_error (GraphResult.edges graph) i = Some e ->
  Evidence.title (Edge.evidence e) <> [] ->
  Evidence.snippet (Edge.evidence e) <> [] ->
  strip (Edge.explanation e) <> [] ->
  _norm (Evidence.snippet (Edge.evidence e)) = [] ->
  exists e',
    nth_error (GraphResult.edges (run_check graph strict)) i = Some e'
    /\ Edge.check_reason e' = Some empty_snippet_reason
    /\ Edge.checked e' = false
    /\ Edge.confidence e' = _clamp01 (Edge.confidence e * 0.45).
Proof.
  intros Hn A B C N. exists (checked_edge graph strict e).
  split; [now apply run_check_nth|].
  pose proof (evidence_check_soft e (source_name graph e) (target_name graph e) A B C) as E.
  cbv zeta in E. rewrite N in E. simpl in E.
  destruct (checked_edge_fail graph strict e E) as (X & Y & Z). auto.
Qed.

(** ** The passing path *)

Lemma starts_with_nil_r p : starts_with p [] = true -> p = [].
Proof. destruct p; simpl; [reflexivity | discriminate]. Qed.

Lemma contains_nil p : contains [] p = true -> p = [].
Proof.
  simpl. rewrite orb_false_r. apply starts_with_nil_r.
Qed.

Lemma In_long_parts n s p : In p (long_parts n s) -> (n <= length p)%nat.
Proof.
  unfold long_parts. rewrite filter_In. intros [_ H]. now apply Nat.leb_le.
Qed.

Lemma mentions_nonempty sn name : _mentions sn name = true -> sn <> [].
Proof.
  unfold _mentions. destruct (truthy name) eqn:T; simpl; [|discriminate].
  remember (long_parts 4 name) as parts eqn:L.
  assert (HP : forall q, In q parts -> (4 <= length q)%nat).
  { subst parts. intros q Hq. now apply In_long_parts in Hq. }
  clear L. destruct parts as [|p ps].
  - intros H ->. apply contains_nil in H. subst. discriminate.
  - intro H. change (existsb (contains sn) (firstn 4 (p :: ps)) = true) in H.
    apply existsb_exists in H. destruct H as (q & Hq & Hc).
    intros ->. apply contains_nil in Hc. subst q.
    apply PyFacts.In_firstn in Hq. apply HP in Hq. simpl in Hq. lia.
Qed.

Lemma filter_length_perm (A : Type) (f : A -> bool) l1 l2 :
  Permutation l1 l2 -> length (filter f l1) = length (filter f l2).
Proof.
  induction 1; simpl; try congruence.
  - destruct (f x); simpl; congruence.
  - destruct (f x), (f y); reflexivity.
Qed.

Hypothesis set_iter_perm : forall l, Permutation (set_iter l) l.

(** When the snippet has at most 12 distinct long tokens all of them are
    considered, in whatever order the set is iterated. *)
Lemma overlap_all sn exp :
  (length (PySet.of_list (long_parts 6 sn)) <= 12)%nat ->
  overlap set_iter sn exp = length (filter (contains exp) (PySet.of_list (long_parts 6 sn))).
Proof.
  intro H. unfold overlap.
  pose proof (set_iter_perm (PySet.of_list (long_parts 6 sn))) as P.
  rewrite firstn_all2 by (rewrite (Permutation_length P); exact H).
  now apply filter_length_perm.
Qed.

(** C9 (as amended). An edge that passes the hard rule, whose normalized
    snippet mentions the normalized target name, has at most 12 distinct
    tokens of length 6 or more, and at least 3 of them occur in the
    normalized explanation, is passed: [checked] is true and the confidence
    is the clamped mean of the old confidence and a score between 0.76 and
    1. The new confidence is at most 1; it is at least the old one when the
    old one is at most 0.76, and at least 0.76 otherwise. *)
Theorem C9_supported_edge_passes (graph : GraphResult.t) (strict : bool) (i : nat) (e : Edge.t) :
  nth_error (GraphResult.edges graph) i = Some e ->
  Evidence.title (Edge.evidence e) <> [] ->
  Evidence.snippet (Edge.evidence e) <> [] ->
  strip (Edge.explanation e) <> [] ->
  let sn := _norm (Evidence.snippet (Edge.evidence e)) in
  let exp := _norm (Edge.explanation e) in
  _mentions sn (_norm (target_name graph e)) = true ->
  (length (PySet.of_list (long_parts 6 sn)) <= 12)%nat ->
  (3 <= length (filter (contains exp) (PySet.of_list (long_parts 6 sn))))%nat ->
  exists e' score,
    nth_error (GraphResult.edges (run_check graph strict)) i = Some e'
    /\ Edge.checked e' = true
    /\ 0.76 <= score /\ score <= 1
    /\ Edge.confidence e' = _clamp01 ((Edge.confidence e + score) / 2)
    /\ Edge.confidence e' <= 1
    /\ (Edge.confidence e <= 0.76 -> Edge.confidence e <= Edge.confidence e')
    /\ (0.76 <= Edge.confidence e -> 0.76 <= Edge.confidence e').
Proof.
  intros Hn A B C sn exp M L S.
  exists (checked_edge graph strict e), (score_of (overlap set_iter sn exp)).
  split; [now apply run_check_nth|].
  pose proof (evidence_check_soft e (source_name graph e) (target_name graph e) A B C) as E.
  cbv zeta in E. fold sn exp in E.
  assert (T : truthy sn = true) by (apply truthy_true; eapply mentions_nonempty; exact M).
  rewrite T, M, orb_true_r in E. simpl in E.
  destruct (checked_edge_pass graph strict e E) as (X & Y & Z).
  assert (O : (3 <= overlap set_iter sn exp)%nat) by (rewrite overlap_all; assumption).
  destruct (score_of_ge O) as [S1 S2].
  set (sc := score_of (overlap set_iter sn exp)) in *.
  repeat split; auto; rewrite Y.
  - apply clamp01_range.
  - intro H. destruct (clamp01_cases ((Edge.confidence e + sc) / 2))
      as [[P ->]|[(P & P' & ->)|[P ->]]];
      unfold Qdiv in *; change (/ 2) with (1 # 2) in *; lra.
  - intro H. destruct (clamp01_cases ((Edge.confidence e + sc) / 2))
      as [[P ->]|[(P & P' & ->)|[P ->]]];
      unfold Qdiv in *; change (/ 2) with (1 # 2) in *; lra.
Qed.

End WithInterpreter.
(** ** Runs on the sample graphs *)

Lemma C1_witness :
  Evidence.title (Edge.evidence untitled_edge) = []
  /\ exists e',
       nth_error (run_sample untitled_edge) 0 = Some e'
       /\ Edge.checked e' = false
       /\ Edge.confidence e' = _clamp01 (Edge.confidence untitled_edge * 0.45).
Proof.
  split; [reflexivity|].
  destruct (@C1_hard_rule_fails_edge ascii_lower (fun l => l)
              (sample_graph untitled_edge) true 0 untitled_edge)
    as (e' & A & B & C & _).
  - reflexivity.
  - left. reflexivity.
  - exists e'. auto.
Defined.

(** C1 as stated fails: the title is empty, the edge starts at 0.7 and
    ends at 0.315, not at 0. *)
Lemma C1_counterexample :
  Evidence.title (Edge.evidence untitled_edge) = []
  /\ Edge.confidence untitled_edge == 0.7
  /\ exists e',
       nth_error (run_sample untitled_edge) 0 = Some e'
       /\ Edge.checked e' = false
       /\ Edge.confidence e' == 0.315
       /\ ~ Edge.confidence e' == 0.
Proof.
  split; [reflexivity|]. split; [reflexivity|].
  eexists. split; [vm_compute; reflexivity|].
  split; [reflexivity|]. split; [reflexivity|].
  intro H. vm_compute in H. discriminate H.
Qed.

Lemma C2_witness :
  exists e',
    nth_error (run_sample unrelated_edge) 0 = Some e'
    /\ Edge.checked e' = false
    /\ Edge.confidence e' = _clamp01 (Edge.confidence unrelated_edge * 0.45)
    /\ Edge.check_reason e' = Some no_mention_reason.
Proof.
  destruct (@C2_no_mention_fails_edge ascii_lower (fun l => l)
              (sample_graph unrelated_edge) true 0 unrelated_edge)
    as (e' & A & B & C & D); try reflexivity; try (vm_compute; discriminate).
  exists e'. repeat split; auto.
  apply D. vm_compute. discriminate.
Defined.

(** C2 as stated fails: the edge passes the hard rule, its snippet names
    neither endpoint, it starts at 0.1 and ends at 0.045, below 0.15. *)
Lemma C2_counterexample :
  let e := unrelated_edge in
  let g := sample_graph e in
  let sn := Checker._norm ascii_lower (Evidence.snippet (Edge.evidence e)) in
  Evidence.title (Edge.evidence e) <> []
  /\ Evidence.snippet (Edge.evidence e) <> []
  /\ strip (Edge.explanation e) <> []
  /\ _mentions sn (Checker._norm ascii_lower (Checker.source_name g e)) = false
  /\ _mentions sn (Checker._norm ascii_lower (Checker.target_name g e)) = false
  /\ Edge.confidence e == 0.1
  /\ exists e',
       nth_error (run_sample e) 0 = Some e'
       /\ Edge.checked e' = false
       /\ Edge.confidence e' == 0.045
       /\ Edge.confidence e' < 0.15.
Proof.
  cbv zeta. repeat split; try reflexivity; try (vm_compute; discriminate).
  eexists. split; [vm_compute; reflexivity|].
  repeat split; reflexivity.
Qed.

Lemma C10_witness :
  Checker._norm ascii_lower (Evidence.snippet (Edge.evidence punctuation_edge)) = []
  /\ exists e',
       nth_error (run_sample punctuation_edge) 0 = Some e'
       /\ Edge.check_reason e' = Some empty_snippet_reason
       /\ Edge.checked e' = false
       /\ Edge.confidence e' = _clamp01 (Edge.confidence punctuation_edge * 0.45).
Proof.
  split; [reflexivity|].
  apply (@C10_empty_normalized_snippet ascii_lower (fun l => l)
           (sample_graph punctuation_edge) true 0 punctuation_edge);
    try reflexivity; vm_compute; discriminate.
Defined.

(** C10 as stated fails: title, snippet and explanation are not empty,
    the snippet has no character of the word class, and the reason is
    "Missing explanation.", because the explanation is one space. *)
Lemma C10_counterexample :
  let e := blank_explanation_edge in
  Evidence.title (Edge.evidence e) <> []
  /\ Evidence.snippet (Edge.evidence e) <> []
  /\ Edge.explanation e <> []
  /\ (forall c, In c (Evidence.snippet (Edge.evidence e)) -> is_word c = false)
  /\ Checker._norm ascii_lower (Evidence.snippet (Edge.evidence e)) = []
  /\ exists e',
       nth_error (run_sample e) 0 = Some e'
       /\ Edge.check_reason e' = Some missing_explanation_reason
       /\ Edge.check_reason e' <> Some empty_snippet_reason.
Proof.
  cbv zeta. repeat split; try reflexivity; try (vm_compute; discriminate).
  - intros c H. vm_compute in H.
    repeat (destruct H as [<-|H]; [reflexivity|]). contradiction.
  - eexists. split; [vm_compute; reflexivity|].
    split; [reflexivity | vm_compute; discriminate].
Qed.

Lemma C9_witness :
  exists e',
    nth_error (run_sample (supported_edge "Notes" 0.5)) 0 = Some e'
    /\ Edge.checked e' = true
    /\ 0.5 <= Edge.confidence e' /\ Edge.confidence e' <= 1.
Proof.
  destruct (@C9_supported_edge_passes ascii_lower (fun l => l)
              (fun l => Permutation_refl l)
              (sample_graph (supported_edge "Notes" 0.5)) true 0
              (supported_edge "Notes" 0.5))
    as (e' & sc & A & B & _ & _ & _ & C & D & _);
    try reflexivity; try (vm_compute; discriminate); try (vm_compute; lia).
  exists e'. repeat split; auto. apply D. vm_compute. discriminate.
Defined.

(** C9 as stated fails in two ways. With an empty title the snippet
    still names the target and shares three long tokens with the
    explanation, and the edge is not checked. With a title and an old
    confidence of 0.9 the edge is checked and ends at 0.83, below the
    value it started from. *)
Lemma C9_counterexample :
  let shared e :=
    let sn := Checker._norm ascii_lower (Evidence.snippet (Edge.evidence e)) in
    length (filter (contains (Checker._norm ascii_lower (Edge.explanation e)))
                   (PySet.of_list (long_parts 6 sn))) in
  let names_target e :=
    _mentions (Checker._norm ascii_lower (Evidence.snippet (Edge.evidence e)))
              (Checker._norm ascii_lower (Checker.target_name (sample_graph e) e)) in
  (names_target (supported_edge "" 0.9) = true
   /\ shared (supported_edge "" 0.9) = 3%nat
   /\ exists e',
        nth_error (run_sample (supported_edge "" 0.9)) 0 = Some e'
        /\ Edge.checked e' = false)
  /\ (names_target (supported_edge "Notes" 0.9) = true
      /\ shared (supported_edge "Notes" 0.9) = 3%nat
      /\ exists e',
           nth_error (run_sample (supported_edge "Notes" 0.9)) 0 = Some e'
           /\ Edge.checked e' = true
           /\ Edge.confidence e' == 0.83
           /\ Edge.confidence e' < Edge.confidence (supported_edge "Notes" 0.9)).
Proof.
  cbv zeta. repeat split; try reflexivity.
  - eexists. split; [vm_compute; reflexivity | reflexivity].
  - eexists. split; [vm_compute; reflexivity|]. repeat split; reflexivity.
Qed.

End CheckerProofs.

(* ================================================================== *)
(** * The graph normalizer *)
(* ================================================================== *)

Module MergeProofs.
Import Py PyFacts Num NumFacts Merge.
Local Open Scope Q_scope.

Lemma pair_eqb_eq a b : pair_eqb a b = true <-> a = b.
Proof.
  destruct a as [a1 a2], b as [b1 b2]. unfold pair_eqb. simpl.
  rewrite andb_true_iff, !str_eqb_eq. split; [intros [-> ->]; reflexivity|].
  intros [= -> ->]. auto.
Qed.

Lemma key_eqb_eq a b : key_eqb a b = true <-> a = b.
Proof.
  destruct a as [a1 a2], b as [b1 b2]. unfold key_eqb. simpl.
  rewrite andb_true_iff, pair_eqb_eq, str_eqb_eq. split; [intros [-> ->]; reflexivity|].
  intros [= -> ->]. auto.
Qed.

Section WithInterpreter.
Variable lower : str -> str.
Variable set_iter : list str -> list str.

Local Abbreviation node_step := (Merge.node_step lower).
Local Abbreviation node_loop := (Merge.node_loop lower).
Local Abbreviation absorb := (Merge.absorb set_iter).
Local Abbreviation edge_step := (Merge.edge_step set_iter).
Local Abbreviation edge_loop := (Merge.edge_loop set_iter).
Local Abbreviation conflict_loop := (Merge.conflict_loop set_iter).
Local Abbreviation merge_synonyms := (Merge.merge_synonyms lower set_iter).
Local Abbreviation visited := (Merge.visited set_iter).

(** ** The id map points at kept nodes *)

Lemma node_step_inv seen st n :
  node_inv seen st -> node_inv (seen ++ [n]) (node_step st n).
Proof.
  intros [I1 I2]. unfold Merge.node_step.
  destruct (Dict.get str_eqb (kept st) (_k lower (Node.name n) (Node.domain n)))
    as [first|] eqn:G; split; simpl.
  - intros i j H. destruct (str_eq_dec i (Node.id n)) as [->|N].
    + rewrite (DictFacts.get_set_same _ str_eqb_eq) in H. injection H as <-.
      exists first. split; [|reflexivity].
      eapply DictFacts.get_In_values; exact G.
    + rewrite (DictFacts.get_set_other _ str_eqb_eq) in H by assumption. eauto.
  - intros m Hm. unfold Dict.mem.
    destruct (str_eq_dec (Node.id m) (Node.id n)) as [E|N].
    + rewrite E, (DictFacts.get_set_same _ str_eqb_eq). reflexivity.
    + rewrite (DictFacts.get_set_other _ str_eqb_eq) by assumption.
      apply in_app_or in Hm. destruct Hm as [Hm|[->|[]]]; [|contradiction].
      apply I2. assumption.
  - intros i j H. rewrite DictFacts.set_absent by exact G.
    unfold Dict.values. rewrite map_app.
    destruct (str_eq_dec i (Node.id n)) as [->|N].
    + rewrite (DictFacts.get_set_same _ str_eqb_eq) in H. injection H as <-.
      exists n. split; [|reflexivity]. rewrite in_app_iff. right. now left.
    + rewrite (DictFacts.get_set_other _ str_eqb_eq) in H by assumption.
      destruct (I1 i j H) as (m & Hm & E). exists m. split; [|assumption].
      rewrite in_app_iff. now left.
  - intros m Hm. unfold Dict.mem.
    destruct (str_eq_dec (Node.id m) (Node.id n)) as [E|N].
    + rewrite E, (DictFacts.get_set_same _ str_eqb_eq). reflexivity.
    + rewrite (DictFacts.get_set_other _ str_eqb_eq) by assumption.
      apply in_app_or in Hm. destruct Hm as [Hm|[->|[]]]; [|contradiction].
      apply I2. assumption.
Qed.

Lemma node_loop_inv_from nodes : forall seen st,
  node_inv seen st -> node_inv (seen ++ nodes) (fold_left node_step nodes st).
Proof.
  induction nodes as [|n nodes IH]; intros seen st H; simpl.
  - now rewrite app_nil_r.
  - replace (seen ++ n :: nodes) with ((seen ++ [n]) ++ nodes)
      by (rewrite <- app_assoc; reflexivity).
    apply IH. now apply node_step_inv.
Qed.

Lemma node_loop_inv nodes : node_inv nodes (node_loop nodes).
Proof.
  apply (node_loop_inv_from nodes (seen := [])). split; simpl.
  - discriminate.
  - contradiction.
Qed.

(** An endpoint that is the id of an input node is rewritten to the id
    of an output node. *)
Lemma remapped_endpoint nodes i :
  In i (map Node.id nodes) ->
  In (Dict.get_or str_eqb (id_map (node_loop nodes)) i i)
     (map Node.id (Dict.values (kept (node_loop nodes)))).
Proof.
  intro H. destruct (node_loop_inv nodes) as [I1 I2].
  apply in_map_iff in H. destruct H as (n & <- & Hn).
  specialize (I2 n Hn). unfold Dict.mem in I2. unfold Dict.get_or.
  destruct (Dict.get str_eqb (id_map (node_loop nodes)) (Node.id n)) as [j|] eqn:G;
    [|discriminate].
  destruct (I1 _ _ G) as (m & Hm & <-). now apply in_map.
Qed.

(** ** What the two edge loops preserve *)

Lemma remap_endpoints idm e :
  Edge.source (remap idm e) = Dict.get_or str_eqb idm (Edge.source e) (Edge.source e)
  /\ Edge.target (remap idm e) = Dict.get_or str_eqb idm (Edge.target e) (Edge.target e)
  /\ Edge.relation (remap idm e) = Edge.relation e
  /\ Edge.confidence (remap idm e) = Edge.confidence e
  /\ Edge.evidence (remap idm e) = Edge.evidence e
  /\ Edge.flags (remap idm e) = Edge.flags e.
Proof.
  unfold remap.
  destruct (EdgeFacts.ensure_id_fields
              (Edge.set_target (Dict.get_or str_eqb idm (Edge.target e) (Edge.target e))
                 (Edge.set_source (Dict.get_or str_eqb idm (Edge.source e) (Edge.source e)) e)))
    as (A & B & C & _ & D & E & F).
  rewrite A, B, C, D, E, F. repeat split.
Qed.

Lemma absorb_fields win lose :
  Edge.id (absorb win lose) = Edge.id win
  /\ Edge.source (absorb win lose) = Edge.source win
  /\ Edge.target (absorb win lose) = Edge.target win
  /\ Edge.relation (absorb win lose) = Edge.relation win
  /\ Edge.explanation (absorb win lose) = Edge.explanation win
  /\ Edge.confidence (absorb win lose) = Edge.confidence win
  /\ Edge.checked (absorb win lose) = Edge.checked win
  /\ Edge.check_reason (absorb win lose) = Edge.check_reason win.
Proof.
  unfold Merge.absorb.
  destruct (truthy (Evidence.snippet (Edge.evidence lose)) && _); repeat split.
Qed.

Lemma mark_conflict_fields e :
  Edge.id (mark_conflict e) = Edge.id e
  /\ Edge.source (mark_conflict e) = Edge.source e
  /\ Edge.target (mark_conflict e) = Edge.target e
  /\ Edge.relation (mark_conflict e) = Edge.relation e
  /\ Edge.explanation (mark_conflict e) = Edge.explanation e
  /\ Edge.evidence (mark_conflict e) = Edge.evidence e
  /\ Edge.checked (mark_conflict e) = Edge.checked e
  /\ Edge.check_reason (mark_conflict e) = Edge.check_reason e.
Proof.
  unfold mark_conflict. destruct (has_conflict_flag e); repeat split.
Qed.

Section Preserved.
(** A property of edges that survives both in-place updates. *)
Variable P : Edge.t -> Prop.
Hypothesis P_absorb : forall win lose, P win -> P (absorb win lose).
Hypothesis P_mark : forall e, P e -> P (mark_conflict e).

Lemma edge_step_preserves idm st e :
  Forall P (Dict.values (out_edges st)) -> P (remap idm e) ->
  Forall P (Dict.values (out_edges (edge_step idm st e))).
Proof.
  intros H He. unfold Merge.edge_step.
  destruct (Dict.get key_eqb (out_edges st) (key_of (remap idm e))) as [cur|] eqn:G.
  - assert (Hc : P cur).
    { rewrite Forall_forall in H. apply H. eapply DictFacts.get_In_values. exact G. }
    destruct (Qle_bool (Edge.confidence (remap idm e)) (Edge.confidence cur));
      simpl; apply DictFacts.Forall_values_set; auto.
  - simpl. apply DictFacts.Forall_values_set; auto.
Qed.

Lemma edge_loop_preserves_from idm edges : forall st,
  Forall P (Dict.values (out_edges st)) ->
  (forall e, In e edges -> P (remap idm e)) ->
  Forall P (Dict.values (out_edges (fold_left (edge_step idm) edges st))).
Proof.
  induction edges as [|e edges IH]; intros st H He; simpl; [assumption|].
  apply IH.
  - apply edge_step_preserves; [assumption|]. apply He. now left.
  - intros x Hx. apply He. now right.
Qed.

Lemma edge_loop_preserves idm edges :
  (forall e, In e edges -> P (remap idm e)) ->
  Forall P (Dict.values (out_edges (edge_loop idm edges))).
Proof.
  intro H. apply edge_loop_preserves_from; [constructor | assumption].
Qed.

Lemma conflict_step_preserves p st rel :
  Forall P (Dict.values (marked_edges st)) ->
  Forall P (Dict.values (marked_edges (conflict_step p st rel))).
Proof.
  intro H. unfold conflict_step.
  destruct (Dict.get key_eqb (marked_edges st) (p, rel)) as [e|] eqn:G; [|assumption].
  simpl. apply DictFacts.Forall_values_set; [assumption|].
  apply P_mark. rewrite Forall_forall in H. apply H.
  eapply DictFacts.get_In_values. exact G.
Qed.

Lemma conflict_loop_preserves out :
  Forall P (Dict.values out) ->
  Forall P (Dict.values (marked_edges (conflict_loop out))).
Proof.
  unfold Merge.conflict_loop.
  assert (G : forall items st, Forall P (Dict.values (marked_edges st)) ->
            Forall P (Dict.values (marked_edges (fold_left (pair_step set_iter) items st)))).
  { induction items as [|[p rels] items IH]; intros st H; simpl; [assumption|].
    apply IH. destruct (Nat.leb (length rels) 1); [assumption|].
    clear IH. revert st H. induction (set_iter rels) as [|r rs IHr]; intros st H; simpl.
    - assumption.
    - apply IHr. now apply conflict_step_preserves. }
  intro H. now apply G.
Qed.

End Preserved.

(** ** Deduplication, group by group *)

Lemma starts_with_nil s : starts_with [] s = true.
Proof. destruct s; reflexivity. Qed.

Lemma contains_empty s : contains s [] = true.
Proof. destruct s; simpl; reflexivity. Qed.

Lemma set_snippet_same ev : Evidence.set_snippet (Evidence.snippet ev) ev = ev.
Proof. destruct ev; reflexivity. Qed.

Lemma set_evidence_same e : Edge.set_evidence (Edge.evidence e) e = e.
Proof. destruct e; reflexivity. Qed.

(** The two branches of the code are the rule of the specification. *)
Lemma absorb_is_spec_survivor win lose : absorb win lose = spec_survivor set_iter win lose.
Proof.
  unfold Merge.absorb, spec_survivor, str_or.
  destruct (Evidence.snippet (Edge.evidence lose)) as [|c ls] eqn:L.
  - simpl. rewrite contains_empty, set_snippet_same, set_evidence_same.
    now destruct (truthy (Evidence.snippet (Edge.evidence win))).
  - assert (T : forall w : str, (if truthy w then w else []) = w) by (intros [|]; reflexivity).
    rewrite T. simpl truthy. simpl andb.
    destruct (contains (Evidence.snippet (Edge.evidence win)) (c :: ls)); simpl.
    + now rewrite set_snippet_same, set_evidence_same.
    + reflexivity.
Qed.

Lemma edge_step_is_spec idm st e cur :
  Dict.get key_eqb (out_edges st) (key_of (remap idm e)) = Some cur ->
  out_edges (edge_step idm st e)
  = Dict.set key_eqb (out_edges st) (key_of (remap idm e))
      (spec_dedup_rule set_iter cur (remap idm e)).
Proof.
  intro G. unfold Merge.edge_step, spec_dedup_rule, Qltb. rewrite G.
  destruct (Qle_bool (Edge.confidence (remap idm e)) (Edge.confidence cur));
    simpl; now rewrite absorb_is_spec_survivor.
Qed.

Lemma edge_loop_snoc idm l e :
  edge_loop idm (l ++ [e]) = edge_step idm (edge_loop idm l) e.
Proof. unfold Merge.edge_loop. now rewrite fold_left_app. Qed.

Lemma group_of_snoc idm l e k :
  group_of idm (l ++ [e]) k
  = group_of idm l k ++ (if key_eqb (key_of (remap idm e)) k then [remap idm e] else []).
Proof.
  unfold group_of. rewrite map_app, filter_app. simpl.
  now destruct (key_eqb (key_of (remap idm e)) k).
Qed.

Lemma spec_group_survivor_snoc g e :
  spec_group_survivor set_iter (g ++ [e])
  = Some match spec_group_survivor set_iter g with
         | None => e
         | Some cur => spec_dedup_rule set_iter cur e
         end.
Proof.
  destruct g as [|first rest]; simpl; [reflexivity|].
  now rewrite fold_left_app.
Qed.

(** The entry of [out_edges] at a key is the survivor of the group of
    that key. *)
Lemma edge_loop_by_group idm edges k :
  Dict.get key_eqb (out_edges (edge_loop idm edges)) k
  = spec_group_survivor set_iter (group_of idm edges k).
Proof.
  induction edges as [|e l IH] using rev_ind; [reflexivity|].
  rewrite edge_loop_snoc, group_of_snoc.
  destruct (key_eqb (key_of (remap idm e)) k) eqn:E.
  - apply key_eqb_eq in E. subst k. rewrite spec_group_survivor_snoc, <- IH.
    destruct (Dict.get key_eqb (out_edges (edge_loop idm l)) (key_of (remap idm e)))
      as [cur|] eqn:G.
    + rewrite (edge_step_is_spec _ _ _ G).
      apply (DictFacts.get_set_same _ key_eqb_eq).
    + unfold Merge.edge_step. rewrite G. simpl.
      apply (DictFacts.get_set_same _ key_eqb_eq).
  - rewrite app_nil_r, <- IH.
    assert (N : k <> key_of (remap idm e)).
    { intro H. subst k. rewrite (DictFacts.eqb_refl _ key_eqb_eq) in E. discriminate. }
    unfold Merge.edge_step.
    destruct (Dict.get key_eqb (out_edges (edge_loop idm l)) (key_of (remap idm e)))
      as [cur|];
      [destruct (Qle_bool (Edge.confidence (remap idm e)) (Edge.confidence cur))|];
      simpl; now apply (DictFacts.get_set_other _ key_eqb_eq).
Qed.

Hypothesis set_iter_perm : forall l, Permutation (set_iter l) l.

Lemma spec_survivor_flagged win lose :
  In duplicate_flag (Edge.flags (spec_survivor set_iter win lose)).
Proof.
  unfold spec_survivor. simpl.
  apply (Permutation_in _ (Permutation_sym (set_iter_perm _))).
  apply PySetFacts.In_of_list. rewrite in_app_iff. right. now left.
Qed.

Lemma spec_dedup_rule_flagged cur e :
  In duplicate_flag (Edge.flags (spec_dedup_rule set_iter cur e)).
Proof.
  unfold spec_dedup_rule.
  destruct (Qltb (Edge.confidence cur) (Edge.confidence e)); apply spec_survivor_flagged.
Qed.

(** The survivor of a group of two or more carries the flag
    "duplicate". *)
Lemma group_survivor_flagged g s :
  (2 <= length g)%nat ->
  spec_group_survivor set_iter g = Some s ->
  In duplicate_flag (Edge.flags s).
Proof.
  induction g as [|e' l _] using rev_ind; intro L; [simpl in L; lia|].
  rewrite spec_group_survivor_snoc.
  destruct (spec_group_survivor set_iter l) as [cur|] eqn:G.
  - intros [= <-]. apply spec_dedup_rule_flagged.
  - destruct l; [|discriminate]. simpl in L. lia.
Qed.

(** ** Conflict marking, key by key *)

Lemma edge_step_keys_nodup idm st e :
  NoDup (Dict.keys (out_edges st)) -> NoDup (Dict.keys (out_edges (edge_step idm st e))).
Proof.
  intro H. unfold Merge.edge_step.
  destruct (Dict.get key_eqb (out_edges st) (key_of (remap idm e))) as [cur|];
    [destruct (Qle_bool (Edge.confidence (remap idm e)) (Edge.confidence cur))|];
    simpl; now apply (DictFacts.NoDup_keys_set _ key_eqb_eq).
Qed.

Lemma edge_loop_keys_nodup idm edges :
  NoDup (Dict.keys (out_edges (edge_loop idm edges))).
Proof.
  induction edges as [|e l IH] using rev_ind; [constructor|].
  rewrite edge_loop_snoc. now apply edge_step_keys_nodup.
Qed.

Lemma conflict_loop_marks items : forall st,
  marked_edges (fold_left (pair_step set_iter) items st)
  = fold_left mark_at (visited items) (marked_edges st).
Proof.
  induction items as [|[p rels] items IH]; intro st; simpl; [reflexivity|].
  rewrite IH, fold_left_app. f_equal.
  destruct (Nat.leb (length rels) 1); [reflexivity|].
  generalize (set_iter rels). intro l. revert st.
  induction l as [|r l IHl]; intro st; simpl; [reflexivity|].
  rewrite IHl. f_equal. unfold conflict_step, mark_at.
  now destruct (Dict.get key_eqb (marked_edges st) (p, r)).
Qed.

Lemma keys_mark_entry f m :
  Dict.keys (map (fun kv => mark_entry (f kv) kv) m) = Dict.keys m.
Proof.
  unfold Dict.keys. rewrite map_map. apply map_ext. intro kv.
  unfold mark_entry. now destruct (f kv).
Qed.

Lemma mark_at_map m k :
  NoDup (Dict.keys m) ->
  mark_at m k = map (fun kv => mark_entry (key_eqb (fst kv) k) kv) m.
Proof.
  intro ND. unfold mark_at. destruct (Dict.get key_eqb m k) as [e|] eqn:G.
  - rewrite (DictFacts.set_present_map _ key_eqb_eq) by
      (auto; unfold Dict.mem; now rewrite G).
    apply map_ext_in. intros [k' e'] Hin. simpl. unfold mark_entry. simpl.
    destruct (key_eqb k' k) eqn:E; [|reflexivity].
    apply key_eqb_eq in E. subst k'.
    apply (DictFacts.In_get _ key_eqb_eq _ _ _ ND) in Hin. congruence.
  - symmetry. rewrite <- (map_id m) at 2. apply map_ext_in. intros [k' e'] Hin.
    unfold mark_entry. simpl. destruct (key_eqb k' k) eqn:E; [|reflexivity].
    apply key_eqb_eq in E. subst k'.
    apply (DictFacts.In_get _ key_eqb_eq _ _ _ ND) in Hin. congruence.
Qed.

Lemma fold_mark_at l : forall m,
  NoDup l -> NoDup (Dict.keys m) ->
  fold_left mark_at l m
  = map (fun kv => mark_entry (existsb (key_eqb (fst kv)) l) kv) m.
Proof.
  induction l as [|k l IH]; intros m NL NM; simpl.
  - symmetry. rewrite <- (map_id m) at 2. now apply map_ext.
  - inversion NL as [|? ? Hk Hl]; subst.
    rewrite mark_at_map by assumption.
    rewrite IH; [|assumption | now rewrite keys_mark_entry].
    rewrite map_map. apply map_ext. intros [k' e']. unfold mark_entry at 2. simpl.
    destruct (key_eqb k' k) eqn:E; simpl.
    + apply key_eqb_eq in E. subst k'. unfold mark_entry. simpl.
      assert (X : existsb (key_eqb k) l = false).
      { destruct (existsb (key_eqb k) l) eqn:X; [|reflexivity].
        apply existsb_exists in X. destruct X as (y & Hy & Ey).
        apply key_eqb_eq in Ey. subst y. contradiction. }
      now rewrite X.
    + reflexivity.
Qed.

(** *** The sets of relations collected per pair *)

Lemma by_pair_step_inv done bp k :
  by_pair_inv done bp -> by_pair_inv (done ++ [k]) (by_pair_step bp k).
Proof.
  intros [N I]. destruct k as [[s t] rel0]. unfold by_pair_step. split.
  - now apply (DictFacts.NoDup_keys_set _ pair_eqb_eq).
  - intro p. unfold rels_of, Dict.get_or.
    destruct (pair_eqb p (s, t)) eqn:E.
    + apply pair_eqb_eq in E. subst p.
      rewrite (DictFacts.get_set_same _ pair_eqb_eq).
      destruct (I (s, t)) as [ND IN]. unfold rels_of, Dict.get_or in ND, IN.
      split; [now apply PySetFacts.NoDup_add|].
      intro rel. rewrite PySetFacts.In_add, IN, in_app_iff. simpl. split.
      * intros [->|H]; [right; left; reflexivity | left; assumption].
      * intros [H|[H|[]]]; [right; assumption | left; congruence].
    + assert (Np : p <> (s, t)).
      { intros ->. rewrite (DictFacts.eqb_refl _ pair_eqb_eq) in E. discriminate. }
      rewrite (DictFacts.get_set_other _ pair_eqb_eq) by assumption.
      destruct (I p) as [ND IN]. unfold rels_of, Dict.get_or in ND, IN.
      split; [assumption|].
      intro rel. rewrite (IN rel), in_app_iff. simpl. split; [auto|].
      intros [H|[H|[]]]; [assumption|]. exfalso. apply Np. congruence.
Qed.

Lemma by_pair_of_inv out : by_pair_inv (Dict.keys out) (by_pair_of out).
Proof.
  unfold by_pair_of.
  assert (G : forall ks done bp, by_pair_inv done bp ->
            by_pair_inv (done ++ ks) (fold_left by_pair_step ks bp)).
  { induction ks as [|k ks IH]; intros done bp H; simpl.
    - now rewrite app_nil_r.
    - replace (done ++ k :: ks) with ((done ++ [k]) ++ ks)
        by (rewrite <- app_assoc; reflexivity).
      apply IH. now apply by_pair_step_inv. }
  apply (G (Dict.keys out) [] []). split; [constructor|].
  intro p. split; [constructor | simpl; tauto].
Qed.

Lemma In_inner (p : pair_key) (rels : PySet.t) (k : edge_key) :
  In k (if Nat.leb (length rels) 1 then []
        else map (fun rel => (p, rel)) (set_iter rels))
  <-> fst k = p /\ (1 < length rels)%nat /\ In (snd k) rels.
Proof.
  destruct (Nat.leb (length rels) 1) eqn:E.
  - apply Nat.leb_le in E. simpl. split; [contradiction | intros (_ & H & _); lia].
  - apply Nat.leb_gt in E. rewrite in_map_iff. split.
    + intros (rel & <- & H). simpl. repeat split; auto.
      apply (Permutation_in _ (set_iter_perm rels)). assumption.
    + intros (<- & _ & H). exists (snd k). split; [now destruct k|].
      apply (Permutation_in _ (Permutation_sym (set_iter_perm rels))). assumption.
Qed.

Lemma In_visited (bp : Dict.t pair_key PySet.t) (p : pair_key) (rel : str) :
  NoDup (Dict.keys bp) ->
  In (p, rel) (visited bp)
  <-> (1 < length (rels_of bp p))%nat /\ In rel (rels_of bp p).
Proof.
  intro ND. unfold visited. rewrite in_flat_map. split.
  - intros ([p' rels] & Hin & H). apply In_inner in H. simpl in H.
    destruct H as (<- & L & R).
    apply (DictFacts.In_get _ pair_eqb_eq _ _ _ ND) in Hin.
    unfold rels_of, Dict.get_or. rewrite Hin. auto.
  - intros [L R]. unfold rels_of, Dict.get_or in L, R.
    destruct (Dict.get pair_eqb bp p) as [rels|] eqn:G; [|simpl in L; lia].
    exists (p, rels). split; [now apply (DictFacts.get_In _ pair_eqb_eq)|].
    apply In_inner. simpl. auto.
Qed.

Lemma NoDup_visited bp :
  NoDup (Dict.keys bp) -> (forall p, NoDup (rels_of bp p)) -> NoDup (visited bp).
Proof.
  intros ND NR.
  assert (G : forall items, NoDup (Dict.keys items) ->
            (forall p rels, In (p, rels) items -> NoDup rels) -> NoDup (visited items)).
  { induction items as [|[p rels] items IH]; intros NK NI; simpl; [constructor|].
    inversion NK as [|? ? Hp Hr]; subst. apply NoDup_app.
    - destruct (Nat.leb (length rels) 1); [constructor|].
      apply NoDup_map_NoDup_ForallPairs.
      + intros x y _ _ H. congruence.
      + apply (Permutation_NoDup (Permutation_sym (set_iter_perm rels))).
        apply (NI p). now left.
    - apply IH; [assumption|]. intros q r H. apply (NI q). now right.
    - intros k Hk Hk'. apply In_inner in Hk. destruct Hk as (Hf & _).
      unfold visited in Hk'. apply in_flat_map in Hk'.
      destruct Hk' as ([q r] & Hq & Hin). apply In_inner in Hin.
      destruct Hin as (Hf' & _). simpl in *. apply Hp.
      rewrite <- Hf, Hf'. change q with (fst (q, r)). now apply in_map. }
  apply G; [assumption|]. intros p rels Hin.
  apply (DictFacts.In_get _ pair_eqb_eq _ _ _ ND) in Hin.
  specialize (NR p). unfold rels_of, Dict.get_or in NR. now rewrite Hin in NR.
Qed.

Lemma two_distinct (rels : list str) rel :
  NoDup rels -> In rel rels ->
  ((1 < length rels)%nat <-> exists rel', rel' <> rel /\ In rel' rels).
Proof.
  intros ND Hin. split.
  - destruct rels as [|a [|b r]]; simpl; try lia. intros _.
    inversion ND as [|? ? Ha _]; subst.
    destruct (str_eq_dec a rel) as [->|N].
    + exists b. split; [|right; now left].
      intros ->. apply Ha. now left.
    + exists a. split; [assumption | now left].
  - intros (rel' & N & Hin'). destruct rels as [|a [|b r]]; simpl in *; try lia.
    destruct Hin as [<-|[]], Hin' as [<-|[]]. contradiction.
Qed.

Lemma in_conflict_iff out p rel :
  in_conflict out (p, rel) = true
  <-> exists rel', rel' <> rel /\ In (p, rel') (Dict.keys out).
Proof.
  unfold in_conflict. rewrite existsb_exists. simpl. split.
  - intros ([q r] & Hin & H). simpl in H. apply andb_true_iff in H.
    destruct H as [H1 H2]. apply pair_eqb_eq in H1. subst q.
    apply negb_true_iff, str_eqb_neq in H2. exists r. auto.
  - intros (rel' & N & Hin). exists (p, rel'). split; [assumption|]. simpl.
    rewrite (DictFacts.eqb_refl _ pair_eqb_eq). simpl.
    apply negb_true_iff, str_eqb_neq. assumption.
Qed.

Lemma visited_is_in_conflict out k :
  In k (Dict.keys out) ->
  existsb (key_eqb k) (visited (by_pair_of out)) = in_conflict out k.
Proof.
  intro Hk. destruct k as [p rel].
  destruct (by_pair_of_inv out) as [ND I].
  destruct (I p) as [NR IN].
  assert (Hrel : In rel (rels_of (by_pair_of out) p)) by now apply IN.
  assert (E : existsb (key_eqb (p, rel)) (visited (by_pair_of out)) = true
              <-> in_conflict out (p, rel) = true).
  { rewrite in_conflict_iff, existsb_exists. split.
    - intros (y & Hy & Ey). apply key_eqb_eq in Ey. subst y.
      apply In_visited in Hy; [|assumption]. destruct Hy as [L _].
      apply (@two_distinct _ rel NR Hrel) in L. destruct L as (rel' & N & H).
      exists rel'. split; [assumption | now apply IN].
    - intros (rel' & N & H). exists (p, rel).
      split; [|apply (DictFacts.eqb_refl _ key_eqb_eq)].
      apply In_visited; [assumption|]. split; [|assumption].
      apply (@two_distinct _ rel NR Hrel). exists rel'. split; [assumption | now apply IN]. }
  destruct (existsb (key_eqb (p, rel)) (visited (by_pair_of out))),
           (in_conflict out (p, rel)); try reflexivity.
  - symmetry. now apply E.
  - now apply E.
Qed.

(** The conflict loop marks exactly the entries whose key is in conflict,
    each one once, and leaves the order of the dict alone. *)
Lemma conflict_loop_values out :
  NoDup (Dict.keys out) ->
  Dict.values (marked_edges (conflict_loop out))
  = map (fun kv => if in_conflict out (fst kv) then mark_conflict (snd kv) else snd kv) out.
Proof.
  intro ND. unfold Merge.conflict_loop. rewrite conflict_loop_marks. simpl.
  destruct (by_pair_of_inv out) as [NB I].
  rewrite fold_mark_at; [|apply NoDup_visited; [assumption | intro p; apply I] | assumption].
  unfold Dict.values. rewrite map_map. apply map_ext_in. intros [k e] Hin.
  assert (Hk : In k (Dict.keys out)) by (change k with (fst (k, e)); now apply in_map).
  simpl. rewrite (visited_is_in_conflict _ _ Hk). unfold mark_entry.
  now destruct (in_conflict out k).
Qed.

(** *** What marking does to one edge *)

Lemma has_conflict_flag_In e : has_conflict_flag e = true <-> In conflict_flag (Edge.flags e).
Proof. apply PySetFacts.mem_In. Qed.

Lemma mark_conflict_flags e :
  In conflict_flag (Edge.flags (mark_conflict e))
  /\ count_occ str_eq_dec (Edge.flags (mark_conflict e)) conflict_flag
     = Nat.max 1 (count_occ str_eq_dec (Edge.flags e) conflict_flag).
Proof.
  unfold mark_conflict. destruct (has_conflict_flag e) eqn:H; simpl.
  - apply has_conflict_flag_In in H. split; [assumption|].
    apply (count_occ_In str_eq_dec) in H.
    destruct (count_occ str_eq_dec (Edge.flags e) conflict_flag); [lia | reflexivity].
  - assert (N : ~ In conflict_flag (Edge.flags e)).
    { intro X. apply has_conflict_flag_In in X. congruence. }
    split; [rewrite in_app_iff; right; now left|].
    rewrite count_occ_app. apply (count_occ_not_In str_eq_dec) in N. rewrite N.
    reflexivity.
Qed.

Lemma mark_conflict_confidence e :
  Edge.confidence (mark_conflict e) = py_max 0 (py_min 1 (Edge.confidence e * 0.8)).
Proof. unfold mark_conflict. now destruct (has_conflict_flag e). Qed.

(** C4 (as amended). The output edges are the deduplicated edges in
    order, where exactly those whose (source, target) pair carries another
    relation went once through the marking: such an edge ends with
    "conflict" in its flag list, appended only if it was absent (so it
    occurs exactly once when the edge came in with at most one), and its
    confidence is the old one times 0.8, clamped to [0,1]. *)
Theorem C4_conflicting_edges_marked_once (nodes : list Node.t) (edges : list Edge.t) :
  let deduped := out_edges (edge_loop (id_map (node_loop nodes)) edges) in
  snd (fst (merge_synonyms nodes edges))
  = map (fun kv => if in_conflict deduped (fst kv) then mark_conflict (snd kv) else snd kv)
        deduped
  /\ forall e,
       In conflict_flag (Edge.flags (mark_conflict e))
       /\ count_occ str_eq_dec (Edge.flags (mark_conflict e)) conflict_flag
          = Nat.max 1 (count_occ str_eq_dec (Edge.flags e) conflict_flag)
       /\ ((count_occ str_eq_dec (Edge.flags e) conflict_flag <= 1)%nat ->
           count_occ str_eq_dec (Edge.flags (mark_conflict e)) conflict_flag = 1%nat)
       /\ Edge.confidence (mark_conflict e) = py_max 0 (py_min 1 (Edge.confidence e * 0.8))
       /\ 0 <= Edge.confidence (mark_conflict e) <= 1.
Proof.
  cbv zeta. split.
  - unfold Merge.merge_synonyms. simpl.
    apply conflict_loop_values, edge_loop_keys_nodup.
  - intro e. destruct (mark_conflict_flags e) as [A B].
    split; [assumption|]. split; [assumption|]. split; [intro H; rewrite B; lia|].
    split; [apply mark_conflict_confidence|].
    rewrite mark_conflict_confidence.
    apply (CheckerProofs.clamp01_range (Edge.confidence e * 0.8)).
Qed.

(** C5 (as amended). When every endpoint of every input edge is the id of
    an input node, every edge of the output has for source and for target
    the id of a node of the output. *)
Theorem C5_endpoints_reference_output_nodes (nodes : list Node.t) (edges : list Edge.t) :
  (forall e, In e edges ->
     In (Edge.source e) (map Node.id nodes) /\ In (Edge.target e) (map Node.id nodes)) ->
  let '(out_nodes, out_edges, _) := merge_synonyms nodes edges in
  forall e, In e out_edges ->
    In (Edge.source e) (map Node.id out_nodes)
    /\ In (Edge.target e) (map Node.id out_nodes).
Proof.
  intro H. unfold Merge.merge_synonyms.
  set (ids := map Node.id (Dict.values (kept (node_loop nodes)))).
  set (P := fun e => In (Edge.source e) ids /\ In (Edge.target e) ids).
  assert (F : Forall P (Dict.values (marked_edges (conflict_loop
                (out_edges (edge_loop (id_map (node_loop nodes)) edges)))))).
  { apply conflict_loop_preserves.
    - intros e He. unfold P.
      destruct (mark_conflict_fields e) as (_ & -> & -> & _). exact He.
    - apply edge_loop_preserves.
      + intros w l Hw. unfold P.
        destruct (absorb_fields w l) as (_ & -> & -> & _). exact Hw.
      + intros e He. unfold P.
        destruct (remap_endpoints (id_map (node_loop nodes)) e) as (-> & -> & _).
        destruct (H e He). split; now apply remapped_endpoint. }
  rewrite Forall_forall in F. exact F.
Qed.

End WithInterpreter.
(** ** Runs on the sample inputs *)

(** The two spellings of section 8 of the specification have one key. *)
Example same_key :
  _k ascii_lower (of_string "Neural Network") (of_string "CS")
  = _k ascii_lower (of_string "neural network (NN)") (of_string "CS").
Proof. reflexivity. Qed.

Example abbreviation_key :
  _normalize_name ascii_lower (of_string " NN ") = of_string "neural network".
Proof. reflexivity. Qed.


Lemma C4_witness :
  exists e1 e2,
    snd (fst (run_sample conflicting_edges)) = [e1; e2]
    /\ In conflict_flag (Edge.flags e2)
    /\ count_occ str_eq_dec (Edge.flags e2) conflict_flag = 1%nat
    /\ Edge.confidence e2 == 0.4.
Proof.
  destruct (@C4_conflicting_edges_marked_once ascii_lower (fun l => l)
              (fun l => Permutation_refl l) sample_nodes conflicting_edges)
    as [A _].
  unfold run_sample. rewrite A.
  do 2 eexists. split; [vm_compute; reflexivity|].
  split; [vm_compute; tauto|]. split; reflexivity.
Defined.

(** C4 as stated fails: the two edges are in conflict, the first one
    came in with "conflict" twice, and it leaves with "conflict" twice. *)
Lemma C4_counterexample :
  exists e1 e2,
    snd (fst (run_sample conflicting_edges)) = [e1; e2]
    /\ Edge.source e1 = Edge.source e2 /\ Edge.target e1 = Edge.target e2
    /\ Edge.relation e1 <> Edge.relation e2
    /\ count_occ str_eq_dec (Edge.flags e1) conflict_flag = 2%nat.
Proof.
  do 2 eexists. split; [vm_compute; reflexivity|].
  repeat split; try reflexivity. vm_compute. discriminate.
Qed.

Lemma C5_witness :
  Forall (fun e =>
            In (Edge.source e) (map Node.id (fst (fst (run_sample duplicate_edges))))
            /\ In (Edge.target e) (map Node.id (fst (fst (run_sample duplicate_edges)))))
         (snd (fst (run_sample duplicate_edges))).
Proof.
  apply Forall_forall.
  apply (@C5_endpoints_reference_output_nodes ascii_lower (fun l => l)
           sample_nodes duplicate_edges).
  intros e H. vm_compute in H.
  destruct H as [<-|[<-|[]]]; vm_compute; tauto.
Defined.

(** C5 as stated fails: the source of the edge is the id of no input
    node, it is left as it is, and no output node has it. *)
Lemma C5_counterexample :
  exists e,
    snd (fst (run_sample dangling_edges)) = [e]
    /\ ~ In (Edge.source e) (map Node.id (fst (fst (run_sample dangling_edges)))).
Proof.
  eexists. split; [vm_compute; reflexivity|].
  vm_compute. intros [H|[H|[]]]; discriminate H.
Qed.

End MergeProofs.

(* ================================================================== *)
(** * The schema validator and repairer *)
(* ================================================================== *)

Module SchemaProofs.
Import Py PyFacts Json SchemaValidate.
Local Open Scope Z_scope.

(** ** Dicts of the draft under string keys *)

Lemma value_eqb_key x k : value_eqb x (key k) = true <-> x = key k.
Proof.
  unfold key. destruct x; simpl; try (split; discriminate).
  rewrite str_eqb_eq. split; congruence.
Qed.

Lemma value_eqb_key_refl k : value_eqb (key k) (key k) = true.
Proof. now apply value_eqb_key. Qed.

Lemma key_inj_neq k k' : of_string k <> of_string k' -> key k <> key k'.
Proof. unfold key. congruence. Qed.

Lemma lookup_put_same d k v :
  Dict.get value_eqb (put d k v) (key k) = Some v.
Proof.
  unfold put. induction d as [|[k0 v0] r IH]; cbn [Dict.get Dict.set].
  - now rewrite value_eqb_key_refl.
  - destruct (value_eqb k0 (key k)) eqn:E; cbn [Dict.get]; rewrite E;
      [reflexivity | exact IH].
Qed.

Lemma lookup_put_other d k k' v :
  of_string k <> of_string k' ->
  Dict.get value_eqb (put d k v) (key k') = Dict.get value_eqb d (key k').
Proof.
  intro N. unfold put. induction d as [|[k0 v0] r IH]; cbn [Dict.get Dict.set].
  - destruct (value_eqb (key k) (key k')) eqn:E; [|reflexivity].
    apply value_eqb_key in E. apply key_inj_neq in N. contradiction.
  - destruct (value_eqb k0 (key k)) eqn:E; cbn [Dict.get].
    + apply value_eqb_key in E. subst k0.
      destruct (value_eqb (key k) (key k')) eqn:E'; [|reflexivity].
      apply value_eqb_key in E'. apply key_inj_neq in N. contradiction.
    + destruct (value_eqb k0 (key k')); [reflexivity | exact IH].
Qed.

Lemma get_put_same d k v : get (put d k v) k = v.
Proof. unfold get. now rewrite lookup_put_same. Qed.

Lemma has_put_same d k v : has (put d k v) k = true.
Proof. unfold has, Dict.mem. now rewrite lookup_put_same. Qed.

Lemma get_put_other d k k' v :
  of_string k <> of_string k' -> get (put d k v) k' = get d k'.
Proof. intro N. unfold get. now rewrite lookup_put_other. Qed.

Lemma has_put_other d k k' v :
  of_string k <> of_string k' -> has (put d k v) k' = has d k'.
Proof. intro N. unfold has, Dict.mem. now rewrite lookup_put_other. Qed.

Lemma has_put_mono d k k' v : has d k' = true -> has (put d k v) k' = true.
Proof.
  intro H. destruct (str_eq_dec (of_string k) (of_string k')) as [E|N].
  - unfold has, Dict.mem, put, key in *. rewrite E.
    change (VStr (of_string k')) with (key k'). fold (put d k' v).
    now rewrite lookup_put_same.
  - now rewrite has_put_other.
Qed.

Lemma setdefault_unfold d k v : setdefault d k v = if has d k then d else put d k v.
Proof. reflexivity. Qed.

Lemma setdefault_present d k v : has d k = true -> setdefault d k v = d.
Proof. intro H. now rewrite setdefault_unfold, H. Qed.

Lemma has_setdefault_same d k v : has (setdefault d k v) k = true.
Proof.
  rewrite setdefault_unfold. destruct (has d k) eqn:E; [exact E | apply has_put_same].
Qed.

Lemma has_setdefault_mono d k k' v : has d k' = true -> has (setdefault d k v) k' = true.
Proof.
  intro H. rewrite setdefault_unfold. destruct (has d k); [exact H | now apply has_put_mono].
Qed.

Lemma get_setdefault_other d k k' v :
  of_string k <> of_string k' -> get (setdefault d k v) k' = get d k'.
Proof.
  intro N. rewrite setdefault_unfold. destruct (has d k); [reflexivity|].
  now apply get_put_other.
Qed.

Lemma has_setdefault_other d k k' v :
  of_string k <> of_string k' -> has (setdefault d k v) k' = has d k'.
Proof.
  intro N. rewrite setdefault_unfold. destruct (has d k); [reflexivity|].
  now apply has_put_other.
Qed.

(** Writing back the value a key already has changes nothing. *)
Lemma set_same_value (K V : Type) (eqb : K -> K -> bool) (d : Dict.t K V) k v :
  Dict.get eqb d k = Some v -> Dict.set eqb d k v = d.
Proof.
  induction d as [|[k0 v0] r IH]; simpl; [discriminate|].
  destruct (eqb k0 k); [intros [= ->]; reflexivity|].
  intro H. now rewrite IH.
Qed.

Lemma put_same_value d k : has d k = true -> put d k (get d k) = d.
Proof.
  unfold has, Dict.mem, get, put. intro H. apply set_same_value.
  now destruct (Dict.get value_eqb d (key k)).
Qed.

Lemma has_nonempty d k : has d k = true -> truthy (VDict d) = true.
Proof. destruct d; [discriminate | reflexivity]. Qed.

Lemma get_missing d k : has d k = false -> get d k = VNone.
Proof. unfold has, Dict.mem, get. now destruct (Dict.get value_eqb d (key k)). Qed.

(** Two distinct literal keys. *)
Ltac distinct_keys := let H := fresh in intro H; vm_compute in H; discriminate H.

(** ** The loop body *)

Section WithLibraries.
Variable py_str : value -> str.

Local Abbreviation fix_evidence := (SchemaValidate.fix_evidence py_str).
Local Abbreviation fix_edge := (SchemaValidate.fix_edge py_str).
Local Abbreviation fix_edges := (SchemaValidate.fix_edges py_str).
Local Abbreviation light_fix := (SchemaValidate.light_fix py_str).

Ltac dict_simp :=
  repeat first
    [ rewrite get_put_same | rewrite has_put_same | rewrite has_setdefault_same
    | rewrite get_put_other by distinct_keys
    | rewrite has_put_other by distinct_keys
    | rewrite get_setdefault_other by distinct_keys
    | rewrite has_setdefault_other by distinct_keys ].

Lemma fill_evidence_fst ev inferred :
  fst (fill_evidence ev inferred)
  = setdefault (setdefault (setdefault (setdefault ev
      "title" (VStr [])) "snippet" (VStr [])) "url" VNone) "domain" inferred.
Proof.
  unfold fill_evidence. rewrite !setdefault_unfold.
  destruct (has ev "title"); cbv beta iota zeta;
    match goal with |- context [if has ?d "snippet" then _ else _] =>
      destruct (has d "snippet") end;
    cbv beta iota zeta;
    match goal with |- context [if has ?d "url" then _ else _] =>
      destruct (has d "url") end;
    match goal with |- context [if has ?d "domain" then _ else _] =>
      destruct (has d "domain") end;
    reflexivity.
Qed.

Lemma fix_evidence_filled nd ee : filled_evidence (fst (fix_evidence nd ee)) = true.
Proof.
  unfold SchemaValidate.fix_evidence. rewrite fill_evidence_fst. unfold filled_evidence.
  rewrite has_setdefault_same.
  rewrite !(has_setdefault_mono _ "domain"), !andb_true_r; try reflexivity.
  - apply has_setdefault_same.
  - apply has_setdefault_mono, has_setdefault_same.
  - apply has_setdefault_mono, has_setdefault_mono, has_setdefault_same.
Qed.

Lemma fix_evidence_fixpoint nd ee :
  filled_evidence (evidence_of ee) = true -> fix_evidence nd ee = (evidence_of ee, 0).
Proof.
  unfold filled_evidence. rewrite !andb_true_iff. intros [[[A B] C] D].
  unfold SchemaValidate.fix_evidence, fill_evidence.
  rewrite A. cbv beta iota zeta. rewrite B. cbv beta iota zeta. rewrite C, D.
  reflexivity.
Qed.

Lemma hash_id_truthy a b c : Py.truthy (Edge.hash_id a b c) = true.
Proof.
  unfold Edge.hash_id.
  pose proof (Sha1Facts.hexdigest_firstn_nonempty
                (Sha1.utf8 (a ++ [124%N] ++ b ++ [124%N] ++ c))) as H.
  destruct (firstn 12 _); [contradiction | reflexivity].
Qed.

(** The repaired copy, step by step. *)
Lemma fix_edge_fst nd e :
  let ee1 := if negb (has e "flags") || negb (is_list (get e "flags"))
             then put e "flags" (VList []) else e in
  let ee2 := setdefault ee1 "check_reason" VNone in
  let ee3 := put ee2 "evidence" (VDict (fst (fix_evidence nd ee2))) in
  fst (fix_edge nd e)
  = if needs_id ee3
    then put ee3 "id" (VStr (_sha (py_str (get ee3 "source")) (py_str (get ee3 "relation"))
                                  (py_str (get ee3 "target"))))
    else ee3.
Proof.
  cbv zeta. unfold SchemaValidate.fix_edge.
  destruct (negb (has e "flags") || negb (is_list (get e "flags")));
    cbv beta iota zeta;
    match goal with |- context [SchemaValidate.fix_evidence py_str nd ?x] =>
      destruct (SchemaValidate.fix_evidence py_str nd x) as [ev m] end;
    cbv beta iota zeta; simpl fst;
    match goal with |- context [needs_id ?x] => destruct (needs_id x) end;
    reflexivity.
Qed.

Lemma fix_edge_repaired nd e : repaired_edge (fst (fix_edge nd e)) = true.
Proof.
  rewrite fix_edge_fst.
  set (ee1 := if negb (has e "flags") || negb (is_list (get e "flags"))
              then put e "flags" (VList []) else e).
  assert (F : has ee1 "flags" = true /\ is_list (get ee1 "flags") = true).
  { unfold ee1. destruct (has e "flags") eqn:A; simpl.
    - destruct (is_list (get e "flags")) eqn:B; simpl.
      + auto.
      + now rewrite has_put_same, get_put_same.
    - now rewrite has_put_same, get_put_same. }
  destruct F as [F1 F2].
  set (ee2 := setdefault ee1 "check_reason" VNone).
  set (ev := fst (fix_evidence nd ee2)).
  assert (Fev : filled_evidence ev = true) by apply fix_evidence_filled.
  set (ee3 := put ee2 "evidence" (VDict ev)).
  assert (R : has ee3 "flags" = true /\ is_list (get ee3 "flags") = true
              /\ has ee3 "check_reason" = true /\ has ee3 "evidence" = true
              /\ get ee3 "evidence" = VDict ev).
  { unfold ee3, ee2. dict_simp. auto. }
  destruct R as (R1 & R2 & R3 & R4 & R5).
  unfold repaired_edge. destruct (needs_id ee3) eqn:N.
  - dict_simp. rewrite R1, R2, R3, R4, R5, Fev. simpl.
    unfold needs_id. dict_simp. simpl. unfold _sha. now rewrite hash_id_truthy.
  - now rewrite R1, R2, R3, R4, R5, Fev, N.
Qed.

(** On a repaired edge the loop body finds nothing to do. *)
Lemma fix_edge_fixpoint nd ee : repaired_edge ee = true -> fix_edge nd ee = (ee, 0).
Proof.
  unfold repaired_edge. rewrite !andb_true_iff.
  intros [[[[[A B] C] D] E] F]. apply negb_true_iff in F.
  unfold SchemaValidate.fix_edge. rewrite A, B. simpl orb. cbv beta iota zeta.
  rewrite (setdefault_present _ _ _ C).
  assert (Ev : get ee "evidence" = VDict (evidence_of ee)).
  { unfold evidence_of. destruct (get ee "evidence"); try discriminate. reflexivity. }
  assert (Fv : filled_evidence (evidence_of ee) = true).
  { unfold evidence_of. destruct (get ee "evidence"); try discriminate. exact E. }
  rewrite (fix_evidence_fixpoint nd ee Fv). cbv beta iota zeta.
  rewrite <- Ev, (put_same_value _ _ D), F. reflexivity.
Qed.

Lemma fix_edges_repaired nd es : Forall repaired_entry (fst (fix_edges nd es)).
Proof.
  induction es as [|v r IH]; simpl; [constructor|].
  destruct v; try exact IH.
  pose proof (fix_edge_repaired nd d) as R.
  destruct (SchemaValidate.fix_edge py_str nd d) as [ee n].
  destruct (SchemaValidate.fix_edges py_str nd r) as [out m]. simpl in *.
  constructor; [|exact IH]. exists ee. auto.
Qed.

Lemma fix_edges_fixpoint nd es : Forall repaired_entry es -> fix_edges nd es = (es, 0).
Proof.
  induction 1 as [|v r (ee & -> & R) _ IH]; simpl; [reflexivity|].
  now rewrite (fix_edge_fixpoint nd ee R), IH.
Qed.

Lemma fix_edges_length nd es :
  length (fst (fix_edges nd es)) = length (filter is_dict es).
Proof.
  induction es as [|v r IH]; simpl; [reflexivity|].
  destruct v; simpl; try exact IH.
  destruct (SchemaValidate.fix_edge py_str nd d) as [ee n].
  destruct (SchemaValidate.fix_edges py_str nd r) as [out m]. simpl in *. now rewrite IH.
Qed.

(** ** The whole repair *)

Lemma has_with_defaults g :
  has (with_defaults g) "concept" = true /\ has (with_defaults g) "nodes" = true
  /\ has (with_defaults g) "edges" = true /\ has (with_defaults g) "meta" = true.
Proof.
  unfold with_defaults. repeat split.
  - do 3 apply has_setdefault_mono. apply has_setdefault_same.
  - do 2 apply has_setdefault_mono. apply has_setdefault_same.
  - apply has_setdefault_mono, has_setdefault_same.
  - apply has_setdefault_same.
Qed.

Lemma with_defaults_present g :
  has g "concept" = true -> has g "nodes" = true -> has g "edges" = true ->
  has g "meta" = true ->
  with_defaults g = g /\ missing_top_level g = 0.
Proof.
  intros A B C D. unfold with_defaults, missing_top_level, count_missing.
  rewrite (setdefault_present _ _ _ A), (setdefault_present _ _ _ B),
          (setdefault_present _ _ _ C), (setdefault_present _ _ _ D), A, B, C, D.
  auto.
Qed.

Lemma has_meta_with_defaults m :
  has (fst (meta_with_defaults m)) "generated_at" = true
  /\ has (fst (meta_with_defaults m)) "version" = true
  /\ has (fst (meta_with_defaults m)) "checker_summary" = true.
Proof.
  unfold meta_with_defaults. simpl. repeat split.
  - do 2 apply has_setdefault_mono. apply has_setdefault_same.
  - apply has_setdefault_mono, has_setdefault_same.
  - apply has_setdefault_same.
Qed.

Lemma meta_with_defaults_present m :
  has m "generated_at" = true -> has m "version" = true ->
  has m "checker_summary" = true ->
  meta_with_defaults m = (m, 0).
Proof.
  intros A B C. unfold meta_with_defaults, count_missing.
  rewrite (setdefault_present _ _ _ A), A, (setdefault_present _ _ _ B), B,
          (setdefault_present _ _ _ C), C. reflexivity.
Qed.

Lemma py_list_of_list l : py_list (or_else (VList l) (VList [])) = Some l.
Proof. destruct l; reflexivity. Qed.

Lemma or_else_missing d k v : has d k = false -> or_else (get d k) v = v.
Proof. intro H. now rewrite (get_missing _ _ H). Qed.

(** The value under a top-level key after the four [setdefault]s, seen
    through [or []]. *)
Lemma get_with_defaults_nodes g :
  or_else (get (with_defaults g) "nodes") (VList []) = or_else (get g "nodes") (VList []).
Proof.
  unfold with_defaults. dict_simp. rewrite setdefault_unfold.
  destruct (has (setdefault g "concept" _) "nodes") eqn:E.
  - now dict_simp.
  - rewrite get_put_same. rewrite has_setdefault_other in E by distinct_keys.
    now rewrite (or_else_missing _ _ _ E).
Qed.

Lemma get_with_defaults_edges g :
  or_else (get (with_defaults g) "edges") (VList []) = or_else (get g "edges") (VList []).
Proof.
  unfold with_defaults. dict_simp. rewrite setdefault_unfold.
  destruct (has (setdefault (setdefault g "concept" _) "nodes" _) "edges") eqn:E.
  - now dict_simp.
  - rewrite get_put_same. rewrite !has_setdefault_other in E by distinct_keys.
    now rewrite (or_else_missing _ _ _ E).
Qed.

(** What a run of [light_fix] that returns has computed. *)
Lemma light_fix_inv g errors g' n :
  light_fix g errors = Some (g', n) ->
  exists meta ns es,
    py_dict (or_else (get (with_defaults g) "meta") (VDict [])) = Some meta
    /\ py_list (or_else (get g "nodes") (VList [])) = Some ns
    /\ py_list (or_else (get g "edges") (VList [])) = Some es
    /\ g' = put (put (with_defaults g) "meta" (VDict (fst (meta_with_defaults meta))))
                "edges" (VList (fst (fix_edges (fold_left (node_domain_step py_str) ns []) es)))
    /\ n = missing_top_level g + snd (meta_with_defaults meta)
           + snd (fix_edges (fold_left (node_domain_step py_str) ns []) es).
Proof.
  unfold SchemaValidate.light_fix.
  destruct (py_dict (or_else (get (with_defaults g) "meta") (VDict []))) as [meta|] eqn:M;
    [|discriminate].
  destruct (meta_with_defaults meta) as [meta' nm] eqn:MW.
  rewrite (get_put_other _ "meta" "nodes") by distinct_keys.
  rewrite (get_put_other _ "meta" "edges") by distinct_keys.
  rewrite get_with_defaults_nodes, get_with_defaults_edges.
  destruct (py_list (or_else (get g "nodes") (VList []))) as [ns|] eqn:Ns; [|discriminate].
  destruct (py_list (or_else (get g "edges") (VList []))) as [es|] eqn:Es; [|discriminate].
  destruct (SchemaValidate.fix_edges py_str (fold_left (node_domain_step py_str) ns []) es)
    as [fixed k] eqn:F.
  intros [= <- <-]. exists meta, ns, es. rewrite ?MW, F. cbn [fst snd]. repeat split; auto.
Qed.

(** C7. When [light_fix] returns a repaired dict, [light_fix] on that
    dict returns it unchanged with a fixed count of 0. *)
Theorem C7_light_fix_idempotent (g g' : dict) (errors errors' : list str) (n : Z) :
  light_fix g errors = Some (g', n) ->
  light_fix g' errors' = Some (g', 0).
Proof.
  intro H. apply light_fix_inv in H.
  destruct H as (meta & ns & es & M & Ns & Es & -> & _).
  set (m1 := fst (meta_with_defaults meta)).
  set (fixed := fst (fix_edges (fold_left (node_domain_step py_str) ns []) es)).
  set (g5 := put (with_defaults g) "meta" (VDict m1)).
  destruct (has_with_defaults g) as (A & B & C & D).
  destruct (has_meta_with_defaults meta) as (M1 & M2 & M3). fold m1 in M1, M2, M3.
  assert (HA : has (put g5 "edges" (VList fixed)) "concept" = true)
    by (unfold g5; now dict_simp).
  assert (HB : has (put g5 "edges" (VList fixed)) "nodes" = true)
    by (unfold g5; now dict_simp).
  assert (HC : has (put g5 "edges" (VList fixed)) "edges" = true) by now dict_simp.
  assert (HD : has (put g5 "edges" (VList fixed)) "meta" = true)
    by (unfold g5; now dict_simp).
  destruct (with_defaults_present _ HA HB HC HD) as [W Z0].
  assert (GM : get (put g5 "edges" (VList fixed)) "meta" = VDict m1)
    by (unfold g5; now dict_simp).
  pose proof (put_same_value _ _ HD) as PM. rewrite GM in PM.
  pose proof (put_same_value _ _ HC) as PE. rewrite get_put_same in PE.
  assert (GN : or_else (get (put g5 "edges" (VList fixed)) "nodes") (VList [])
               = or_else (get g "nodes") (VList [])).
  { unfold g5. dict_simp. apply get_with_defaults_nodes. }
  unfold SchemaValidate.light_fix. rewrite W, Z0, GM.
  unfold or_else at 1. rewrite (has_nonempty _ _ M1). simpl py_dict. cbv beta iota.
  rewrite (meta_with_defaults_present _ M1 M2 M3). cbv beta iota zeta.
  rewrite PM, GN, Ns, get_put_same, py_list_of_list.
  assert (FR : Forall repaired_entry fixed) by apply fix_edges_repaired.
  rewrite (fix_edges_fixpoint _ FR). now rewrite PE.
Qed.

(** C8 (as amended). [light_fix] leaves the value under "nodes" alone,
    and the repaired edge list has one entry for every dict among the
    entries of the input's "edges" value; an entry that is not a dict is
    dropped. *)
Theorem C8_light_fix_keeps_dict_entries (g g' : dict) (errors : list str) (n : Z) :
  light_fix g errors = Some (g', n) ->
  get g' "nodes" = (if has g "nodes" then get g "nodes" else VList [])
  /\ exists es es',
       edge_entries g = Some es
       /\ get g' "edges" = VList es'
       /\ length es' = length (filter is_dict es)
       /\ (forallb is_dict es = true -> length es' = length es).
Proof.
  intro H. apply light_fix_inv in H.
  destruct H as (meta & ns & es & M & Ns & Es & -> & _). split.
  - dict_simp. unfold with_defaults. dict_simp. rewrite setdefault_unfold.
    rewrite has_setdefault_other by distinct_keys.
    destruct (has g "nodes"); now dict_simp.
  - exists es. eexists. split; [exact Es|]. split; [apply get_put_same|].
    split; [apply fix_edges_length|].
    intro F. rewrite fix_edges_length. f_equal.
    clear -F. induction es as [|v r IH]; simpl in *; [reflexivity|].
    apply andb_true_iff in F. destruct F as [F1 F2]. rewrite F1. now rewrite IH.
Qed.

(** ** Valid drafts *)

Section WithSchemaLibrary.
Variable accepts_unit_float : value -> bool.
Variable accepts_bool : value -> bool.
Variable accepts_int : value -> bool.

Local Abbreviation valid_edge := (SchemaValidate.valid_edge accepts_unit_float accepts_bool).
Local Abbreviation validate_graph :=
  (SchemaValidate.validate_graph accepts_unit_float accepts_bool accepts_int).

Lemma required_true d k p :
  required d k p = true -> has d k = true /\ p (get d k) = true.
Proof.
  unfold required, has, Dict.mem, get.
  destruct (Dict.get value_eqb d (key k)); [auto | discriminate].
Qed.

Lemma optional_true d k p :
  optional d k p = true -> has d k = true -> p (get d k) = true.
Proof.
  unfold optional, has, Dict.mem, get.
  destruct (Dict.get value_eqb d (key k)); [auto | discriminate].
Qed.

(** A valid edge that spells out its optional keys is a repaired edge. *)
Lemma valid_complete_repaired v :
  valid_edge v = true -> complete_edge v = true -> repaired_entry v.
Proof.
  destruct v as [| | | | |l|d]; try discriminate. intros V C. exists d. split; [reflexivity|].
  unfold SchemaValidate.valid_edge in V. rewrite !andb_true_iff in V.
  destruct V as [[[[[[[[[_ _] _] _] _] Ev] _] _] _] Fl].
  unfold complete_edge in C. rewrite !andb_true_iff in C.
  destruct C as [[[Cf Cr] Ce] Ci].
  apply required_true in Ev. destruct Ev as [Ev1 Ev2].
  pose proof (optional_true _ _ _ Fl Cf) as L.
  unfold repaired_edge. rewrite Cf, Cr, Ev1, Ci.
  destruct (get d "flags"); try discriminate.
  destruct (get d "evidence") as [| | | | |?|ev]; try discriminate.
  unfold valid_evidence in Ev2. rewrite !andb_true_iff in Ev2.
  destruct Ev2 as [[[T S] _] _].
  apply required_true in T, S. destruct T as [T _], S as [S _].
  apply andb_true_iff in Ce. destruct Ce as [U D].
  unfold filled_evidence. now rewrite T, S, U, D.
Qed.

(** C6 (as amended). On a draft that validates and whose edges spell
    out every key the repair would add, [light_fix] returns the draft
    itself with a fixed count of 0. *)
Theorem C6_valid_complete_draft_unchanged (g : dict) (errors : list str) :
  validate_graph g = true ->
  (forall es, get g "edges" = VList es -> forallb complete_edge es = true) ->
  light_fix g errors = Some (g, 0).
Proof.
  intros V C. unfold SchemaValidate.validate_graph in V. rewrite !andb_true_iff in V.
  destruct V as [[[Vc Vn] Ve] Vm].
  apply required_true in Vc, Vn, Ve, Vm.
  destruct Vc as [Hc _], Vn as [Hn Vn], Ve as [He Ve], Vm as [Hm Vm].
  destruct (with_defaults_present _ Hc Hn He Hm) as [W Z0].
  destruct (get g "meta") as [| | | | |?|m] eqn:GM; try discriminate.
  unfold valid_meta in Vm. rewrite !andb_true_iff in Vm.
  destruct Vm as [[[M1 M2] M3] _].
  apply required_true in M1, M2, M3.
  destruct M1 as [M1 _], M2 as [M2 _], M3 as [M3 _].
  destruct (get g "nodes") as [| | | | |ns|?] eqn:GN; try discriminate.
  destruct (get g "edges") as [| | | | |es|?] eqn:GE; try discriminate.
  simpl in Ve. specialize (C es eq_refl).
  assert (R : Forall repaired_entry es).
  { apply Forall_forall. intros v Hv. rewrite forallb_forall in Ve, C.
    apply valid_complete_repaired; auto. }
  pose proof (put_same_value _ _ Hm) as PM. rewrite GM in PM.
  pose proof (put_same_value _ _ He) as PE. rewrite GE in PE.
  unfold SchemaValidate.light_fix. rewrite W, Z0, GM.
  unfold or_else at 1. rewrite (has_nonempty _ _ M1). simpl py_dict. cbv beta iota.
  rewrite (meta_with_defaults_present _ M1 M2 M3). cbv beta iota zeta.
  rewrite PM, GN, GE, !py_list_of_list, (fix_edges_fixpoint _ R), PE.
  reflexivity.
Qed.

End WithSchemaLibrary.
End WithLibraries.

(** ** Runs on the sample drafts *)

Lemma C6_witness :
  run_validate (sample_draft [full_edge]) = true
  /\ run_light_fix (sample_draft [full_edge]) = Some (sample_draft [full_edge], 0).
Proof.
  split; [reflexivity|].
  apply (@C6_valid_complete_draft_unchanged str_of_plain
           strict_unit_float strict_bool strict_int).
  - reflexivity.
  - intros es H. vm_compute in H. injection H as <-. reflexivity.
Defined.

(** C6 as stated fails: the draft validates, its edge leaves out
    [flags], the evidence domain and the id, and [light_fix] counts three
    fixes and returns a different dict. *)
Lemma C6_counterexample :
  run_validate (sample_draft [short_edge]) = true
  /\ exists g',
       run_light_fix (sample_draft [short_edge]) = Some (g', 3)
       /\ g' <> sample_draft [short_edge].
Proof.
  split; [reflexivity|]. eexists. split; [vm_compute; reflexivity|].
  vm_compute. discriminate.
Qed.

Lemma C7_witness :
  exists g' n,
    run_light_fix (sample_draft [short_edge]) = Some (g', n)
    /\ run_light_fix g' = Some (g', 0).
Proof.
  destruct (run_light_fix (sample_draft [short_edge])) as [[g' n]|] eqn:E;
    [|vm_compute in E; discriminate E].
  exists g', n. split; [reflexivity|].
  exact (@C7_light_fix_idempotent str_of_plain _ _ [] [] _ E).
Defined.

Lemma C8_witness :
  exists g' n es',
    run_light_fix (sample_draft [txt "oops"; short_edge]) = Some (g', n)
    /\ get g' "edges" = VList es'
    /\ length es' = 1%nat.
Proof.
  destruct (run_light_fix (sample_draft [txt "oops"; short_edge])) as [[g' n]|] eqn:E;
    [|vm_compute in E; discriminate E].
  destruct (@C8_light_fix_keeps_dict_entries str_of_plain _ _ [] _ E)
    as (_ & es & es' & A & B & C & _).
  exists g', n, es'. split; [reflexivity|]. split; [exact B|].
  rewrite C. vm_compute in A. injection A as <-. reflexivity.
Defined.

(** C8 as stated fails: the input has two entries under "edges", the
    first one is a string, and the repaired dict has one. *)
Lemma C8_counterexample :
  get (sample_draft [txt "oops"; short_edge]) "edges" = VList [txt "oops"; short_edge]
  /\ exists g' n e,
       run_light_fix (sample_draft [txt "oops"; short_edge]) = Some (g', n)
       /\ get g' "edges" = VList [e].
Proof.
  split; [reflexivity|]. do 3 eexists. split; vm_compute; reflexivity.
Qed.

End SchemaProofs.

(* ================================================================== *)
(** * More on the evidence checker and on edge ids *)
(* ================================================================== *)

Module CheckerExtra.
Import Py PyFacts Num NumFacts Checker CheckerProofs Shape.
Local Open Scope Q_scope.

(** ** [Edge.ensure_id] *)

Lemma hex8_length x : length (Sha1.hex8 x) = 8%nat.
Proof. reflexivity. Qed.

Lemma hexdigest_length m : length (Sha1.hexdigest m) = 40%nat.
Proof.
  unfold Sha1.hexdigest. destruct (Sha1.digest m) as [[[[h0 h1] h2] h3] h4].
  rewrite !length_app, !hex8_length. reflexivity.
Qed.

Lemma hex_digit_is_hex x : (x < 16)%N -> is_hex (Sha1.hex_digit x) = true.
Proof.
  intro H. unfold Sha1.hex_digit, is_hex.
  destruct (x <? 10)%N eqn:E.
  - apply N.ltb_lt in E. apply orb_true_iff. left.
    apply andb_true_iff. split; apply N.leb_le; lia.
  - apply N.ltb_ge in E. apply orb_true_iff. right.
    apply andb_true_iff. split; apply N.leb_le; lia.
Qed.

Lemma hex8_is_hex x : forallb is_hex (Sha1.hex8 x) = true.
Proof.
  unfold Sha1.hex8. rewrite forallb_forall. intros c Hc.
  apply in_map_iff in Hc. destruct Hc as (i & <- & _).
  apply hex_digit_is_hex. apply N.mod_lt. discriminate.
Qed.

Lemma hexdigest_is_hex m : forallb is_hex (Sha1.hexdigest m) = true.
Proof.
  unfold Sha1.hexdigest. destruct (Sha1.digest m) as [[[[h0 h1] h2] h3] h4].
  rewrite !forallb_app, !hex8_is_hex. reflexivity.
Qed.

Lemma forallb_firstn (A : Type) (f : A -> bool) n : forall l,
  forallb f l = true -> forallb f (firstn n l) = true.
Proof.
  induction n as [|n IH]; intros [|a l]; simpl; auto.
  intro H. apply andb_true_iff in H. destruct H as [H1 H2]. rewrite H1. simpl. auto.
Qed.

Lemma hash_id_length a b c : length (Edge.hash_id a b c) = 12%nat.
Proof. unfold Edge.hash_id. rewrite length_firstn, hexdigest_length. reflexivity. Qed.

Lemma ensure_id_has_id e : Edge.has_id (Edge.ensure_id e) = true.
Proof.
  unfold Edge.ensure_id. destruct (Edge.has_id e) eqn:H; [exact H|].
  unfold Edge.has_id. simpl. pose proof (hash_id_length (Edge.source e) (Edge.relation e)
                                           (Edge.target e)) as L.
  destruct (Edge.hash_id _ _ _); [discriminate | reflexivity].
Qed.

(** The id [ensure_id] makes is 12 lowercase hexadecimal digits; an edge
    that has a non-empty id is returned as it is; the call is idempotent
    and touches no other field. *)
Theorem ensure_id_id (e : Edge.t) :
  Edge.has_id (Edge.ensure_id e) = true
  /\ (if Edge.has_id e then Edge.ensure_id e = e
      else exists h, Edge.id (Edge.ensure_id e) = Some h
                     /\ h = Edge.hash_id (Edge.source e) (Edge.relation e) (Edge.target e)
                     /\ length h = 12%nat /\ forallb is_hex h = true)
  /\ Edge.ensure_id (Edge.ensure_id e) = Edge.ensure_id e
  /\ Edge.set_id (Edge.id e) (Edge.ensure_id e) = e.
Proof.
  pose proof (ensure_id_has_id e) as A.
  split; [exact A|]. split; [|split].
  - unfold Edge.ensure_id. destruct (Edge.has_id e); [reflexivity|].
    eexists. split; [reflexivity|]. split; [reflexivity|]. split; [apply hash_id_length|].
    unfold Edge.hash_id. apply forallb_firstn, hexdigest_is_hex.
  - unfold Edge.ensure_id at 1. now rewrite A.
  - unfold Edge.ensure_id. destruct (Edge.has_id e); destruct e; reflexivity.
Qed.

(** ** The loop of [run_check], edge by edge *)

Section WithInterpreter.
Variable lower : str -> str.
Variable set_iter : list str -> list str.

Local Abbreviation _norm := (Checker._norm lower).
Local Abbreviation evidence_check := (Checker.evidence_check lower set_iter).
Local Abbreviation check_edge := (Checker.check_edge lower set_iter).
Local Abbreviation run_check := (Checker.run_check lower set_iter).
Local Abbreviation checked_edge := (Checker.checked_edge lower set_iter).

Lemma Forall2_map_r (A B : Type) (R : A -> B -> Prop) (f : A -> B) l :
  (forall a, In a l -> R a (f a)) -> Forall2 R l (map f l).
Proof.
  induction l as [|a l IH]; intro H; simpl; constructor.
  - apply H. now left.
  - apply IH. intros; apply H; now right.
Qed.

(** A relation between every input edge and the edge that replaces it. *)
Lemma run_check_pointwise (R : Edge.t -> Edge.t -> Prop) graph strict :
  (forall e, R e (checked_edge graph strict e)) ->
  Forall2 R (GraphResult.edges graph) (GraphResult.edges (run_check graph strict)).
Proof.
  intro H. rewrite run_check_edges. apply Forall2_map_r. intros; apply H.
Qed.

Lemma run_check_all (P : Edge.t -> Prop) graph strict :
  (forall e, P (checked_edge graph strict e)) ->
  Forall P (GraphResult.edges (run_check graph strict)).
Proof.
  intro H. rewrite run_check_edges. apply Forall_forall. intros x Hx.
  apply in_map_iff in Hx. destruct Hx as (e & <- & _). apply H.
Qed.

Lemma apply_verdict_frame strict e v :
  Edge.id (apply_verdict strict e v) = Edge.id e
  /\ Edge.source (apply_verdict strict e v) = Edge.source e
  /\ Edge.target (apply_verdict strict e v) = Edge.target e
  /\ Edge.relation (apply_verdict strict e v) = Edge.relation e
  /\ Edge.evidence (apply_verdict strict e v) = Edge.evidence e
  /\ Edge.flags (apply_verdict strict e v) = Edge.flags e
  /\ Edge.checked (apply_verdict strict e v) = fst (fst v).
Proof.
  destruct v as [[ok score] reason]. unfold apply_verdict.
  destruct ok; [|destruct strict]; repeat split.
Qed.

Lemma apply_verdict_confidence strict e v :
  Edge.confidence (apply_verdict strict e v)
  = if fst (fst v) then _clamp01 ((Edge.confidence e + snd (fst v)) / 2)
    else _clamp01 (Edge.confidence e * 0.45).
Proof.
  destruct v as [[ok score] reason]. unfold apply_verdict.
  destruct ok; [|destruct strict]; reflexivity.
Qed.

Lemma prepared_relation e :
  if existsb (str_eqb (Edge.relation e)) whitelist
  then Edge.relation (prepared e) = Edge.relation e /\ Edge.flags (prepared e) = Edge.flags e
  else Edge.relation (prepared e) = of_string "related_to"
       /\ Edge.flags (prepared e) = Edge.flags e ++ [of_string "downgraded"].
Proof.
  destruct (EdgeFacts.ensure_id_fields e) as (_ & _ & R & _ & _ & _ & F).
  unfold prepared, whitelist_relation. rewrite R.
  destruct (existsb (str_eqb (Edge.relation e)) whitelist); simpl; rewrite ?R, ?F; auto.
Qed.

Lemma prepared_id e :
  Edge.id (prepared e) = Edge.id (Edge.ensure_id e).
Proof.
  unfold prepared, whitelist_relation.
  destruct (existsb _ whitelist); reflexivity.
Qed.

(** After [run_check] every confidence lies in [0,1], whatever it was. *)
Theorem run_check_confidence_in_unit_interval (graph : GraphResult.t) (strict : bool) :
  Forall (fun e => 0 <= Edge.confidence e /\ Edge.confidence e <= 1)
         (GraphResult.edges (run_check graph strict)).
Proof.
  apply run_check_all. intro e. rewrite checked_edge_eq, apply_verdict_confidence.
  destruct (fst (fst _)); apply clamp01_range.
Qed.

(** After [run_check] every relation is one of the five kinds: an edge
    whose relation is one of them keeps its relation and its flags, any
    other edge becomes "related_to" and gets "downgraded" appended to its
    flags. *)
Theorem run_check_relation_whitelisted (graph : GraphResult.t) (strict : bool) :
  Forall2 (fun e e' =>
             In (Edge.relation e') whitelist
             /\ if existsb (str_eqb (Edge.relation e)) whitelist
                then Edge.relation e' = Edge.relation e /\ Edge.flags e' = Edge.flags e
                else Edge.relation e' = of_string "related_to"
                     /\ Edge.flags e' = Edge.flags e ++ [of_string "downgraded"])
          (GraphResult.edges graph) (GraphResult.edges (run_check graph strict)).
Proof.
  apply run_check_pointwise. intro e. rewrite checked_edge_eq.
  destruct (apply_verdict_frame strict (prepared e)
              (evidence_check e (source_name graph e) (target_name graph e)))
    as (_ & _ & _ & R & _ & F & _).
  rewrite R, F. pose proof (prepared_relation e) as P.
  destruct (existsb (str_eqb (Edge.relation e)) whitelist) eqn:W.
  - destruct P as [P1 P2]. split; [|auto]. rewrite P1.
    apply existsb_exists in W. destruct W as (x & Hx & E).
    apply str_eqb_eq in E. now subst.
  - destruct P as [P1 P2]. split; [|auto]. rewrite P1. simpl. auto.
Qed.

(** [run_check] keeps the concept, the nodes, the number and order of the
    edges, and the source, target and evidence of every edge; every edge
    leaves with a non-empty id, its own if it had one. *)
Theorem run_check_frame (graph : GraphResult.t) (strict : bool) :
  GraphResult.concept (run_check graph strict) = GraphResult.concept graph
  /\ GraphResult.nodes (run_check graph strict) = GraphResult.nodes graph
  /\ Forall2 (fun e e' =>
                Edge.source e' = Edge.source e /\ Edge.target e' = Edge.target e
                /\ Edge.evidence e' = Edge.evidence e
                /\ Edge.has_id e' = true
                /\ (Edge.has_id e = true -> Edge.id e' = Edge.id e))
             (GraphResult.edges graph) (GraphResult.edges (run_check graph strict)).
Proof.
  split; [reflexivity|]. split; [reflexivity|].
  apply run_check_pointwise. intro e. rewrite checked_edge_eq.
  destruct (apply_verdict_frame strict (prepared e)
              (evidence_check e (source_name graph e) (target_name graph e)))
    as (I & S & T & _ & E & _).
  destruct (prepared_fields e) as (S' & T' & _ & E' & _).
  pose proof (ensure_id_has_id e) as H1.
  rewrite S, T, E, S', T', E'. repeat split.
  - unfold Edge.has_id. rewrite I, prepared_id. exact H1.
  - intro H. rewrite I, prepared_id. unfold Edge.ensure_id. now rewrite H.
Qed.

(** ** The counters *)

Lemma filter_map_length (A B : Type) (f : B -> bool) (g : A -> B) l :
  length (filter f (map g l)) = length (filter (fun a => f (g a)) l).
Proof.
  induction l as [|a l IH]; simpl; [reflexivity|].
  destruct (f (g a)); simpl; now rewrite IH.
Qed.

Lemma count_cons (A : Type) (f : A -> bool) a l :
  count f (a :: l) = ((if f a then 1 else 0) + count f l)%Z.
Proof.
  unfold count. simpl. destruct (f a); simpl length; lia.
Qed.

Lemma loop_counts names strict l : forall st,
  let st' := fold_left (loop_body lower set_iter names strict) l st in
  (passed st' = passed st + count (fun e => snd (fst (check_edge names strict e))) l
   /\ failed st' = failed st + count (fun e => negb (snd (fst (check_edge names strict e)))) l
   /\ downgraded st' = downgraded st + count (fun e => snd (check_edge names strict e)) l
   /\ checked_total st' = checked_total st + Z.of_nat (length l))%Z.
Proof.
  induction l as [|e l IH]; intro st; cbv zeta.
  - unfold count. simpl. repeat split; lia.
  - simpl fold_left. specialize (IH (loop_body lower set_iter names strict st e)).
    cbv zeta in IH. destruct IH as (A & B & C & D).
    rewrite A, B, C, D, !count_cons. unfold loop_body.
    destruct (check_edge names strict e) as [[e' ok] down].
    cbv beta. cbn [passed failed downgraded checked_total fst snd length].
    rewrite Nat2Z.inj_succ.
    destruct ok, down; cbn [negb]; repeat split; lia.
Qed.

Lemma check_edge_flags graph strict e :
  snd (fst (check_edge (node_names (GraphResult.nodes graph)) strict e))
  = Edge.checked (checked_edge graph strict e)
  /\ snd (check_edge (node_names (GraphResult.nodes graph)) strict e)
     = negb (existsb (str_eqb (Edge.relation e)) whitelist).
Proof.
  unfold Checker.checked_edge, Checker.check_edge.
  destruct (EdgeFacts.ensure_id_fields e) as (_ & _ & R & _).
  unfold whitelist_relation. rewrite R.
  destruct (existsb (str_eqb (Edge.relation e)) whitelist); simpl;
    match goal with |- context [apply_verdict strict ?x ?v] =>
      destruct (apply_verdict_frame strict x v) as (_ & _ & _ & _ & _ & _ & C) end;
    rewrite C; auto.
Qed.

(** The summary [run_check] writes: every edge is counted once, as passed
    or as failed; [passed] is the number of edges that leave with
    [checked = true]; [edges_downgraded] is the number of edges that came
    with a relation outside the five kinds; the schema and merge counters
    are not touched. *)
Theorem run_check_summary (graph : GraphResult.t) (strict : bool) :
  let cs := Meta.checker_summary (GraphResult.meta graph) in
  let out := run_check graph strict in
  let cs' := Meta.checker_summary (GraphResult.meta out) in
  (CheckerSummary.edges_checked cs' = Z.of_nat (length (GraphResult.edges graph))
   /\ length (GraphResult.edges out) = length (GraphResult.edges graph)
   /\ CheckerSummary.passed cs' + CheckerSummary.failed cs' = CheckerSummary.edges_checked cs'
   /\ CheckerSummary.edges_failed cs' = CheckerSummary.failed cs'
   /\ CheckerSummary.passed cs' = count Edge.checked (GraphResult.edges out)
   /\ CheckerSummary.failed cs' = count (fun e => negb (Edge.checked e)) (GraphResult.edges out)
   /\ CheckerSummary.edges_downgraded cs'
      = count (fun e => negb (existsb (str_eqb (Edge.relation e)) whitelist))
              (GraphResult.edges graph)
   /\ CheckerSummary.schema_fixed cs' = CheckerSummary.schema_fixed cs
   /\ CheckerSummary.dedup_nodes_merged cs' = CheckerSummary.dedup_nodes_merged cs
   /\ CheckerSummary.dedup_edges_removed cs' = CheckerSummary.dedup_edges_removed cs
   /\ CheckerSummary.conflicts_flagged cs' = CheckerSummary.conflicts_flagged cs)%Z.
Proof.
  cbv zeta.
  pose proof (loop_counts (node_names (GraphResult.nodes graph)) strict
                (GraphResult.edges graph) (mk_loop 0 0 0 0 [])) as L.
  cbv zeta in L. destruct L as (A & B & C & D).
  assert (E1 : forall l,
             count (fun e => snd (fst (check_edge (node_names (GraphResult.nodes graph)) strict e))) l
             = count Edge.checked (map (checked_edge graph strict) l)).
  { intro l. unfold count. rewrite filter_map_length. f_equal. f_equal.
    clear. induction l as [|e l IH]; simpl; [reflexivity|].
    destruct (check_edge_flags graph strict e) as [-> _]. now rewrite IH. }
  assert (E2 : forall l,
             count (fun e => negb (snd (fst (check_edge (node_names (GraphResult.nodes graph)) strict e)))) l
             = count (fun e => negb (Edge.checked e)) (map (checked_edge graph strict) l)).
  { intro l. unfold count. rewrite filter_map_length. f_equal. f_equal.
    clear. induction l as [|e l IH]; simpl; [reflexivity|].
    destruct (check_edge_flags graph strict e) as [-> _]. now rewrite IH. }
  assert (E3 : forall l,
             count (fun e => snd (check_edge (node_names (GraphResult.nodes graph)) strict e)) l
             = count (fun e => negb (existsb (str_eqb (Edge.relation e)) whitelist)) l).
  { intro l. unfold count. f_equal. f_equal.
    clear. induction l as [|e l IH]; simpl; [reflexivity|].
    destruct (check_edge_flags graph strict e) as [_ ->]. now rewrite IH. }
  assert (P : forall l, (count Edge.checked l + count (fun e => negb (Edge.checked e)) l
                         = Z.of_nat (length l))%Z).
  { intro l. induction l as [|e l IH]; [reflexivity|].
    rewrite !count_cons. simpl length. destruct (Edge.checked e); simpl negb; lia. }
  rewrite run_check_edges, length_map. unfold Checker.run_check. simpl.
  rewrite A, B, C, D, E1, E2, E3. simpl.
  specialize (P (map (checked_edge graph strict) (GraphResult.edges graph))).
  rewrite length_map in P. repeat split; lia.
Qed.

(** ** The verdict of [evidence_check] *)

Lemma score_of_range n : 0.55 <= score_of n /\ score_of n <= 1.
Proof.
  unfold score_of.
  assert (Q0 : 0 <= inject_Z (Z.of_nat n)).
  { change 0 with (inject_Z 0). rewrite <- Zle_Qle. lia. }
  set (x := 0.55 + 0.07 * inject_Z (Z.of_nat n)).
  assert (X : 0.55 <= x) by (unfold x; lra).
  destruct (clamp01_cases x) as [[A ->]|[(A & B & ->)|[A ->]]]; lra.
Qed.

Lemma evidence_check_cases (e : Edge.t) (s t : str) :
  let sn := _norm (Evidence.snippet (Edge.evidence e)) in
  let v := evidence_check e s t in
  (fst (fst v) = true <->
     Evidence.title (Edge.evidence e) <> []
     /\ Evidence.snippet (Edge.evidence e) <> []
     /\ strip (Edge.explanation e) <> []
     /\ (_mentions sn (_norm s) = true \/ _mentions sn (_norm t) = true))
  /\ (fst (fst v) = true ->
        0.55 <= snd (fst v) /\ snd (fst v) <= 1 /\ snd v = pass_reason)
  /\ (fst (fst v) = false -> snd (fst v) = 0 \/ snd (fst v) = 0.15).
Proof.
  cbv zeta. unfold Checker.evidence_check.
  destruct (truthy (Evidence.title (Edge.evidence e))) eqn:A; simpl;
    [apply truthy_true in A | apply truthy_false in A].
  2:{ split; [split; [discriminate | intros (H & _); contradiction]|].
      split; [discriminate | auto]. }
  destruct (truthy (Evidence.snippet (Edge.evidence e))) eqn:B; simpl;
    [apply truthy_true in B | apply truthy_false in B].
  2:{ split; [split; [discriminate | intros (_ & H & _); contradiction]|].
      split; [discriminate | auto]. }
  destruct (truthy (strip (Edge.explanation e))) eqn:C; simpl;
    [apply truthy_true in C | apply truthy_false in C].
  2:{ split; [split; [discriminate | intros (_ & _ & H & _); contradiction]|].
      split; [discriminate | auto]. }
  destruct (truthy (_norm (Evidence.snippet (Edge.evidence e)))) eqn:D; simpl.
  - destruct (_mentions _ (_norm s)) eqn:Ms; simpl.
    + split; [split; auto|]. split; [|discriminate].
      intros _. destruct (score_of_range
        (overlap set_iter (_norm (Evidence.snippet (Edge.evidence e)))
                 (_norm (Edge.explanation e)))). auto.
    + destruct (_mentions _ (_norm t)) eqn:Mt; simpl.
      * split; [split; auto|]. split; [|discriminate].
        intros _. destruct (score_of_range
          (overlap set_iter (_norm (Evidence.snippet (Edge.evidence e)))
                   (_norm (Edge.explanation e)))). auto.
      * split; [split; [discriminate | intros (_ & _ & _ & [H|H]); discriminate]|].
        split; [discriminate | auto].
  - apply truthy_false in D.
    split; [split; [discriminate|]|split; [discriminate | auto]].
    intros (_ & _ & _ & [H|H]); apply mentions_nonempty in H; contradiction.
Qed.

(** [evidence_check] passes an edge exactly when title and snippet are
    not empty, the explanation is not blank, and the normalized snippet
    mentions the normalized source name or target name. A passing score
    lies between 0.55 and 1; a failing score is 0 or 0.15. *)
Theorem evidence_check_verdict (e : Edge.t) (s t : str) :
  let sn := _norm (Evidence.snippet (Edge.evidence e)) in
  let v := evidence_check e s t in
  (fst (fst v) = true <->
     Evidence.title (Edge.evidence e) <> []
     /\ Evidence.snippet (Edge.evidence e) <> []
     /\ strip (Edge.explanation e) <> []
     /\ (_mentions sn (_norm s) = true \/ _mentions sn (_norm t) = true))
  /\ (fst (fst v) = true ->
        0.55 <= snd (fst v) /\ snd (fst v) <= 1 /\ snd v = pass_reason)
  /\ (fst (fst v) = false -> snd (fst v) = 0 \/ snd (fst v) = 0.15).
Proof. apply evidence_check_cases. Qed.

(** ** What the verdict does to confidence and explanation *)

(** A failed edge never gains: from a confidence of 0 or more it ends at
    0.45 times that or less, and at exactly 0.45 times that when it came
    from [0,1]. A passed edge that came with 0 or more ends at 0.275 or
    more. *)
Theorem run_check_confidence_moves (graph : GraphResult.t) (strict : bool) :
  Forall2 (fun e e' =>
             (Edge.checked e' = false -> 0 <= Edge.confidence e ->
                Edge.confidence e' <= 0.45 * Edge.confidence e)
             /\ (Edge.checked e' = false ->
                   0 <= Edge.confidence e -> Edge.confidence e <= 1 ->
                   Edge.confidence e' == 0.45 * Edge.confidence e)
             /\ (Edge.checked e' = true -> 0 <= Edge.confidence e ->
                   0.275 <= Edge.confidence e'))
          (GraphResult.edges graph) (GraphResult.edges (run_check graph strict)).
Proof.
  apply run_check_pointwise. intro e. rewrite checked_edge_eq.
  set (v := evidence_check e (source_name graph e) (target_name graph e)).
  destruct (apply_verdict_frame strict (prepared e) v) as (_ & _ & _ & _ & _ & _ & C).
  destruct (prepared_fields e) as (_ & _ & _ & _ & P).
  rewrite C, apply_verdict_confidence, P.
  destruct (evidence_check_cases e (source_name graph e) (target_name graph e))
    as (_ & S & _). cbv zeta in S. fold v in S.
  destruct (fst (fst v)).
  - split; [discriminate|]. split; [discriminate|]. intros _ H.
    destruct (S eq_refl) as (S1 & S2 & _).
    destruct (clamp01_cases ((Edge.confidence e + snd (fst v)) / 2))
      as [[X ->]|[(X & Y & ->)|[X ->]]];
      unfold Qdiv in *; change (/ 2) with (1 # 2) in *; lra.
  - split; [|split; [|discriminate]].
    + intros _ H. destruct (clamp01_cases (Edge.confidence e * 0.45))
        as [[X ->]|[(X & Y & ->)|[X ->]]]; lra.
    + intros _ H H'. destruct (clamp01_cases (Edge.confidence e * 0.45))
        as [[X ->]|[(X & Y & ->)|[X ->]]]; lra.
Qed.

Lemma strip_nil_nonempty (x : str) : strip x <> [] -> x <> [].
Proof. intros H ->. apply H. reflexivity. Qed.

(** In strict mode no edge leaves with an empty explanation: an empty one
    is replaced by the fallback sentence (the edge has failed), and one
    that is not empty is never changed. Outside strict mode the
    explanation is never changed. *)
Theorem run_check_explanation (graph : GraphResult.t) (strict : bool) :
  Forall2 (fun e e' =>
             (Edge.explanation e <> [] \/ strict = false ->
                Edge.explanation e' = Edge.explanation e)
             /\ (strict = true -> Edge.explanation e = [] ->
                   Edge.explanation e' = fallback_explanation /\ Edge.checked e' = false)
             /\ (strict = true -> Edge.explanation e' <> []))
          (GraphResult.edges graph) (GraphResult.edges (run_check graph strict)).
Proof.
  apply run_check_pointwise. intro e. rewrite checked_edge_eq.
  set (v := evidence_check e (source_name graph e) (target_name graph e)).
  destruct (prepared_fields e) as (_ & _ & P & _).
  destruct (evidence_check_cases e (source_name graph e) (target_name graph e))
    as ([V _] & _ & _). cbv zeta in V. fold v in V.
  destruct v as [[ok score] reason]. simpl in V. unfold apply_verdict.
  destruct ok.
  - simpl. rewrite P. destruct (V eq_refl) as (_ & _ & X & _).
    apply strip_nil_nonempty in X.
    split; [auto|]. split; [intros _ H; contradiction | auto].
  - destruct strict; simpl; rewrite ?P.
    + unfold str_or. destruct (Edge.explanation e) as [|c r] eqn:E; simpl.
      * split; [intros [H|H]; [contradiction | discriminate]|].
        split; [auto | intros _; discriminate].
      * split; [auto|]. split; [intros _ H; discriminate | intros _; discriminate].
    + split; [auto|]. split; discriminate.
Qed.

End WithInterpreter.
End CheckerExtra.

(* ================================================================== *)
(** * The shape of normalized strings *)
(* ================================================================== *)

Module NormalForm.
Import Py PyFacts Shape.
Local Open Scope N_scope.

Lemma word_not_space c : is_word c = true -> is_space c = false.
Proof.
  unfold is_word, is_space. intro H.
  repeat rewrite ?orb_true_iff, ?andb_true_iff, ?N.leb_le in H.
  repeat rewrite ?orb_false_iff, ?andb_false_iff, ?N.leb_gt, ?N.eqb_neq.
  lia.
Qed.

Lemma space_is_space : is_space 32 = true.
Proof. reflexivity. Qed.

Lemma starts_with_space_cons c r : starts_with [32] (c :: r) = (c =? 32).
Proof. cbn [starts_with]. rewrite andb_true_r. apply N.eqb_sym. Qed.

(** *** Squeezing runs *)

Section Squeeze.
Variable p : char -> bool.

Lemma squeeze_from_chars b s c :
  In c (squeeze_from p b s) -> c = 32 \/ (In c s /\ p c = false).
Proof.
  revert b. induction s as [|a r IH]; intros b H; simpl in *; [contradiction|].
  destruct (p a) eqn:E.
  - destruct b.
    + destruct (IH _ H) as [?|[? ?]]; auto.
    + destruct H as [<-|H]; [now left|].
      destruct (IH _ H) as [?|[? ?]]; auto.
  - destruct H as [<-|H]; [right; auto|].
    destruct (IH _ H) as [?|[? ?]]; auto.
Qed.

Hypothesis p_space : p 32 = true.

Lemma squeeze_from_single_spaced s : forall b,
  single_spaced (squeeze_from p b s) = true
  /\ (b = true -> starts_with [32] (squeeze_from p b s) = false).
Proof.
  induction s as [|a r IH]; intro b; cbn [squeeze_from]; [auto|].
  destruct (p a) eqn:E.
  - destruct b.
    + apply IH.
    + destruct (IH true) as [S N]. split; [|discriminate].
      specialize (N eq_refl).
      destruct (squeeze_from p true r) as [|x y] eqn:Q; [reflexivity|].
      rewrite starts_with_space_cons in N.
      change (negb ((32 =? 32) && (x =? 32)) && single_spaced (x :: y) = true).
      rewrite N, andb_false_r. exact S.
  - assert (Na : (a =? 32) = false).
    { apply N.eqb_neq. intros ->. congruence. }
    destruct (IH false) as [S _]. split.
    + destruct (squeeze_from p false r) as [|x y] eqn:Q; [reflexivity|].
      change (negb ((a =? 32) && (x =? 32)) && single_spaced (x :: y) = true).
      rewrite Na. exact S.
    + intros _. now rewrite starts_with_space_cons.
Qed.

End Squeeze.

(** A string in which the only characters of the class [p] are single
    spaces is left alone. *)
Lemma squeeze_from_fixed (p : char -> bool) s : forall b,
  (forall c, In c s -> p c = true -> c = 32) ->
  single_spaced s = true ->
  (b = true -> starts_with [32] s = false) ->
  squeeze_from p b s = s.
Proof.
  induction s as [|a r IH]; intros b H S Hb; cbn [squeeze_from]; [reflexivity|].
  assert (Sr : single_spaced r = true).
  { destruct r; [reflexivity|]. cbn [single_spaced] in S. apply andb_true_iff in S. apply S. }
  assert (Hr : forall c, In c r -> p c = true -> c = 32) by (intros; apply H; [now right|assumption]).
  destruct (p a) eqn:E.
  - assert (a = 32) as -> by (apply H; [now left | assumption]).
    destruct b; [specialize (Hb eq_refl); rewrite starts_with_space_cons in Hb; discriminate|].
    f_equal. apply IH; auto. intros _.
    destruct r as [|x y]; [reflexivity|]. cbn [single_spaced] in S.
    rewrite starts_with_space_cons. apply andb_true_iff in S. destruct S as [S _].
    apply negb_true_iff in S. rewrite N.eqb_refl in S. exact S.
  - f_equal. apply IH; auto. discriminate.
Qed.

(** *** Stripping *)

Lemma lstrip_suffix s : exists pre, s = pre ++ lstrip s.
Proof.
  induction s as [|c r (pre & IH)]; simpl; [now exists []|].
  destruct (is_space c).
  - exists (c :: pre). simpl. now rewrite <- IH.
  - now exists [].
Qed.

Lemma lstrip_no_space s : starts_with [32] (lstrip s) = false.
Proof.
  induction s as [|c r IH]; cbn [lstrip]; [reflexivity|].
  destruct (is_space c) eqn:E; [exact IH|].
  rewrite starts_with_space_cons. apply N.eqb_neq. intros ->. discriminate.
Qed.

Lemma strip_infix s : exists pre post, s = pre ++ strip s ++ post.
Proof.
  unfold strip, rstrip.
  destruct (lstrip_suffix s) as (pre & E).
  destruct (lstrip_suffix (rev (lstrip s))) as (post & E').
  exists pre, (rev post). rewrite <- rev_app_distr, <- E', rev_involutive. exact E.
Qed.

Lemma single_spaced_app a b :
  single_spaced (a ++ b) = true -> single_spaced a = true /\ single_spaced b = true.
Proof.
  induction a as [|x a IH]; [cbn; auto|].
  destruct a as [|y a'].
  - cbn [app]. destruct b; [auto|]. cbn [single_spaced].
    intro H. apply andb_true_iff in H. tauto.
  - intro H. change ((x :: y :: a') ++ b) with (x :: y :: (a' ++ b)) in H.
    cbn [single_spaced] in H. apply andb_true_iff in H. destruct H as [H1 H2].
    destruct (IH H2) as [I1 I2]. split; [|exact I2].
    cbn [single_spaced]. rewrite H1. exact I1.
Qed.

Lemma strip_normalized s :
  forallb (fun c => is_word c || (c =? 32)) s = true ->
  single_spaced s = true ->
  normalized (strip s) = true.
Proof.
  intros F S. destruct (strip_infix s) as (pre & post & E).
  unfold normalized. rewrite !andb_true_iff. repeat split.
  - rewrite E, !forallb_app, !andb_true_iff in F. tauto.
  - rewrite E in S. apply single_spaced_app in S. destruct S as [_ S].
    apply single_spaced_app in S. tauto.
  - apply negb_true_iff. unfold strip, rstrip.
    (* the head of [strip s] is the head of [lstrip s] *)
    destruct (lstrip_suffix (rev (lstrip s))) as (q & Q).
    destruct (rev (lstrip (rev (lstrip s)))) as [|c r] eqn:R; [reflexivity|].
    assert (L : lstrip s = (c :: r) ++ rev q).
    { rewrite <- R, <- rev_app_distr, <- Q. now rewrite rev_involutive. }
    pose proof (lstrip_no_space s) as N. rewrite L in N. exact N.
  - apply negb_true_iff. unfold strip, rstrip. rewrite rev_involutive.
    apply lstrip_no_space.
Qed.

Lemma lstrip_fixed s : starts_with [32] s = false ->
  forallb (fun c => is_word c || (c =? 32)) s = true -> lstrip s = s.
Proof.
  destruct s as [|c r]; [reflexivity|]. rewrite starts_with_space_cons.
  cbn [forallb lstrip].
  intros N F. apply andb_true_iff in F. destruct F as [F _].
  rewrite N, orb_false_r in F. now rewrite (word_not_space _ F).
Qed.

Lemma forallb_rev (A : Type) (f : A -> bool) l :
  forallb f (rev l) = forallb f l.
Proof.
  induction l as [|a l IH]; simpl; [reflexivity|].
  rewrite forallb_app, IH. simpl. rewrite andb_true_r. apply andb_comm.
Qed.

Lemma strip_fixed s : normalized s = true -> strip s = s.
Proof.
  unfold normalized. rewrite !andb_true_iff, !negb_true_iff.
  intros [[[F S] H] T]. unfold strip, rstrip.
  rewrite (lstrip_fixed _ H F), lstrip_fixed; [apply rev_involutive | exact T |].
  now rewrite forallb_rev.
Qed.

(** *** The two regular expressions on a normalized string *)

Lemma sub_parens_fixed s : (forall c, In c s -> c <> 40) -> sub_parens s = s.
Proof.
  unfold sub_parens. induction s as [|c r IH]; intro H; cbn [sub_parens_from]; [reflexivity|].
  assert (E : (c =? 40) = false) by (apply N.eqb_neq, H; now left).
  rewrite E. f_equal. apply IH. intros; apply H; now right.
Qed.

Lemma normalized_chars s c :
  normalized s = true -> In c s -> is_word c = true \/ c = 32.
Proof.
  unfold normalized. rewrite !andb_true_iff. intros [[[F _] _] _] H.
  rewrite forallb_forall in F. specialize (F c H).
  apply orb_true_iff in F. rewrite N.eqb_eq in F. exact F.
Qed.

Lemma normalized_fixed s :
  normalized s = true ->
  strip (sub_spaces (sub_nonword (sub_parens s))) = s.
Proof.
  intro Nm. pose proof Nm as Nm'. unfold normalized in Nm'.
  rewrite !andb_true_iff in Nm'. destruct Nm' as [[[F S] H] T].
  rewrite sub_parens_fixed.
  2:{ intros c Hc. destruct (normalized_chars _ _ Nm Hc) as [W| ->]; [|discriminate].
      intros ->. discriminate. }
  unfold sub_nonword, sub_spaces, squeeze.
  rewrite (@squeeze_from_fixed (fun c => negb (is_word c)) s false); [|  | exact S | discriminate].
  2:{ intros c Hc Pc. destruct (normalized_chars _ _ Nm Hc) as [W| ->]; [|reflexivity].
      rewrite W in Pc. discriminate. }
  rewrite (@squeeze_from_fixed is_space s false); [|  | exact S | discriminate].
  2:{ intros c Hc Pc. destruct (normalized_chars _ _ Nm Hc) as [W| ->]; [|reflexivity].
      rewrite (word_not_space _ W) in Pc. discriminate. }
  now apply strip_fixed.
Qed.

(** What [sub_spaces (sub_nonword x)] looks like, for any [x]. *)
Lemma squeezed_shape x :
  forallb (fun c => is_word c || (c =? 32)) (sub_spaces (sub_nonword x)) = true
  /\ single_spaced (sub_spaces (sub_nonword x)) = true.
Proof.
  set (y := sub_nonword x).
  assert (Fy : forall c, In c y -> is_word c = true \/ c = 32).
  { intros c Hc. unfold y, sub_nonword, squeeze in Hc.
    apply squeeze_from_chars in Hc. destruct Hc as [->|[_ Hc]]; [now right|].
    apply negb_false_iff in Hc. now left. }
  assert (Sy : single_spaced y = true).
  { unfold y, sub_nonword, squeeze.
    apply (squeeze_from_single_spaced (fun c => negb (is_word c))). reflexivity. }
  assert (E : sub_spaces y = y).
  { unfold sub_spaces, squeeze. apply squeeze_from_fixed; [|exact Sy|discriminate].
    intros c Hc Pc. destruct (Fy c Hc) as [W| ->]; [|reflexivity].
    rewrite (word_not_space _ W) in Pc. discriminate. }
  rewrite E. split; [|exact Sy].
  apply forallb_forall. intros c Hc. apply orb_true_iff.
  rewrite N.eqb_eq. auto.
Qed.

(** [str.lower] restricted to ASCII fixes a normalized string. *)
Lemma ascii_lower_fixed s : normalized s = true -> ascii_lower s = s.
Proof.
  intro Nm. unfold ascii_lower. rewrite <- (map_id s) at 2.
  apply map_ext_in. intros c Hc.
  destruct (normalized_chars _ _ Nm Hc) as [W| ->]; [|reflexivity].
  unfold is_word in W.
  repeat rewrite ?orb_true_iff, ?andb_true_iff, ?N.leb_le in W.
  destruct ((65 <=? c) && (c <=? 90)) eqn:E; [|reflexivity].
  apply andb_true_iff in E. rewrite !N.leb_le in E. lia.
Qed.

(** The abbreviation table maps to strings that are normalized and are
    not abbreviations themselves. *)
Lemma abbrev_cases s :
  match Dict.get str_eqb Merge._ABBREV s with
  | Some v => normalized v = true /\ Dict.get str_eqb Merge._ABBREV v = None
  | None => True
  end.
Proof.
  unfold Merge._ABBREV. cbn [Dict.get].
  repeat match goal with
         | |- context [str_eqb ?a s] => destruct (str_eqb a s); [split; reflexivity|]
         end.
  exact I.
Qed.

Section WithInterpreter.
Variable lower : str -> str.

Lemma norm_shape (s : str) : normalized (Checker._norm lower s) = true.
Proof.
  unfold Checker._norm.
  destruct (squeezed_shape (sub_parens (lower s))) as [F S].
  now apply strip_normalized.
Qed.

Lemma normalize_name_shape (name : str) :
  normalized (Merge._normalize_name lower name) = true.
Proof.
  unfold Merge._normalize_name.
  set (s := strip (sub_spaces (sub_nonword (sub_parens (lower (strip name)))))).
  assert (Ns : normalized s = true).
  { unfold s. destruct (squeezed_shape (sub_parens (lower (strip name)))) as [F S].
    now apply strip_normalized. }
  unfold Dict.get_or. pose proof (abbrev_cases s) as C.
  destruct (Dict.get str_eqb Merge._ABBREV s); [apply C|].
  exact Ns.
Qed.

(** Whatever [lower] does, [_norm] returns characters of the word class
    separated by single spaces, with no space at either end. *)
Theorem norm_is_normalized (s : str) : normalized (Checker._norm lower s) = true.
Proof. apply norm_shape. Qed.

(** [_normalize_name] returns a string of the same shape, also when it
    answers from the abbreviation table. *)
Theorem normalize_name_is_normalized (name : str) :
  normalized (Merge._normalize_name lower name) = true.
Proof. apply normalize_name_shape. Qed.

(** [str.lower] leaves digits, lowercase ASCII letters, CJK ideographs
    and spaces alone. *)
Hypothesis lower_fixed : forall s, normalized s = true -> lower s = s.

(** Normalizing twice is normalizing once: [_norm] leaves its own
    results alone. *)
Theorem norm_idempotent (s : str) :
  Checker._norm lower (Checker._norm lower s) = Checker._norm lower s.
Proof.
  pose proof (norm_shape s) as N.
  unfold Checker._norm at 1. rewrite (lower_fixed _ N).
  now apply normalized_fixed.
Qed.

(** The same for [_normalize_name]: no expansion of the abbreviation
    table is itself an abbreviation. *)
Theorem normalize_name_idempotent (name : str) :
  Merge._normalize_name lower (Merge._normalize_name lower name)
  = Merge._normalize_name lower name.
Proof.
  pose proof (normalize_name_shape name) as N.
  set (y := Merge._normalize_name lower name) in *.
  unfold Merge._normalize_name at 1.
  rewrite (strip_fixed _ N), (lower_fixed _ N), (normalized_fixed _ N).
  (* [y] is not an abbreviation: it is a value of the table or a string
     the table does not know *)
  unfold y, Merge._normalize_name.
  set (s0 := strip (sub_spaces (sub_nonword (sub_parens (lower (strip name)))))).
  unfold Dict.get_or. pose proof (abbrev_cases s0) as C.
  destruct (Dict.get str_eqb Merge._ABBREV s0) eqn:G.
  - destruct C as [_ C]. now rewrite C.
  - now rewrite G.
Qed.

End WithInterpreter.

Lemma norm_idempotent_witness :
  Checker._norm ascii_lower (Checker._norm ascii_lower (of_string "  Neural  Network (NN)! "))
  = Checker._norm ascii_lower (of_string "  Neural  Network (NN)! ").
Proof. exact (@norm_idempotent ascii_lower ascii_lower_fixed _). Defined.

Lemma normalize_name_idempotent_witness :
  Merge._normalize_name ascii_lower (Merge._normalize_name ascii_lower (of_string " NN "))
  = Merge._normalize_name ascii_lower (of_string " NN ").
Proof. exact (@normalize_name_idempotent ascii_lower ascii_lower_fixed _). Defined.

End NormalForm.

(* ================================================================== *)
(** * More on [merge_synonyms] *)
(* ================================================================== *)

Module MergeExtra.
Import Py PyFacts Num NumFacts Merge MergeProofs MergeShape.
Local Open Scope Q_scope.

Lemma find_snoc (A : Type) (f : A -> bool) l x :
  find f (l ++ [x])
  = match find f l with
    | Some y => Some y
    | None => if f x then Some x else None
    end.
Proof.
  induction l as [|a l IH]; simpl; [reflexivity|].
  now destruct (f a).
Qed.

Lemma find_In_some (A : Type) (f : A -> bool) l x :
  In x l -> f x = true -> exists y, find f l = Some y.
Proof.
  intros Hx Fx. destruct (find f l) as [y|] eqn:E; [now exists y|].
  rewrite (find_none _ _ E _ Hx) in Fx. discriminate.
Qed.

Lemma In_set_entry (K V : Type) (eqb : K -> K -> bool)
    (eqb_eq : forall a b, eqb a b = true <-> a = b) (d : Dict.t K V) k v kv :
  In kv (Dict.set eqb d k v) -> kv = (k, v) \/ In kv d.
Proof.
  induction d as [|[k0 v0] r IH]; simpl.
  - intros [H|[]]; auto.
  - destruct (eqb k0 k) eqn:E; simpl.
    + apply eqb_eq in E. subst k0. intros [H|H]; auto.
    + intros [H|H]; auto. destruct (IH H); auto.
Qed.

Lemma length_set (K V : Type) (eqb : K -> K -> bool) (d : Dict.t K V) k v :
  length (Dict.set eqb d k v)
  = if Dict.mem eqb d k then length d else S (length d).
Proof.
  rewrite <- (length_map fst (Dict.set eqb d k v)), <- (length_map fst d).
  change (length (Dict.keys (Dict.set eqb d k v))
          = if Dict.mem eqb d k then length (Dict.keys d) else S (length (Dict.keys d))).
  rewrite DictFacts.keys_set. destruct (Dict.mem eqb d k); [reflexivity|].
  rewrite length_app. simpl. lia.
Qed.

Section WithInterpreter.
Variable lower : str -> str.
Variable set_iter : list str -> list str.

Local Abbreviation node_key := (MergeShape.node_key lower).
Local Abbreviation first_with_key := (MergeShape.first_with_key lower).
Local Abbreviation node_loop_inv := (MergeShape.node_loop_inv lower).
Local Abbreviation node_step := (Merge.node_step lower).
Local Abbreviation node_loop := (Merge.node_loop lower).
Local Abbreviation absorb := (Merge.absorb set_iter).
Local Abbreviation edge_step := (Merge.edge_step set_iter).
Local Abbreviation edge_loop := (Merge.edge_loop set_iter).
Local Abbreviation conflict_loop := (Merge.conflict_loop set_iter).
Local Abbreviation merge_synonyms := (Merge.merge_synonyms lower set_iter).

(** ** The first loop, node by node *)

Lemma first_with_key_snoc seen n k :
  first_with_key (seen ++ [n]) k
  = match first_with_key seen k with
    | Some y => Some y
    | None => if str_eqb (node_key n) k then Some n else None
    end.
Proof. apply find_snoc. Qed.

Lemma last_with_id_snoc seen n i :
  last_with_id (seen ++ [n]) i
  = if str_eqb (Node.id n) i then Some n else last_with_id seen i.
Proof. unfold last_with_id. rewrite rev_app_distr. reflexivity. Qed.

Lemma last_with_id_In seen i n :
  last_with_id seen i = Some n -> In n seen /\ Node.id n = i.
Proof.
  unfold last_with_id. intro H. apply find_some in H. destruct H as [H E].
  apply in_rev in H. apply str_eqb_eq in E. auto.
Qed.

Lemma first_with_key_stable seen n m :
  In m seen -> first_with_key (seen ++ [n]) (node_key m) = first_with_key seen (node_key m).
Proof.
  intro H. rewrite first_with_key_snoc.
  destruct (@find_In_some _ (fun x => str_eqb (node_key x) (node_key m)) seen m H
              (str_eqb_refl _)) as (y & E).
  unfold MergeShape.first_with_key. now rewrite E.
Qed.

Lemma node_step_loop_inv seen st n :
  node_loop_inv seen st -> node_loop_inv (seen ++ [n]) (node_step st n).
Proof.
  intros (A & B & C & D). unfold Merge.node_step.
  fold (node_key n).
  destruct (Dict.get str_eqb (kept st) (node_key n)) as [first|] eqn:G;
    unfold node_loop_inv; cbn [kept id_map merged_count]; repeat split.
  - intro k. rewrite first_with_key_snoc, <- A.
    destruct (Dict.get str_eqb (kept st) k) eqn:Gk; [reflexivity|].
    destruct (str_eqb (node_key n) k) eqn:E; [|reflexivity].
    apply str_eqb_eq in E. congruence.
  - exact B.
  - rewrite length_app. cbn [length]. lia.
  - intro i. rewrite last_with_id_snoc.
    destruct (str_eqb (Node.id n) i) eqn:E.
    + apply str_eqb_eq in E. subst i.
      rewrite (DictFacts.get_set_same _ str_eqb_eq), first_with_key_snoc, <- A, G.
      reflexivity.
    + assert (N : i <> Node.id n) by (intros ->; rewrite str_eqb_refl in E; discriminate).
      rewrite (DictFacts.get_set_other _ str_eqb_eq) by exact N. rewrite D.
      destruct (last_with_id seen i) as [m|] eqn:L; [|reflexivity].
      apply last_with_id_In in L. destruct L as [L _].
      now rewrite first_with_key_stable.
  - intro k. rewrite first_with_key_snoc, <- A.
    destruct (str_eq_dec k (node_key n)) as [->|N].
    + now rewrite (DictFacts.get_set_same _ str_eqb_eq), G, str_eqb_refl.
    + rewrite (DictFacts.get_set_other _ str_eqb_eq) by exact N.
      destruct (Dict.get str_eqb (kept st) k); [reflexivity|].
      destruct (str_eqb (node_key n) k) eqn:E; [|reflexivity].
      apply str_eqb_eq in E. congruence.
  - now apply (DictFacts.NoDup_keys_set _ str_eqb_eq).
  - rewrite length_set. unfold Dict.mem. rewrite G, length_app. cbn [length]. lia.
  - intro i. rewrite last_with_id_snoc.
    destruct (str_eqb (Node.id n) i) eqn:E.
    + apply str_eqb_eq in E. subst i.
      rewrite (DictFacts.get_set_same _ str_eqb_eq), first_with_key_snoc, <- A, G.
      now rewrite str_eqb_refl.
    + assert (N : i <> Node.id n) by (intros ->; rewrite str_eqb_refl in E; discriminate).
      rewrite (DictFacts.get_set_other _ str_eqb_eq) by exact N. rewrite D.
      destruct (last_with_id seen i) as [m|] eqn:L; [|reflexivity].
      apply last_with_id_In in L. destruct L as [L _].
      now rewrite first_with_key_stable.
Qed.

Lemma node_loop_loop_inv nodes : node_loop_inv nodes (node_loop nodes).
Proof.
  induction nodes as [|n l IH] using rev_ind.
  - repeat split; try reflexivity. constructor.
  - unfold Merge.node_loop. rewrite fold_left_app. now apply node_step_loop_inv.
Qed.

(** The output nodes are the first node of every key: a node is returned
    exactly when it is the first node of the input filed under its key, no
    two output nodes share a key, and [nodes_merged] counts the input
    nodes that were not returned. *)
Theorem merge_keeps_first_node_of_each_key (nodes : list Node.t) (edges : list Edge.t) :
  let out_nodes := fst (fst (merge_synonyms nodes edges)) in
  let stats := snd (merge_synonyms nodes edges) in
  (forall m, In m out_nodes <-> first_with_key nodes (node_key m) = Some m)
  /\ NoDup (map node_key out_nodes)
  /\ (Z.of_nat (length out_nodes) + nodes_merged stats = Z.of_nat (length nodes))%Z.
Proof.
  cbv zeta. unfold Merge.merge_synonyms. cbn [fst snd nodes_merged].
  destruct (node_loop_loop_inv nodes) as (A & B & C & _).
  assert (K : forall k m, In (k, m) (kept (node_loop nodes)) -> node_key m = k).
  { intros k m H. apply (DictFacts.In_get _ str_eqb_eq _ _ _ B) in H.
    rewrite A in H. apply find_some in H. destruct H as [_ H].
    now apply str_eqb_eq in H. }
  repeat split.
  - intro H. unfold Dict.values in H. apply in_map_iff in H.
    destruct H as ([k m'] & E & H). simpl in E. subst m'.
    rewrite <- A. rewrite (K _ _ H).
    now apply (DictFacts.In_get _ str_eqb_eq).
  - intro H. rewrite <- A in H. eapply DictFacts.get_In_values. exact H.
  - unfold Dict.values. rewrite map_map.
    rewrite (map_ext_in (fun x => node_key (snd x)) fst); [exact B|].
    intros [k m] H. simpl. now apply K.
  - unfold Dict.values. rewrite length_map. exact C.
Qed.

(** The id map sends an id to the id of the kept node of its key: the
    key is that of the last input node with this id, the kept node is the
    first input node with that key. Ids of no input node are not mapped. *)
Theorem id_map_points_to_first_of_key (nodes : list Node.t) (i : str) :
  Dict.get str_eqb (id_map (node_loop nodes)) i
  = match last_with_id nodes i with
    | None => None
    | Some n => option_map Node.id (first_with_key nodes (node_key n))
    end.
Proof. apply node_loop_loop_inv. Qed.

(** ** The second and third loops: one entry per key *)

Lemma key_of_absorb win lose : key_of (absorb win lose) = key_of win.
Proof.
  unfold key_of. destruct (absorb_fields set_iter win lose) as (_ & -> & -> & -> & _).
  reflexivity.
Qed.

Lemma key_of_mark_conflict e : key_of (mark_conflict e) = key_of e.
Proof.
  unfold key_of. destruct (mark_conflict_fields e) as (_ & -> & -> & -> & _).
  reflexivity.
Qed.

Lemma entries_inv_set d k e :
  entries_inv d -> key_of e = k -> entries_inv (Dict.set key_eqb d k e).
Proof.
  intros [N E] H. split; [now apply (DictFacts.NoDup_keys_set _ key_eqb_eq)|].
  intros k' e' Hin. apply (In_set_entry _ key_eqb_eq) in Hin.
  destruct Hin as [[= -> ->]|Hin]; auto.
Qed.

Lemma edge_step_entries idm seen st e :
  entries_inv (out_edges st) ->
  (Z.of_nat (length (out_edges st)) + removed_count st = Z.of_nat (length seen))%Z ->
  entries_inv (out_edges (edge_step idm st e))
  /\ (Z.of_nat (length (out_edges (edge_step idm st e)))
      + removed_count (edge_step idm st e)
      = Z.of_nat (length (seen ++ [e])))%Z.
Proof.
  intros I C. unfold Merge.edge_step. rewrite length_app. cbn [length].
  destruct (Dict.get key_eqb (out_edges st) (key_of (remap idm e))) as [cur|] eqn:G.
  - assert (Kc : key_of cur = key_of (remap idm e)).
    { destruct I as [_ I]. apply I. now apply (DictFacts.get_In _ key_eqb_eq). }
    destruct (Qle_bool (Edge.confidence (remap idm e)) (Edge.confidence cur));
      cbn [out_edges removed_count]; rewrite length_set; unfold Dict.mem; rewrite G;
      (split; [apply entries_inv_set; [exact I | rewrite key_of_absorb; auto] | lia]).
  - cbn [out_edges removed_count]. rewrite length_set. unfold Dict.mem. rewrite G.
    split; [now apply entries_inv_set | lia].
Qed.

Lemma edge_loop_entries idm edges :
  entries_inv (out_edges (edge_loop idm edges))
  /\ (Z.of_nat (length (out_edges (edge_loop idm edges)))
      + removed_count (edge_loop idm edges)
      = Z.of_nat (length edges))%Z.
Proof.
  induction edges as [|e l [I C]] using rev_ind.
  - repeat split; [constructor | contradiction].
  - rewrite edge_loop_snoc. now apply edge_step_entries.
Qed.

(** What holds of the dict before the conflict loop and survives the
    replacement of an entry by its marked version holds after it. *)
Lemma conflict_loop_invariant (I : Dict.t edge_key Edge.t -> Prop) out :
  (forall d k e, I d -> Dict.get key_eqb d k = Some e ->
     I (Dict.set key_eqb d k (mark_conflict e))) ->
  I out -> I (marked_edges (conflict_loop out)).
Proof.
  intros Step. unfold Merge.conflict_loop.
  assert (G : forall items st, I (marked_edges st) ->
            I (marked_edges (fold_left (pair_step set_iter) items st))).
  { induction items as [|[p rels] items IH]; intros st H; simpl; [assumption|].
    apply IH. destruct (Nat.leb (length rels) 1); [assumption|].
    clear IH. revert st H. induction (set_iter rels) as [|r rs IHr]; intros st H; simpl.
    - assumption.
    - apply IHr. unfold conflict_step.
      destruct (Dict.get key_eqb (marked_edges st) (p, r)) as [e|] eqn:E; [|assumption].
      simpl. now apply Step. }
  intro H. now apply G.
Qed.

(** No two output edges share (source, target, relation), and
    [edges_removed] counts the input edges that were folded into
    another one. *)
Theorem merge_keeps_one_edge_per_key (nodes : list Node.t) (edges : list Edge.t) :
  let out_edges := snd (fst (merge_synonyms nodes edges)) in
  let stats := snd (merge_synonyms nodes edges) in
  NoDup (map key_of out_edges)
  /\ (Z.of_nat (length out_edges) + edges_removed stats = Z.of_nat (length edges))%Z.
Proof.
  cbv zeta. unfold Merge.merge_synonyms. cbn [fst snd edges_removed].
  set (idm := id_map (node_loop nodes)).
  destruct (edge_loop_entries idm edges) as [I C].
  set (out := Merge.out_edges (edge_loop idm edges)) in *.
  assert (J : entries_inv (marked_edges (conflict_loop out))
              /\ length (marked_edges (conflict_loop out)) = length out).
  { apply (conflict_loop_invariant
             (fun d => entries_inv d /\ length d = length out)); [|auto].
    intros d k e [Hd Hl] G. split.
    - apply entries_inv_set; [exact Hd|]. rewrite key_of_mark_conflict.
      destruct Hd as [_ Hd]. apply Hd. now apply (DictFacts.get_In _ key_eqb_eq).
    - rewrite length_set. unfold Dict.mem. now rewrite G. }
  destruct J as [[N E] L]. split.
  - unfold Dict.values. rewrite map_map.
    rewrite (map_ext_in (fun x => key_of (snd x)) fst); [exact N|].
    intros [k e] H. simpl. now apply E.
  - unfold Dict.values. rewrite length_map, L. exact C.
Qed.

(** ** The survivor of a group of duplicates *)

Lemma spec_dedup_rule_confidence cur e :
  Edge.confidence (spec_dedup_rule set_iter cur e)
  = if Qltb (Edge.confidence cur) (Edge.confidence e)
    then Edge.confidence e else Edge.confidence cur.
Proof.
  unfold spec_dedup_rule.
  now destruct (Qltb (Edge.confidence cur) (Edge.confidence e)).
Qed.

Lemma fold_dedup_confidence rest : forall first,
  Forall (fun e => Edge.confidence e
                   <= Edge.confidence (fold_left (spec_dedup_rule set_iter) rest first))
         (first :: rest)
  /\ Exists (fun e => Edge.confidence (fold_left (spec_dedup_rule set_iter) rest first)
                      = Edge.confidence e)
            (first :: rest).
Proof.
  induction rest as [|e r IH]; intro first; simpl.
  - split; [repeat constructor; apply Qle_refl | now constructor].
  - destruct (IH (spec_dedup_rule set_iter first e)) as [F X].
    set (s := fold_left (spec_dedup_rule set_iter) r (spec_dedup_rule set_iter first e)) in *.
    inversion F as [|? ? Hh Ht]; subst.
    rewrite spec_dedup_rule_confidence in Hh.
    destruct (Qltb (Edge.confidence first) (Edge.confidence e)) eqn:L.
    + apply Qltb_lt in L. split.
      * constructor; [|constructor; assumption].
        apply Qle_trans with (Edge.confidence e); [now apply Qlt_le_weak | assumption].
      * inversion X as [? ? Hx|? ? Hx]; subst.
        -- rewrite spec_dedup_rule_confidence, (proj2 (Qltb_lt _ _) L) in Hx.
           apply Exists_cons_tl. now apply Exists_cons_hd.
        -- now do 2 apply Exists_cons_tl.
    + pose proof L as L'. apply Qltb_ge in L'. split.
      * constructor; [assumption|]. constructor; [|assumption].
        now apply Qle_trans with (Edge.confidence first).
      * inversion X as [? ? Hx|? ? Hx]; subst.
        -- rewrite spec_dedup_rule_confidence, L in Hx. now apply Exists_cons_hd.
        -- now do 2 apply Exists_cons_tl.
Qed.

(** After the second loop the entry of a key carries the highest
    confidence found among the input edges of that key, and a key has an
    entry exactly when some input edge has it. *)
Theorem dedup_survivor_has_highest_confidence
    (idm : Dict.t str str) (edges : list Edge.t) (k : edge_key) :
  match Dict.get key_eqb (out_edges (edge_loop idm edges)) k with
  | Some s =>
      Forall (fun e => Edge.confidence e <= Edge.confidence s) (group_of idm edges k)
      /\ Exists (fun e => Edge.confidence s = Edge.confidence e) (group_of idm edges k)
  | None => group_of idm edges k = []
  end.
Proof.
  rewrite edge_loop_by_group.
  destruct (group_of idm edges k) as [|first rest]; [reflexivity|].
  apply fold_dedup_confidence.
Qed.

(** ** What the merge never touches *)

Lemma same_statement_refl e : same_statement e e.
Proof. repeat split. Qed.

Lemma same_statement_trans a b c :
  same_statement a b -> same_statement b c -> same_statement a c.
Proof.
  unfold same_statement. intros H1 H2.
  decompose [and] H1. decompose [and] H2. repeat split; congruence.
Qed.

Lemma absorb_same_statement win lose : same_statement (absorb win lose) win.
Proof.
  unfold Merge.absorb.
  destruct (truthy (Evidence.snippet (Edge.evidence lose)) && _); repeat split.
Qed.

Lemma mark_conflict_same_statement e : same_statement (mark_conflict e) e.
Proof. unfold mark_conflict. destruct (has_conflict_flag e); repeat split. Qed.

(** Every output edge is an input edge with its endpoints rewritten and
    its id filled in: the merge can change the snippet, the confidence and
    the flags of an edge and nothing else, and it invents no edge. *)
Theorem merge_output_edges_come_from_input (nodes : list Node.t) (edges : list Edge.t) :
  Forall (fun e => exists e0, In e0 edges
                   /\ same_statement e (remap (id_map (node_loop nodes)) e0))
         (snd (fst (merge_synonyms nodes edges))).
Proof.
  unfold Merge.merge_synonyms. cbn [fst snd].
  set (idm := id_map (node_loop nodes)).
  apply conflict_loop_preserves.
  - intros e (e0 & H0 & S). exists e0. split; [exact H0|].
    eapply same_statement_trans; [apply mark_conflict_same_statement | exact S].
  - apply edge_loop_preserves.
    + intros w l (e0 & H0 & S). exists e0. split; [exact H0|].
      eapply same_statement_trans; [apply absorb_same_statement | exact S].
    + intros e He. exists e. split; [exact He | apply same_statement_refl].
Qed.

(** ** The count of conflicts *)

Lemma conflict_loop_steps items : forall st,
  fold_left (pair_step set_iter) items st
  = fold_left (fun st k => conflict_step (fst k) st (snd k))
              (Merge.visited set_iter items) st.
Proof.
  induction items as [|[p rels] items IH]; intro st; simpl; [reflexivity|].
  rewrite IH, fold_left_app. f_equal.
  destruct (Nat.leb (length rels) 1); [reflexivity|].
  generalize (set_iter rels). intro l. revert st.
  induction l as [|r l IHl]; intro st; simpl; [reflexivity|].
  now rewrite IHl.
Qed.

Lemma conflict_steps_count l : forall st,
  NoDup l ->
  flagged_count (fold_left (fun st k => conflict_step (fst k) st (snd k)) l st)
  = (flagged_count st
     + Shape.count (fun k => match Dict.get key_eqb (marked_edges st) k with
                             | Some e => negb (has_conflict_flag e)
                             | None => false
                             end) l)%Z.
Proof.
  unfold Shape.count.
  induction l as [|k l IH]; intros st ND; simpl fold_left.
  - simpl. lia.
  - inversion ND as [|? ? Hk Hl]; subst. rewrite IH by assumption.
    assert (Same : forall k', In k' l ->
              Dict.get key_eqb (marked_edges (conflict_step (fst k) st (snd k))) k'
              = Dict.get key_eqb (marked_edges st) k').
    { intros k' Hk'. unfold conflict_step. rewrite <- surjective_pairing.
      destruct (Dict.get key_eqb (marked_edges st) k); [|reflexivity].
      simpl. apply (DictFacts.get_set_other _ key_eqb_eq). intros ->. contradiction. }
    rewrite (filter_ext_in _ (fun k' => match Dict.get key_eqb (marked_edges st) k' with
                                        | Some e => negb (has_conflict_flag e)
                                        | None => false
                                        end) l).
    2:{ intros k' Hk'. now rewrite Same. }
    unfold conflict_step at 1. rewrite <- surjective_pairing.
    cbn [filter].
    destruct (Dict.get key_eqb (marked_edges st) k) as [e|]; [|lia].
    cbn [flagged_count]. destruct (has_conflict_flag e); cbn [negb length]; lia.
Qed.

Lemma filter_length_permutation (A : Type) (f : A -> bool) l l' :
  Permutation l l' -> length (filter f l) = length (filter f l').
Proof.
  induction 1; simpl; try congruence.
  - destruct (f x); simpl; congruence.
  - destruct (f x), (f y); reflexivity.
Qed.

Lemma filter_twice (A : Type) (f g : A -> bool) l :
  filter g (filter f l) = filter (fun x => f x && g x) l.
Proof.
  induction l as [|a l IH]; simpl; [reflexivity|].
  destruct (f a); simpl; [destruct (g a)|]; now rewrite IH.
Qed.

Lemma filter_map_fst_length (A B : Type) (f : A -> bool) (l : list (A * B)) :
  length (filter f (map fst l)) = length (filter (fun kv => f (fst kv)) l).
Proof.
  induction l as [|a l IH]; simpl; [reflexivity|].
  destruct (f (fst a)); simpl; now rewrite IH.
Qed.

Hypothesis set_iter_perm : forall l, Permutation (set_iter l) l.

Lemma visited_permutation out :
  NoDup (Dict.keys out) ->
  Permutation (Merge.visited set_iter (by_pair_of out))
              (filter (in_conflict out) (Dict.keys out)).
Proof.
  intro ND. destruct (by_pair_of_inv lower out) as [NB I].
  apply NoDup_Permutation.
  - apply (NoDup_visited set_iter set_iter_perm); [assumption | intro p; apply I].
  - now apply NoDup_filter.
  - intros [p rel]. rewrite filter_In.
    assert (V : In (p, rel) (Merge.visited set_iter (by_pair_of out))
                -> In (p, rel) (Dict.keys out)).
    { intro H. apply (In_visited set_iter set_iter_perm) in H; [|assumption].
      apply (proj2 (I p)). apply H. }
    split.
    + intro H. split; [now apply V|].
      rewrite <- (visited_is_in_conflict lower set_iter set_iter_perm) by now apply V.
      apply existsb_exists. exists (p, rel).
      split; [assumption | apply (DictFacts.eqb_refl _ key_eqb_eq)].
    + intros [H C]. rewrite <- (visited_is_in_conflict lower set_iter set_iter_perm) in C by assumption.
      apply existsb_exists in C. destruct C as (y & Hy & E).
      apply key_eqb_eq in E. now subst y.
Qed.

(** [conflicts_flagged] is the number of deduplicated edges that share
    their (source, target) pair with an edge of another relation and did
    not carry the flag "conflict" already. *)
Theorem conflicts_flagged_counts_new_flags (nodes : list Node.t) (edges : list Edge.t) :
  let deduped := out_edges (edge_loop (id_map (node_loop nodes)) edges) in
  conflicts_flagged (snd (merge_synonyms nodes edges))
  = Shape.count (newly_flagged deduped) deduped.
Proof.
  cbv zeta. unfold Merge.merge_synonyms. cbn [snd conflicts_flagged].
  set (out := out_edges (edge_loop (id_map (node_loop nodes)) edges)).
  assert (ND : NoDup (Dict.keys out)) by apply edge_loop_keys_nodup.
  unfold Merge.conflict_loop. rewrite conflict_loop_steps.
  destruct (by_pair_of_inv lower out) as [NB I].
  rewrite conflict_steps_count
    by (apply (NoDup_visited set_iter set_iter_perm); [assumption | intro p; apply I]).
  cbn [flagged_count marked_edges]. unfold Shape.count.
  rewrite (filter_length_permutation _ (@visited_permutation out ND)).
  rewrite filter_twice. unfold Dict.keys. rewrite filter_map_fst_length, Z.add_0_l.
  do 2 f_equal. apply filter_ext_in. intros [k e] H. unfold newly_flagged. simpl.
  now rewrite (DictFacts.In_get _ key_eqb_eq _ _ _ ND H).
Qed.

End WithInterpreter.

Lemma conflicts_flagged_counts_new_flags_witness :
  conflicts_flagged (snd (run_sample conflicting_edges))
  = Shape.count
      (newly_flagged (out_edges (Merge.edge_loop (fun l => l) sample_id_map conflicting_edges)))
      (out_edges (Merge.edge_loop (fun l => l) sample_id_map conflicting_edges)).
Proof.
  exact (@conflicts_flagged_counts_new_flags ascii_lower (fun l => l)
           (fun l => Permutation_refl l) sample_nodes conflicting_edges).
Defined.

End MergeExtra.

(* ================================================================== *)
(** * More on [light_fix] *)
(* ================================================================== *)

Module SchemaExtra.
Import Py PyFacts Json SchemaValidate SchemaProofs.
Local Open Scope Z_scope.
Local Open Scope string_scope.

Lemma get_setdefault_present d k k' v :
  has d k' = true -> get (setdefault d k v) k' = get d k'.
Proof.
  intro H. rewrite setdefault_unfold. destruct (has d k) eqn:E; [reflexivity|].
  destruct (str_eq_dec (of_string k) (of_string k')) as [Q|N].
  - unfold has, key in *. rewrite Q in E. congruence.
  - now apply get_put_other.
Qed.

Lemma required_put_same d k v p : required (put d k v) k p = p v.
Proof. unfold required. now rewrite lookup_put_same. Qed.

Lemma required_put_other d k k' v p :
  of_string k <> of_string k' -> required (put d k v) k' p = required d k' p.
Proof. intro N. unfold required. now rewrite lookup_put_other. Qed.

Lemma optional_put_same d k v p : optional (put d k v) k p = p v.
Proof. unfold optional. now rewrite lookup_put_same. Qed.

Lemma optional_put_other d k k' v p :
  of_string k <> of_string k' -> optional (put d k v) k' p = optional d k' p.
Proof. intro N. unfold optional. now rewrite lookup_put_other. Qed.

Lemma required_get d k p : required d k p = true -> p (get d k) = true.
Proof.
  unfold required, get. now destruct (Dict.get value_eqb d (key k)).
Qed.

Lemma required_has d k p : required d k p = true -> has d k = true.
Proof.
  unfold required, has, Dict.mem. now destruct (Dict.get value_eqb d (key k)).
Qed.

Ltac field_simp :=
  repeat first
    [ rewrite required_put_same | rewrite optional_put_same
    | rewrite required_put_other by distinct_keys
    | rewrite optional_put_other by distinct_keys ].

(** The three defaults written into [meta] are never counted: each test
    is made after its own [setdefault]. *)
Lemma meta_count_zero m : snd (meta_with_defaults m) = 0.
Proof.
  unfold meta_with_defaults, count_missing. cbn [snd].
  rewrite has_setdefault_same.
  rewrite has_setdefault_same.
  rewrite has_setdefault_same. reflexivity.
Qed.

Lemma get_with_defaults_meta g :
  or_else (get (with_defaults g) "meta") (VDict []) = or_else (get g "meta") (VDict []).
Proof.
  unfold with_defaults. rewrite setdefault_unfold.
  destruct (has (setdefault (setdefault (setdefault g "concept" _) "nodes" _) "edges" _)
                "meta") eqn:E.
  - now rewrite !get_setdefault_other by distinct_keys.
  - rewrite get_put_same. rewrite !has_setdefault_other in E by distinct_keys.
    now rewrite (or_else_missing _ _ _ E).
Qed.

Lemma count_missing_range d k : 0 <= count_missing d k <= 1.
Proof. unfold count_missing. destruct (has d k); lia. Qed.

Lemma missing_top_level_range g : 0 <= missing_top_level g <= 4.
Proof.
  unfold missing_top_level.
  pose proof (count_missing_range g "concept"). pose proof (count_missing_range g "nodes").
  pose proof (count_missing_range g "edges"). pose proof (count_missing_range g "meta").
  lia.
Qed.

Lemma fill_evidence_count ev inferred : 0 <= snd (fill_evidence ev inferred) <= 3.
Proof.
  unfold fill_evidence.
  destruct (has ev "title"); cbv beta iota zeta;
    match goal with |- context [if has ?d "snippet" then _ else _] =>
      destruct (has d "snippet") end;
    cbv beta iota zeta;
    match goal with |- context [if has ?d "url" then _ else _] =>
      destruct (has d "url") end;
    match goal with |- context [if has ?d "domain" then _ else _] =>
      destruct (has d "domain") end;
    cbn [snd]; lia.
Qed.

Section WithLibraries.
Variable py_str : value -> str.

Local Abbreviation fix_evidence := (SchemaValidate.fix_evidence py_str).
Local Abbreviation fix_edge := (SchemaValidate.fix_edge py_str).
Local Abbreviation fix_edges := (SchemaValidate.fix_edges py_str).
Local Abbreviation light_fix := (SchemaValidate.light_fix py_str).

Ltac dict_simp :=
  repeat first
    [ rewrite get_put_same | rewrite has_put_same | rewrite has_setdefault_same
    | rewrite get_put_other by distinct_keys
    | rewrite has_put_other by distinct_keys
    | rewrite get_setdefault_other by distinct_keys
    | rewrite has_setdefault_other by distinct_keys ].

Lemma fix_evidence_count nd ee : 0 <= snd (fix_evidence nd ee) <= 3.
Proof. unfold SchemaValidate.fix_evidence. apply fill_evidence_count. Qed.

Lemma fix_edge_count nd e : 0 <= snd (fix_edge nd e) <= 5.
Proof.
  unfold SchemaValidate.fix_edge.
  destruct (negb (has e "flags") || negb (is_list (get e "flags")));
    cbv beta iota zeta;
    match goal with |- context [SchemaValidate.fix_evidence py_str nd ?x] =>
      pose proof (fix_evidence_count nd x);
      destruct (SchemaValidate.fix_evidence py_str nd x) as [ev m] end;
    cbv beta iota zeta; cbn [snd] in *;
    match goal with |- context [needs_id ?x] => destruct (needs_id x) end;
    cbn [snd]; lia.
Qed.

Lemma fix_edges_count nd es :
  0 <= snd (fix_edges nd es) <= 5 * Shape.count is_dict es.
Proof.
  unfold Shape.count.
  induction es as [|v r IH]; cbn [SchemaValidate.fix_edges]; [simpl; lia|].
  destruct v; cbn [filter is_dict]; try exact IH.
  pose proof (fix_edge_count nd d) as C.
  destruct (SchemaValidate.fix_edge py_str nd d) as [ee n].
  destruct (SchemaValidate.fix_edges py_str nd r) as [out m].
  cbn [snd length] in *. lia.
Qed.

(** ** What the repaired dict looks like *)

(** A run of [light_fix] that returns gives a dict with the four
    top-level keys, whose "meta" is a dict with its three keys and whose
    "edges" is a list of edge dicts that each carry a list under "flags",
    a "check_reason", and an evidence dict with its four keys. *)
Theorem light_fix_result_is_complete (g g' : dict) (errors : list str) (n : Z) :
  light_fix g errors = Some (g', n) ->
  has g' "concept" = true /\ has g' "nodes" = true
  /\ has g' "edges" = true /\ has g' "meta" = true
  /\ (exists m, get g' "meta" = VDict m
        /\ has m "generated_at" = true /\ has m "version" = true
        /\ has m "checker_summary" = true)
  /\ (exists es, get g' "edges" = VList es /\ Forall repaired_entry es).
Proof.
  intro H. apply light_fix_inv in H.
  destruct H as (meta & ns & es & M & Ns & Es & -> & _).
  destruct (has_with_defaults g) as (A & B & C & D).
  destruct (has_meta_with_defaults meta) as (M1 & M2 & M3).
  repeat split.
  - now do 2 apply has_put_mono.
  - now do 2 apply has_put_mono.
  - apply has_put_same.
  - apply has_put_mono, has_put_same.
  - exists (fst (meta_with_defaults meta)). now dict_simp.
  - eexists. split; [apply get_put_same | apply fix_edges_repaired].
Qed.

(** ** What is counted *)

(** The count that [light_fix] returns is the number of missing
    top-level keys plus what the loop over the edges counted, at most five
    per edge dict; the defaults written into "meta" add nothing to it. *)
Theorem light_fix_count (g g' : dict) (errors : list str) (n : Z) :
  light_fix g errors = Some (g', n) ->
  exists ns es,
    py_list (or_else (get g "nodes") (VList [])) = Some ns
    /\ edge_entries g = Some es
    /\ n = missing_top_level g
           + snd (fix_edges (fold_left (node_domain_step py_str) ns []) es)
    /\ 0 <= n <= 4 + 5 * Shape.count is_dict es.
Proof.
  intro H. apply light_fix_inv in H.
  destruct H as (meta & ns & es & M & Ns & Es & _ & ->).
  exists ns, es. rewrite meta_count_zero, Z.add_0_r.
  pose proof (missing_top_level_range g).
  pose proof (fix_edges_count (fold_left (node_domain_step py_str) ns []) es).
  repeat split; auto; lia.
Qed.

(** ** When it raises *)

(** [light_fix] raises exactly when the value under "meta" is truthy and
    [dict()] rejects it, or the value under "nodes" or "edges" is truthy
    and [list()] rejects it. *)
Theorem light_fix_raises_iff (g : dict) (errors : list str) :
  light_fix g errors = None
  <-> py_dict (or_else (get g "meta") (VDict [])) = None
      \/ py_list (or_else (get g "nodes") (VList [])) = None
      \/ py_list (or_else (get g "edges") (VList [])) = None.
Proof.
  unfold SchemaValidate.light_fix. rewrite get_with_defaults_meta.
  destruct (py_dict (or_else (get g "meta") (VDict []))) as [meta|] eqn:M;
    [|split; auto].
  destruct (meta_with_defaults meta) as [meta' nm] eqn:MW.
  rewrite (get_put_other _ "meta" "nodes") by distinct_keys.
  rewrite (get_put_other _ "meta" "edges") by distinct_keys.
  rewrite get_with_defaults_nodes, get_with_defaults_edges.
  destruct (py_list (or_else (get g "nodes") (VList []))) as [ns|] eqn:Ns;
    [|split; auto].
  destruct (py_list (or_else (get g "edges") (VList []))) as [es|] eqn:Es;
    [|split; auto].
  destruct (SchemaValidate.fix_edges py_str (fold_left (node_domain_step py_str) ns []) es)
    as [fixed k].
  split; [discriminate|]. intros [H|[H|H]]; discriminate.
Qed.

(** ** What is never overwritten *)

(** At the top level [light_fix] rewrites "meta" and "edges" only: every
    other key the draft has keeps its value, and every key the draft's
    "meta" dict has keeps its value in the repaired "meta". *)
Theorem light_fix_keeps_existing_values (g g' : dict) (errors : list str) (n : Z) :
  light_fix g errors = Some (g', n) ->
  (forall k, of_string k <> of_string "meta" -> of_string k <> of_string "edges" ->
     has g k = true -> get g' k = get g k)
  /\ (forall m k, get g "meta" = VDict m -> has m k = true ->
        exists m', get g' "meta" = VDict m' /\ get m' k = get m k).
Proof.
  intro H. apply light_fix_inv in H.
  destruct H as (meta & ns & es & M & Ns & Es & -> & _). split.
  - intros k N1 N2 Hk.
    rewrite get_put_other by congruence. rewrite get_put_other by congruence.
    unfold with_defaults.
    rewrite !get_setdefault_present; auto using has_setdefault_mono.
  - intros m k Gm Hk. exists (fst (meta_with_defaults meta)). split; [now dict_simp|].
    rewrite get_with_defaults_meta, Gm in M. unfold or_else in M.
    rewrite (has_nonempty _ _ Hk) in M. simpl in M. injection M as <-.
    unfold meta_with_defaults. cbn [fst].
    rewrite !get_setdefault_present; auto using has_setdefault_mono.
Qed.

(** The loop body writes under "flags", "check_reason", "evidence" and
    "id" only, and it keeps a list found under "flags", a value found
    under "check_reason", a truthy "id", and every key the evidence dict
    already has. *)
Theorem fix_edge_keeps_existing_values (nd : Dict.t str str) (e : dict) :
  (forall k, of_string k <> of_string "flags" -> of_string k <> of_string "check_reason" ->
     of_string k <> of_string "evidence" -> of_string k <> of_string "id" ->
     get (fst (fix_edge nd e)) k = get e k)
  /\ (is_list (get e "flags") = true -> get (fst (fix_edge nd e)) "flags" = get e "flags")
  /\ (has e "check_reason" = true ->
      get (fst (fix_edge nd e)) "check_reason" = get e "check_reason")
  /\ (truthy (get e "id") = true -> get (fst (fix_edge nd e)) "id" = get e "id")
  /\ (forall ev k, get e "evidence" = VDict ev -> has ev k = true ->
        exists ev', get (fst (fix_edge nd e)) "evidence" = VDict ev'
                    /\ get ev' k = get ev k).
Proof.
  rewrite fix_edge_fst.
  set (ee1 := if negb (has e "flags") || negb (is_list (get e "flags"))
              then put e "flags" (VList []) else e).
  set (ee2 := setdefault ee1 "check_reason" VNone).
  set (ev2 := fst (fix_evidence nd ee2)).
  set (ee3 := put ee2 "evidence" (VDict ev2)).
  set (new_id := VStr (_sha (py_str (get ee3 "source")) (py_str (get ee3 "relation"))
                            (py_str (get ee3 "target")))).
  assert (O1 : forall k, of_string "flags" <> of_string k -> get ee1 k = get e k).
  { intros k N. unfold ee1.
    destruct (negb (has e "flags") || negb (is_list (get e "flags"))); [|reflexivity].
    now apply get_put_other. }
  assert (O3 : forall k, of_string "flags" <> of_string k ->
                 of_string "check_reason" <> of_string k ->
                 of_string "evidence" <> of_string k -> get ee3 k = get e k).
  { intros k N1 N2 N3. unfold ee3, ee2.
    rewrite get_put_other by assumption. rewrite get_setdefault_other by assumption.
    now apply O1. }
  assert (F3 : is_list (get e "flags") = true -> get ee3 "flags" = get e "flags").
  { intro L. unfold ee3, ee2. dict_simp. unfold ee1.
    assert (Hf : has e "flags" = true).
    { destruct (has e "flags") eqn:Hf; [reflexivity|].
      rewrite (get_missing _ _ Hf) in L. discriminate. }
    now rewrite Hf, L. }
  assert (C3 : has e "check_reason" = true -> get ee3 "check_reason" = get e "check_reason").
  { intro Hc. unfold ee3, ee2. dict_simp.
    assert (Hc1 : has ee1 "check_reason" = true).
    { unfold ee1. destruct (negb (has e "flags") || negb (is_list (get e "flags")));
        [now apply has_put_mono | assumption]. }
    rewrite (setdefault_present _ _ _ Hc1). apply O1. distinct_keys. }
  assert (E3 : forall ev k, get e "evidence" = VDict ev -> has ev k = true ->
                 get ev2 k = get ev k).
  { intros ev k Ge Hk. unfold ev2, SchemaValidate.fix_evidence.
    rewrite fill_evidence_fst.
    assert (Ev : evidence_of ee2 = ev).
    { unfold evidence_of, ee2. rewrite get_setdefault_other by distinct_keys.
      rewrite O1 by distinct_keys. now rewrite Ge. }
    rewrite Ev. rewrite !get_setdefault_present; auto using has_setdefault_mono. }
  assert (G3 : get ee3 "evidence" = VDict ev2) by (unfold ee3; apply get_put_same).
  destruct (needs_id ee3) eqn:N; repeat split.
  - intros k N1 N2 N3 N4. rewrite get_put_other by congruence. apply O3; congruence.
  - intro L. rewrite get_put_other by distinct_keys. now apply F3.
  - intro Hc. rewrite get_put_other by distinct_keys. now apply C3.
  - intro T. unfold needs_id in N. rewrite O3 in N by distinct_keys.
    rewrite T in N. discriminate.
  - intros ev k Ge Hk. exists ev2. rewrite get_put_other by distinct_keys.
    split; [exact G3 | now apply E3 with (1 := Ge)].
  - intros k N1 N2 N3 N4. apply O3; congruence.
  - exact F3.
  - exact C3.
  - intros _. apply O3; distinct_keys.
  - intros ev k Ge Hk. exists ev2. split; [exact G3 | now apply E3 with (1 := Ge)].
Qed.

(** ** Valid drafts stay valid *)

Section WithSchemaLibrary.
Variable accepts_unit_float : value -> bool.
Variable accepts_bool : value -> bool.
Variable accepts_int : value -> bool.

Local Abbreviation valid_edge := (SchemaValidate.valid_edge accepts_unit_float accepts_bool).
Local Abbreviation validate_graph :=
  (SchemaValidate.validate_graph accepts_unit_float accepts_bool accepts_int).

Lemma valid_evidence_put ev k v :
  valid_evidence (VDict ev) = true ->
  (k = "title" /\ is_str v = true) \/ (k = "snippet" /\ is_str v = true)
  \/ (k = "url" /\ is_opt_str v = true) \/ (k = "domain" /\ is_opt_str v = true) ->
  valid_evidence (VDict (put ev k v)) = true.
Proof.
  intros V K. unfold valid_evidence in *.
  destruct K as [[-> P]|[[-> P]|[[-> P]|[-> P]]]]; field_simp; rewrite ?P;
    rewrite !andb_true_iff in *; tauto.
Qed.

Lemma valid_evidence_setdefault ev k v :
  valid_evidence (VDict ev) = true ->
  (k = "title" /\ is_str v = true) \/ (k = "snippet" /\ is_str v = true)
  \/ (k = "url" /\ is_opt_str v = true) \/ (k = "domain" /\ is_opt_str v = true) ->
  valid_evidence (VDict (setdefault ev k v)) = true.
Proof.
  intros V K. rewrite setdefault_unfold. destruct (has ev k); [exact V|].
  now apply valid_evidence_put.
Qed.

Lemma valid_edge_put d k v :
  valid_edge (VDict d) = true ->
  (k = "flags" /\ is_str_list v = true)
  \/ (k = "check_reason" /\ is_opt_str v = true)
  \/ (k = "evidence" /\ valid_evidence v = true)
  \/ (k = "id" /\ is_opt_str v = true) ->
  valid_edge (VDict (put d k v)) = true.
Proof.
  intros V K. unfold SchemaValidate.valid_edge in *.
  destruct K as [[-> P]|[[-> P]|[[-> P]|[-> P]]]]; field_simp; rewrite ?P;
    rewrite !andb_true_iff in *; tauto.
Qed.

Lemma fix_edge_valid nd d :
  valid_edge (VDict d) = true -> valid_edge (VDict (fst (fix_edge nd d))) = true.
Proof.
  intro V. rewrite fix_edge_fst.
  set (ee1 := if negb (has d "flags") || negb (is_list (get d "flags"))
              then put d "flags" (VList []) else d).
  assert (V1 : valid_edge (VDict ee1) = true).
  { unfold ee1. destruct (negb (has d "flags") || negb (is_list (get d "flags")));
      [|exact V]. apply valid_edge_put; auto. }
  set (ee2 := setdefault ee1 "check_reason" VNone).
  assert (V2 : valid_edge (VDict ee2) = true).
  { unfold ee2. rewrite setdefault_unfold. destruct (has ee1 "check_reason"); [exact V1|].
    apply valid_edge_put; auto. }
  set (ev2 := fst (fix_evidence nd ee2)).
  assert (Ve : valid_evidence (VDict ev2) = true).
  { unfold ev2, SchemaValidate.fix_evidence. rewrite fill_evidence_fst.
    assert (V0 : valid_evidence (VDict (evidence_of ee2)) = true).
    { pose proof V2 as W. unfold SchemaValidate.valid_edge in W.
      rewrite !andb_true_iff in W.
      destruct W as [[[[[[[[[_ _] _] _] _] Ev] _] _] _] _].
      apply required_get in Ev. unfold evidence_of.
      destruct (get ee2 "evidence"); try discriminate. exact Ev. }
    apply valid_evidence_setdefault.
    2:{ do 3 right. split; [reflexivity|]. now destruct (Dict.get str_eqb nd _). }
    apply valid_evidence_setdefault; [|auto 6].
    apply valid_evidence_setdefault; [|auto 6].
    apply valid_evidence_setdefault; [exact V0 | auto 6]. }
  set (ee3 := put ee2 "evidence" (VDict ev2)).
  assert (V3 : valid_edge (VDict ee3) = true).
  { unfold ee3. apply valid_edge_put; auto 6. }
  destruct (needs_id ee3); [|exact V3].
  apply valid_edge_put; auto 8.
Qed.

Lemma fix_edges_valid nd es :
  forallb valid_edge es = true ->
  forallb valid_edge (fst (fix_edges nd es)) = true.
Proof.
  induction es as [|v r IH]; cbn [SchemaValidate.fix_edges forallb]; [reflexivity|].
  intro H. apply andb_true_iff in H. destruct H as [Hv Hr].
  destruct v; try discriminate.
  pose proof (fix_edge_valid nd d Hv) as V. specialize (IH Hr).
  destruct (SchemaValidate.fix_edge py_str nd d) as [ee n].
  destruct (SchemaValidate.fix_edges py_str nd r) as [out m].
  cbn [fst forallb] in *. now rewrite V, IH.
Qed.

(** The repair does not break a draft that validates: [light_fix]
    returns, and the dict it returns validates again. *)
Theorem light_fix_preserves_validity (g : dict) (errors : list str) :
  validate_graph g = true ->
  exists g' n, light_fix g errors = Some (g', n) /\ validate_graph g' = true.
Proof.
  intro V. pose proof V as V0.
  unfold SchemaValidate.validate_graph in V. rewrite !andb_true_iff in V.
  destruct V as [[[Vc Vn] Ve] Vm].
  pose proof (required_has _ _ _ Vc) as Hc. pose proof (required_has _ _ _ Vn) as Hn.
  pose proof (required_has _ _ _ Ve) as He. pose proof (required_has _ _ _ Vm) as Hm.
  pose proof (required_get _ _ _ Vn) as Gn. pose proof (required_get _ _ _ Ve) as Ge.
  pose proof (required_get _ _ _ Vm) as Gm.
  destruct (with_defaults_present _ Hc Hn He Hm) as [W Z0].
  destruct (get g "meta") as [| | | | |?|m] eqn:GM; try discriminate.
  unfold valid_meta in Gm. rewrite !andb_true_iff in Gm.
  destruct Gm as [[[M1 M2] M3] _].
  apply required_has in M1, M2, M3.
  destruct (get g "nodes") as [| | | | |ns|?] eqn:GN; try discriminate.
  destruct (get g "edges") as [| | | | |es|?] eqn:GE; try discriminate.
  cbn [all_valid] in Ge.
  pose proof (put_same_value _ _ Hm) as PM. rewrite GM in PM.
  unfold SchemaValidate.light_fix. rewrite W, Z0, GM.
  unfold or_else at 1. rewrite (has_nonempty _ _ M1). cbn [py_dict].
  rewrite (meta_with_defaults_present _ M1 M2 M3). cbv beta iota zeta.
  rewrite PM, GN, GE, !py_list_of_list.
  pose proof (fix_edges_valid (fold_left (node_domain_step py_str) ns []) es Ge) as F.
  destruct (SchemaValidate.fix_edges py_str (fold_left (node_domain_step py_str) ns []) es)
    as [fixed k]. cbn [fst] in F.
  do 2 eexists. split; [reflexivity|].
  unfold SchemaValidate.validate_graph. field_simp.
  rewrite Vc, Vn, Vm. cbn [all_valid]. now rewrite F.
Qed.

End WithSchemaLibrary.
End WithLibraries.

(** ** Runs on the sample drafts *)

Lemma light_fix_result_is_complete_witness :
  exists g' n,
    run_light_fix (sample_draft [short_edge]) = Some (g', n)
    /\ has g' "meta" = true
    /\ exists es, get g' "edges" = VList es /\ Forall repaired_entry es.
Proof.
  destruct (run_light_fix (sample_draft [short_edge])) as [[g' n]|] eqn:E;
    [|vm_compute in E; discriminate E].
  destruct (@light_fix_result_is_complete str_of_plain _ _ [] _ E)
    as (_ & _ & _ & A & _ & B).
  exists g', n. auto.
Defined.

Lemma light_fix_count_witness :
  exists g' n,
    run_light_fix (sample_draft [short_edge]) = Some (g', n) /\ 0 <= n <= 9.
Proof.
  destruct (run_light_fix (sample_draft [short_edge])) as [[g' n]|] eqn:E;
    [|vm_compute in E; discriminate E].
  destruct (@light_fix_count str_of_plain _ _ [] _ E) as (ns & es & _ & A & _ & B).
  exists g', n. split; [reflexivity|].
  vm_compute in A. injection A as <-. exact B.
Defined.

Lemma light_fix_keeps_existing_values_witness :
  exists g' n,
    run_light_fix (sample_draft [short_edge]) = Some (g', n)
    /\ get g' "concept" = txt "Entropy".
Proof.
  destruct (run_light_fix (sample_draft [short_edge])) as [[g' n]|] eqn:E;
    [|vm_compute in E; discriminate E].
  destruct (@light_fix_keeps_existing_values str_of_plain _ _ [] _ E) as [A _].
  exists g', n. split; [reflexivity|].
  rewrite (A "concept"); [reflexivity | distinct_keys | distinct_keys | reflexivity].
Defined.

Lemma fix_edge_keeps_existing_values_witness :
  get (fst (SchemaValidate.fix_edge str_of_plain []
              (entries [("source", txt "a"); ("flags", VList [txt "seen"])]))) "flags"
  = VList [txt "seen"].
Proof.
  destruct (@fix_edge_keeps_existing_values str_of_plain []
              (entries [("source", txt "a"); ("flags", VList [txt "seen"])]))
    as (_ & A & _).
  rewrite A; reflexivity.
Defined.

Lemma light_fix_preserves_validity_witness :
  run_validate (sample_draft [short_edge]) = true
  /\ exists g' n,
       run_light_fix (sample_draft [short_edge]) = Some (g', n)
       /\ run_validate g' = true.
Proof.
  split; [reflexivity|].
  apply (@light_fix_preserves_validity str_of_plain
           strict_unit_float strict_bool strict_int).
  reflexivity.
Defined.

End SchemaExtra.

(* ================================================================== *)
(** * The offline retrieval and the extractor *)
(* ================================================================== *)

Module ExtractExtra.
Import Py PyFacts PyText Merge MergeProofs Retrieval Extract.
Local Open Scope string_scope.
Local Open Scope list_scope.

(** ** Strings *)

Lemma starts_with_app p b : starts_with p (p ++ b) = true.
Proof.
  induction p as [|c p IH]; [reflexivity|].
  cbn [app starts_with]. now rewrite N.eqb_refl, IH.
Qed.

Lemma contains_cons s p c : contains s p = true -> contains (c :: s) p = true.
Proof. intro H. cbn [contains]. rewrite H. apply orb_true_r. Qed.

Lemma contains_here p b : contains (p ++ b) p = true.
Proof.
  destruct (p ++ b) as [|c r] eqn:E.
  - destruct p; [reflexivity | discriminate].
  - cbn [contains]. rewrite <- E, starts_with_app. reflexivity.
Qed.

(** A string occurs in every string built around it. *)
Lemma contains_infix a p b : contains (a ++ p ++ b) p = true.
Proof.
  induction a as [|c a IH]; cbn [app]; [apply contains_here | now apply contains_cons].
Qed.

Lemma lstrip_by_head p s : forall c r, lstrip_by p s = c :: r -> p c = false.
Proof.
  induction s as [|a s IH]; intros c r; cbn [lstrip_by]; [discriminate|].
  destruct (p a) eqn:E; [apply IH|]. now intros [= <- _].
Qed.

Lemma lstrip_by_suffix p s : exists pre, s = pre ++ lstrip_by p s.
Proof.
  induction s as [|c r (pre & IH)]; cbn [lstrip_by]; [now exists []|].
  destruct (p c).
  - exists (c :: pre). cbn [app]. now rewrite <- IH.
  - now exists [].
Qed.

(** Neither end of [strip_by p s] satisfies [p]. *)
Lemma strip_by_ends p s :
  (forall c r, strip_by p s = c :: r -> p c = false)
  /\ (forall c r, rev (strip_by p s) = c :: r -> p c = false).
Proof.
  unfold strip_by. split.
  - intros c r H.
    destruct (lstrip_by_suffix p (rev (lstrip_by p s))) as (q & Q).
    assert (L : lstrip_by p s = (c :: r) ++ rev q).
    { rewrite <- H, <- rev_app_distr, <- Q. now rewrite rev_involutive. }
    eapply lstrip_by_head. exact L.
  - intros c r. rewrite rev_involutive. apply lstrip_by_head.
Qed.

Lemma lstrip_by_all p s : forallb p s = true -> lstrip_by p s = [].
Proof.
  induction s as [|c r IH]; cbn [forallb lstrip_by]; [reflexivity|].
  intro H. apply andb_true_iff in H. destruct H as [H1 H2]. rewrite H1. auto.
Qed.

Lemma lstrip_by_keeps p s c : In c s -> p c = false -> In c (lstrip_by p s).
Proof.
  induction s as [|a r IH]; cbn [lstrip_by]; [contradiction|].
  intros H K. destruct (p a) eqn:E; [|exact H].
  destruct H as [->|H]; [congruence | auto].
Qed.

Lemma lstrip_by_incl p s c : In c (lstrip_by p s) -> In c s.
Proof.
  intro H. destruct (lstrip_by_suffix p s) as (pre & E). rewrite E.
  rewrite in_app_iff. now right.
Qed.

Lemma strip_by_keeps p s c : In c s -> p c = false -> In c (strip_by p s).
Proof.
  intros H K. unfold strip_by. rewrite <- in_rev.
  apply lstrip_by_keeps; [|exact K]. rewrite <- in_rev. now apply lstrip_by_keeps.
Qed.

Lemma strip_by_incl p s c : In c (strip_by p s) -> In c s.
Proof.
  unfold strip_by. rewrite <- in_rev. intro H.
  apply lstrip_by_incl in H. rewrite <- in_rev in H. now apply lstrip_by_incl in H.
Qed.

Lemma squeeze_with_chars rep p b s c :
  In c (squeeze_with rep p b s) -> c = rep \/ (In c s /\ p c = false).
Proof.
  revert b. induction s as [|a r IH]; intros b H; cbn [squeeze_with] in H; [contradiction|].
  destruct (p a) eqn:E.
  - destruct b.
    + destruct (IH _ H) as [?|[? ?]]; [now left | right; split; [now right | assumption]].
    + destruct H as [<-|H]; [now left|].
      destruct (IH _ H) as [?|[? ?]]; [now left | right; split; [now right | assumption]].
  - destruct H as [<-|H]; [right; split; [now left | assumption]|].
    destruct (IH _ H) as [?|[? ?]]; [now left | right; split; [now right | assumption]].
Qed.

Lemma squeeze_with_keeps rep p s c : forall b,
  In c s -> p c = false -> In c (squeeze_with rep p b s).
Proof.
  induction s as [|a r IH]; intros b H K; cbn [squeeze_with]; [contradiction|].
  destruct (p a) eqn:E.
  - destruct H as [->|H]; [congruence|].
    destruct b; [now apply IH | right; now apply IH].
  - destruct H as [->|H]; [now left | right; now apply IH].
Qed.

Lemma forallb_false_exists (A : Type) (f : A -> bool) l :
  forallb f l = false -> exists x, In x l /\ f x = false.
Proof.
  induction l as [|a l IH]; cbn [forallb]; [discriminate|].
  destruct (f a) eqn:E.
  - intro H. destruct (IH H) as (x & Hx & Fx). exists x. split; [now right | exact Fx].
  - intros _. exists a. split; [now left | exact E].
Qed.

(** ** Sorting *)

Lemma In_insert_sorted x l y : In y (insert_sorted x l) <-> y = x \/ In y l.
Proof.
  induction l as [|a l IH]; cbn [insert_sorted].
  - simpl. intuition congruence.
  - destruct (str_ltb x a); simpl; [intuition congruence|].
    rewrite IH. intuition congruence.
Qed.

Lemma In_sorted l y : In y (sorted l) <-> In y l.
Proof.
  unfold sorted.
  assert (G : forall acc, In y (fold_left (fun acc x => insert_sorted x acc) l acc)
                          <-> In y acc \/ In y l).
  { induction l as [|a l IH]; intro acc; cbn [fold_left].
    - simpl. tauto.
    - rewrite IH, In_insert_sorted. simpl. intuition congruence. }
  rewrite G. simpl. tauto.
Qed.

(** ** Dicts of nodes *)

Lemma keys_setdefault (d : Dict.t str Node.t) k v :
  Dict.keys (Dict.setdefault str_eqb d k v)
  = if Dict.mem str_eqb d k then Dict.keys d else Dict.keys d ++ [k].
Proof.
  unfold Dict.setdefault. destruct (Dict.mem str_eqb d k) eqn:E; [reflexivity|].
  now rewrite DictFacts.keys_set, E.
Qed.

Lemma mem_keys (d : Dict.t str Node.t) k : Dict.mem str_eqb d k = true <-> In k (Dict.keys d).
Proof.
  unfold Dict.mem. pose proof (DictFacts.get_None_keys _ str_eqb_eq d k) as H.
  destruct (Dict.get str_eqb d k); split; intro X; try reflexivity; try discriminate.
  - destruct (in_dec str_eq_dec k (Dict.keys d)) as [I|N]; [exact I|].
    apply H in N. discriminate.
  - exfalso. now apply (proj1 H).
Qed.

Lemma keys_setdefault_iff (d : Dict.t str Node.t) k v x :
  In x (Dict.keys (Dict.setdefault str_eqb d k v)) <-> x = k \/ In x (Dict.keys d).
Proof.
  rewrite keys_setdefault. destruct (Dict.mem str_eqb d k) eqn:E.
  - apply mem_keys in E. intuition congruence.
  - rewrite in_app_iff. simpl. intuition congruence.
Qed.

Lemma setdefault_entries (d : Dict.t str Node.t) k v :
  Dict.setdefault str_eqb d k v = d
  \/ Dict.setdefault str_eqb d k v = d ++ [(k, v)].
Proof.
  unfold Dict.setdefault, Dict.mem.
  destruct (Dict.get str_eqb d k) eqn:E; [now left|]. right.
  now apply DictFacts.set_absent.
Qed.

Lemma indexed_values d : indexed d -> map Node.id (Dict.values d) = Dict.keys d.
Proof.
  intros [_ E]. unfold Dict.values, Dict.keys. rewrite map_map.
  apply map_ext_in. intros [k n] H. simpl. now apply E.
Qed.

Lemma indexed_set d n : indexed d -> indexed (Dict.set str_eqb d (Node.id n) n).
Proof.
  intros [N E]. split; [now apply (DictFacts.NoDup_keys_set _ str_eqb_eq)|].
  intros k m H. apply (MergeExtra.In_set_entry _ str_eqb_eq) in H.
  destruct H as [[= -> ->]|H]; auto.
Qed.

Lemma indexed_setdefault d n : indexed d -> indexed (Dict.setdefault str_eqb d (Node.id n) n).
Proof.
  intro H. unfold Dict.setdefault. destruct (Dict.mem str_eqb d (Node.id n)); [exact H|].
  now apply indexed_set.
Qed.

Lemma indexed_nil : indexed [].
Proof. split; [constructor | contradiction]. Qed.

Lemma index_nodes_spec ns :
  indexed (index_nodes ns)
  /\ forall i, In i (map Node.id ns) -> In i (Dict.keys (index_nodes ns)).
Proof.
  unfold index_nodes. induction ns as [|n l [I K]] using rev_ind.
  - split; [apply indexed_nil | contradiction].
  - rewrite fold_left_app. cbn [fold_left]. split; [now apply indexed_set|].
    intros i H. rewrite map_app, in_app_iff in H. rewrite DictFacts.keys_set.
    destruct H as [H|[<-|[]]].
    + specialize (K i H). destruct (Dict.mem str_eqb _ (Node.id n)); [exact K|].
      rewrite in_app_iff. now left.
    + destruct (Dict.mem str_eqb _ (Node.id n)) eqn:E.
      * now apply mem_keys.
      * rewrite in_app_iff. right. now left.
Qed.

Section WithInterpreter.
Variable lower : str -> str.
Variable is_alnum : char -> bool.
Variable set_iter : list str -> list str.

Local Abbreviation _slug := (Extract._slug lower is_alnum).
Local Abbreviation passage_node := (Extract.passage_node lower is_alnum).
Local Abbreviation concept_node_of := (Extract.concept_node_of lower is_alnum).
Local Abbreviation loop_body := (Extract.loop_body lower is_alnum).
Local Abbreviation graph_from_passages := (Extract.graph_from_passages lower is_alnum).
Local Abbreviation bridge_node := (Extract.bridge_node lower is_alnum).
Local Abbreviation bridge_body := (Extract.bridge_body).
Local Abbreviation bridge_discovery := (Extract.bridge_discovery lower is_alnum).
Local Abbreviation merge_synonyms := (Merge.merge_synonyms lower set_iter).

(** ** [_slug] *)

Lemma hex_not_underscore c : Shape.is_hex c = true -> (c =? 95)%N = false.
Proof.
  unfold Shape.is_hex. intro H.
  repeat rewrite ?orb_true_iff, ?andb_true_iff, ?N.leb_le in H.
  apply N.eqb_neq. lia.
Qed.

Lemma slug_ends (s : str) :
  truthy (_slug s) = true
  /\ (forall c r, _slug s = c :: r -> c <> 95%N)
  /\ (forall c r, rev (_slug s) = c :: r -> c <> 95%N).
Proof.
  unfold Extract._slug.
  set (raw := strip_by _ _).
  destruct (truthy raw) eqn:T.
  - split; [exact T|].
    destruct (strip_by_ends (fun c => (c =? 95)%N)
                (squeeze_with 95%N (fun c => (c =? 95)%N) false
                   (squeeze_with 95%N (fun c => negb (slug_keeps is_alnum c)) false
                      (lower (strip s))))) as [A B].
    fold raw in A, B. split; intros c r H.
    + apply A in H. now apply N.eqb_neq.
    + apply B in H. now apply N.eqb_neq.
  - set (h := firstn 10 (Sha1.hexdigest (Sha1.utf8 s))).
    assert (L : length h = 10%nat).
    { unfold h. rewrite length_firstn, CheckerExtra.hexdigest_length. reflexivity. }
    assert (F : forallb Shape.is_hex h = true).
    { unfold h. apply CheckerExtra.forallb_firstn, CheckerExtra.hexdigest_is_hex. }
    assert (Fr : forallb Shape.is_hex (rev h) = true)
      by now rewrite NormalForm.forallb_rev.
    split; [destruct h; [discriminate L | reflexivity]|].
    split; intros c r H.
    + rewrite H in F. cbn [forallb] in F. apply andb_true_iff in F.
      destruct F as [F _]. apply hex_not_underscore in F. now apply N.eqb_neq.
    + rewrite H in Fr. cbn [forallb] in Fr. apply andb_true_iff in Fr.
      destruct Fr as [Fc _]. apply hex_not_underscore in Fc. now apply N.eqb_neq.
Qed.

Lemma slug_keeps_underscore : slug_keeps is_alnum 95%N = true.
Proof. unfold slug_keeps. cbn. now rewrite orb_true_r. Qed.

(** The text that [_slug] tests for emptiness: the characters it keeps
    are the kept characters of the lowered text and underscores, and it is
    empty exactly when the lowered text has no kept character besides
    underscores. *)
Lemma slug_cleaned (s : str) :
  let raw := lower (strip s) in
  let cleaned :=
    strip_by (fun c => (c =? 95)%N)
      (squeeze_with 95%N (fun c => (c =? 95)%N) false
         (squeeze_with 95%N (fun c => negb (slug_keeps is_alnum c)) false raw)) in
  Forall (fun c => slug_keeps is_alnum c = true) cleaned
  /\ (forall c, In c raw -> slug_keeps is_alnum c = true -> c <> 95%N -> In c cleaned)
  /\ (forallb (fun c => negb (slug_keeps is_alnum c) || (c =? 95)%N) raw = true ->
      cleaned = []).
Proof.
  cbv zeta. set (raw := lower (strip s)).
  set (sq1 := squeeze_with 95%N (fun c => negb (slug_keeps is_alnum c)) false raw).
  set (sq2 := squeeze_with 95%N (fun c => (c =? 95)%N) false sq1).
  assert (C1 : forall c, In c sq1 -> c = 95%N \/ (In c raw /\ slug_keeps is_alnum c = true)).
  { intros c H. apply squeeze_with_chars in H. destruct H as [H|[H K]]; [now left|].
    right. split; [exact H|]. now apply negb_false_iff in K. }
  assert (C2 : forall c, In c sq2 -> c = 95%N \/ (In c raw /\ slug_keeps is_alnum c = true)).
  { intros c H. apply squeeze_with_chars in H. destruct H as [H|[H _]]; [now left|].
    now apply C1. }
  split; [|split].
  - apply Forall_forall. intros c H. apply strip_by_incl in H.
    destruct (C2 c H) as [->|[_ K]]; [apply slug_keeps_underscore | exact K].
  - intros c H K N. apply strip_by_keeps; [|now apply N.eqb_neq].
    apply squeeze_with_keeps; [|now apply N.eqb_neq].
    apply squeeze_with_keeps; [exact H|]. now rewrite K.
  - intro A. rewrite forallb_forall in A. unfold strip_by.
    assert (L : lstrip_by (fun c => (c =? 95)%N) sq2 = []).
    { apply lstrip_by_all. apply forallb_forall. intros c H. apply N.eqb_eq.
      destruct (C2 c H) as [->|[R K]]; [reflexivity|].
      specialize (A c R). rewrite K in A. cbn in A. now apply N.eqb_eq. }
    rewrite L. reflexivity.
Qed.

(** A slug is never empty and neither starts nor ends with an
    underscore. When the lowered, stripped text has no kept character
    besides underscores, the slug is the first ten hexadecimal digits of
    the SHA-1 of the text as given; otherwise it is made of kept
    characters only and holds every kept character of the lowered text
    that is not an underscore. *)
Theorem slug_is_never_empty (s : str) :
  truthy (_slug s) = true
  /\ (forall c r, _slug s = c :: r -> c <> 95%N)
  /\ (forall c r, rev (_slug s) = c :: r -> c <> 95%N)
  /\ (if forallb (fun c => negb (slug_keeps is_alnum c) || (c =? 95)%N) (lower (strip s))
      then _slug s = firstn 10 (Sha1.hexdigest (Sha1.utf8 s))
      else Forall (fun c => slug_keeps is_alnum c = true) (_slug s)
           /\ forall c, In c (lower (strip s)) -> slug_keeps is_alnum c = true ->
                 c <> 95%N -> In c (_slug s)).
Proof.
  destruct (slug_ends s) as (A & B & C).
  split; [exact A|]. split; [exact B|]. split; [exact C|].
  destruct (slug_cleaned s) as (F & K & E). cbv zeta in F, K, E.
  unfold Extract._slug.
  destruct (forallb _ (lower (strip s))) eqn:Q.
  - now rewrite (E eq_refl).
  - apply forallb_false_exists in Q. destruct Q as (c & Hc & Qc).
    apply orb_false_iff in Qc. destruct Qc as [Q1 Q2].
    apply negb_false_iff in Q1. apply N.eqb_neq in Q2.
    pose proof (K c Hc Q1 Q2) as I.
    destruct (strip_by _ _) as [|x r]; [contradiction|]. cbn [truthy].
    split; [exact F | exact K].
Qed.

(** ** [graph_from_passages] *)

Lemma relation_of_whitelisted sn :
  existsb (str_eqb (relation_of sn)) Checker.whitelist = true.
Proof.
  unfold relation_of.
  destruct (contains sn _ || contains sn _); [reflexivity|].
  destruct (contains sn _ || contains sn _); [reflexivity|].
  destruct (contains sn _ || contains sn _); reflexivity.
Qed.

Lemma concept_edge_mono cid ids ids' e :
  (forall i, In i ids -> In i ids') -> concept_edge cid ids e -> concept_edge cid ids' e.
Proof. unfold concept_edge. intuition. Qed.

Lemma loop_spec concept passages :
  let cn := concept_node_of concept in
  let st := fold_left (loop_body concept cn) passages
                      (mk_loop [(Node.id cn, cn)] []) in
  indexed (loop_nodes st)
  /\ hd_error (Dict.values (loop_nodes st)) = Some cn
  /\ In (Node.id cn) (Dict.keys (loop_nodes st))
  /\ length (loop_edges st) = length passages
  /\ (length (loop_nodes st) <= S (length passages))%nat
  /\ Forall (concept_edge (Node.id cn) (Dict.keys (loop_nodes st))) (loop_edges st).
Proof.
  cbv zeta. set (cn := concept_node_of concept).
  induction passages as [|p l IH] using rev_ind.
  - cbn [fold_left loop_nodes loop_edges].
    split.
    { split; [repeat constructor; intros [] | intros k n [[= <- <-]|[]]; reflexivity]. }
    split; [reflexivity|]. split; [now left|]. split; [reflexivity|].
    split; [cbn; lia | constructor].
  - rewrite fold_left_app. cbn [fold_left].
    set (st := fold_left (loop_body concept cn) l (mk_loop [(Node.id cn, cn)] [])) in *.
    destruct IH as (I & H & C & L & B & F).
    unfold Extract.loop_body. cbn [loop_nodes loop_edges].
    fold (passage_node p). set (n := passage_node p).
    split; [now apply indexed_setdefault|].
    split.
    { destruct (setdefault_entries (loop_nodes st) (Node.id n) n) as [-> | ->];
        [exact H|].
      unfold Dict.values in *. rewrite map_app.
      destruct (map snd (loop_nodes st)); [discriminate | exact H]. }
    split; [apply keys_setdefault_iff; now right|].
    split; [rewrite !length_app, L; reflexivity|].
    split.
    { destruct (setdefault_entries (loop_nodes st) (Node.id n) n) as [-> | ->].
      - rewrite length_app. cbn [length]. lia.
      - rewrite !length_app. cbn [length]. lia. }
    apply Forall_app. split.
    + eapply Forall_impl; [|exact F]. intros e.
      apply concept_edge_mono. intros i Hi. apply keys_setdefault_iff. now right.
    + constructor; [|constructor]. unfold concept_edge.
      cbn [Edge.source Edge.target Edge.relation Edge.checked Edge.confidence].
      split; [reflexivity|]. split; [apply keys_setdefault_iff; now left|].
      split; [apply relation_of_whitelisted|]. split; reflexivity.
Qed.

(** The extracted graph has one edge per passage, each from the concept
    node to a node of the graph, under a relation of the whitelist; the
    concept node comes first, node ids are pairwise distinct, and there is
    at most one node per passage besides the concept node. *)
Theorem graph_from_passages_is_closed (concept : str) (passages : list Passage.t) :
  let ex := graph_from_passages concept passages in
  let concept_node := concept_node_of concept in
  hd_error (nodes ex) = Some concept_node
  /\ NoDup (map Node.id (nodes ex))
  /\ (length (nodes ex) <= S (length passages))%nat
  /\ length (edges ex) = length passages
  /\ Forall (concept_edge (Node.id concept_node) (map Node.id (nodes ex))) (edges ex).
Proof.
  cbv zeta. unfold Extract.graph_from_passages. cbn [nodes edges].
  destruct (loop_spec concept passages) as (I & H & C & L & B & F).
  rewrite (indexed_values I). unfold Dict.values at 2. rewrite length_map.
  split; [exact H|]. split; [apply I|]. auto.
Qed.

Lemma graph_from_passages_closed concept passages :
  closed (nodes (graph_from_passages concept passages))
         (edges (graph_from_passages concept passages)).
Proof.
  unfold Extract.graph_from_passages. cbn [nodes edges].
  destruct (loop_spec concept passages) as (I & H & C & L & B & F).
  unfold closed. rewrite (indexed_values I).
  eapply Forall_impl; [|exact F]. intros e (S & T & _). rewrite S. auto.
Qed.

(** ** [bridge_discovery] *)

Lemma domain_has_node (nodes0 : Dict.t str Node.t) d :
  In d (bridge_domains nodes0) ->
  exists n, In n (Dict.values nodes0) /\ Node.domain n = d.
Proof.
  unfold bridge_domains. rewrite In_sorted, PySetFacts.In_of_list, in_map_iff.
  intros (n & E & H). apply filter_In in H. exists n. tauto.
Qed.

Lemma values_setdefault_incl (d : Dict.t str Node.t) k v n :
  In n (Dict.values d) -> In n (Dict.values (Dict.setdefault str_eqb d k v)).
Proof.
  intro H. destruct (setdefault_entries d k v) as [-> | ->]; [exact H|].
  unfold Dict.values in *. rewrite map_app, in_app_iff. now left.
Qed.

Lemma bridge_loop (nodes1 : Dict.t str Node.t) (bridge : Node.t) ds : forall es,
  In (Node.id bridge) (map Node.id (Dict.values nodes1)) ->
  (forall d, In d ds -> exists n, In n (Dict.values nodes1) /\ Node.domain n = d) ->
  exists added,
    fold_left (bridge_body nodes1 bridge) ds es = es ++ added
    /\ length added = length ds
    /\ Forall (bridge_edge (Node.id bridge) (map Node.id (Dict.values nodes1))) added.
Proof.
  induction ds as [|d ds IH]; intros es Hb Hd; cbn [fold_left].
  - exists []. rewrite app_nil_r. repeat split. constructor.
  - destruct (Hd d (or_introl eq_refl)) as (n & Hn & En).
    destruct (@MergeExtra.find_In_some _ (fun m => str_eqb (Node.domain m) d)
                (Dict.values nodes1) n Hn) as (cand & Fc).
    { rewrite En. apply str_eqb_refl. }
    unfold Extract.bridge_body at 2. rewrite Fc.
    match goal with |- context [es ++ [?x]] => set (e := x) end.
    destruct (IH (es ++ [e]) Hb) as (added & A & L & F).
    { intros d' H'. apply Hd. now right. }
    exists (e :: added). rewrite A, <- app_assoc. cbn [app length]. repeat split.
    + now rewrite L.
    + constructor; [|exact F]. unfold bridge_edge, e. cbn. repeat split; auto.
      apply in_map. apply find_some in Fc. apply Fc.
Qed.

(** With fewer than two domains besides "Core" the bridge step returns
    its argument. Otherwise it keeps every node id and every edge, makes
    the node ids pairwise distinct, and appends one edge per domain for the
    first four domains in sorted order: each has the relation "bridges",
    the bridge node for target and a node of the result for source. *)
Theorem bridge_discovery_appends_bridges (ex : Extracted) :
  let domains := bridge_domains (index_nodes (nodes ex)) in
  let ex' := bridge_discovery ex in
  if Nat.ltb (length domains) 2 then ex' = ex
  else
    NoDup (map Node.id (nodes ex'))
    /\ incl (map Node.id (nodes ex)) (map Node.id (nodes ex'))
    /\ exists added,
         edges ex' = edges ex ++ added
         /\ length added = Nat.min 4 (length domains)
         /\ Forall (bridge_edge (Node.id bridge_node) (map Node.id (nodes ex'))) added.
Proof.
  cbv zeta. unfold Extract.bridge_discovery.
  destruct (Nat.ltb (length (bridge_domains (index_nodes (nodes ex)))) 2);
    [reflexivity|].
  cbn [nodes edges].
  destruct (index_nodes_spec (nodes ex)) as [I K].
  set (nodes0 := index_nodes (nodes ex)) in *.
  set (nodes1 := Dict.setdefault str_eqb nodes0 (Node.id bridge_node) bridge_node).
  assert (I1 : indexed nodes1) by now apply indexed_setdefault.
  rewrite (indexed_values I1). split; [apply I1|]. split.
  - intros i Hi. apply keys_setdefault_iff. right. now apply K.
  - destruct (@bridge_loop nodes1 bridge_node (firstn 4 (bridge_domains nodes0)) (edges ex))
      as (added & A & L & F).
    + rewrite (indexed_values I1). apply keys_setdefault_iff. now left.
    + intros d Hd. apply In_firstn in Hd. apply domain_has_node in Hd.
      destruct Hd as (n & Hn & En). exists n. split; [|exact En].
      now apply values_setdefault_incl.
    + exists added. rewrite (indexed_values I1) in F.
      rewrite length_firstn in L. auto.
Qed.

Lemma bridge_discovery_closed ex :
  closed (nodes ex) (edges ex) ->
  closed (nodes (bridge_discovery ex)) (edges (bridge_discovery ex)).
Proof.
  intro C. unfold Extract.bridge_discovery.
  destruct (Nat.ltb (length (bridge_domains (index_nodes (nodes ex)))) 2);
    [exact C|].
  cbn [nodes edges].
  destruct (index_nodes_spec (nodes ex)) as [I K].
  set (nodes0 := index_nodes (nodes ex)) in *.
  set (nodes1 := Dict.setdefault str_eqb nodes0 (Node.id bridge_node) bridge_node).
  assert (I1 : indexed nodes1) by now apply indexed_setdefault.
  destruct (@bridge_loop nodes1 bridge_node (firstn 4 (bridge_domains nodes0)) (edges ex))
    as (added & A & L & F).
  - rewrite (indexed_values I1). apply keys_setdefault_iff. now left.
  - intros d Hd. apply In_firstn in Hd. apply domain_has_node in Hd.
    destruct Hd as (n & Hn & En). exists n. split; [|exact En].
    now apply values_setdefault_incl.
  - rewrite A. unfold closed. apply Forall_app. split.
    + eapply Forall_impl; [|exact C]. intros e [S T].
      rewrite (indexed_values I1). split; apply keys_setdefault_iff; right; now apply K.
    + eapply Forall_impl; [|exact F]. intros e (_ & _ & S & T). auto.
Qed.

(** ** Extraction followed by the merge *)

Lemma merge_synonyms_closed ns es :
  closed ns es ->
  closed (fst (fst (merge_synonyms ns es))) (snd (fst (merge_synonyms ns es))).
Proof.
  intro C. unfold Merge.merge_synonyms. cbn [fst snd]. unfold closed in *.
  rewrite Forall_forall in C.
  apply conflict_loop_preserves.
  - intros e He. destruct (mark_conflict_fields e) as (_ & -> & -> & _). exact He.
  - apply edge_loop_preserves.
    + intros w l Hw. destruct (absorb_fields set_iter w l) as (_ & -> & -> & _). exact Hw.
    + intros e He.
      destruct (remap_endpoints (id_map (Merge.node_loop lower ns)) e) as (-> & -> & _).
      destruct (C e He). split; now apply remapped_endpoint.
Qed.

(** The graph that the pipeline hands to the schema validator has no
    dangling edge: after extraction, bridge discovery and the merge, every
    edge has for source and for target the id of a node of the result. *)
Theorem extracted_graph_is_closed_after_merge (concept : str) (passages : list Passage.t) :
  let ex := bridge_discovery (graph_from_passages concept passages) in
  let merged := merge_synonyms (nodes ex) (edges ex) in
  closed (fst (fst merged)) (snd (fst merged)).
Proof.
  cbv zeta. apply merge_synonyms_closed, bridge_discovery_closed,
    graph_from_passages_closed.
Qed.

End WithInterpreter.

(** ** The offline retrieval *)

Section WithEnvironment.
Variable lower : str -> str.
Variable wiki_summary : str -> str -> list Passage.t.

Lemma seed_table_domains :
  Forall (fun kv => Forall (fun p => Passage.domain p = fst kv /\ Passage.url p = None)
                           (snd kv))
         SeedCorpus.SEED_PASSAGES.
Proof. repeat constructor. Qed.

Lemma seed_passages_domain domain :
  Forall (fun p => Passage.domain p = domain /\ Passage.url p = None)
         (Dict.get_or str_eqb SeedCorpus.SEED_PASSAGES domain []).
Proof.
  unfold Dict.get_or.
  destruct (Dict.get str_eqb SeedCorpus.SEED_PASSAGES domain) as [ps|] eqn:G;
    [|constructor].
  apply (DictFacts.get_In _ str_eqb_eq) in G.
  pose proof seed_table_domains as T. rewrite Forall_forall in T.
  exact (T _ G).
Qed.

Lemma seed_loop_filter (f : Passage.t -> bool) l : forall out,
  fold_left (fun out p => if f p then out ++ [p] else out) l out = out ++ filter f l.
Proof.
  induction l as [|p l IH]; intro out; cbn [fold_left filter].
  - now rewrite app_nil_r.
  - rewrite IH. destruct (f p); [|reflexivity]. now rewrite <- app_assoc.
Qed.

(** With the online lookup switched off, [search] returns the seed
    passages of the domain that match, in the order of the corpus, when
    there are some, and the one synthetic passage otherwise; so it never
    comes back empty-handed, and what it returns belongs to the domain
    asked for and has no url. *)
Theorem offline_search_is_never_empty (domain concept : str) :
  let seeds := filter (seed_match lower (Retrieval._norm lower concept) domain)
                      (Dict.get_or str_eqb SeedCorpus.SEED_PASSAGES domain []) in
  let found := search lower false wiki_summary domain concept in
  found = match seeds with
          | [] => [_synthetic_passage domain concept]
          | _ :: _ => seeds
          end
  /\ found <> []
  /\ Forall (fun p => Passage.domain p = domain /\ Passage.url p = None) found.
Proof.
  cbv zeta. unfold search. rewrite seed_loop_filter. cbn [app negb].
  destruct (filter _ _) as [|p out] eqn:E.
  - split; [reflexivity|]. split; [discriminate|].
    constructor; [|constructor]. unfold _synthetic_passage.
    repeat match goal with
           | |- context [if ?b then _ else _] => destruct b
           end; split; reflexivity.
  - split; [reflexivity|]. split; [discriminate|].
    rewrite <- E. pose proof (seed_passages_domain domain) as F.
    rewrite Forall_forall in *. intros q Hq. apply filter_In in Hq. apply F, Hq.
Qed.

End WithEnvironment.

(** The synthetic passage mentions the concept: the concept, stripped,
    occurs in its title and in its snippet, whatever the domain. *)
Theorem synthetic_passage_mentions_concept (domain concept : str) :
  contains (Passage.snippet (_synthetic_passage domain concept)) (strip concept) = true
  /\ contains (Passage.title (_synthetic_passage domain concept)) (strip concept) = true.
Proof.
  unfold _synthetic_passage.
  repeat match goal with
         | |- context [if ?b then _ else _] => destruct b
         end;
    cbn [Passage.snippet Passage.title]; split;
    first [ apply contains_here
          | apply contains_infix ].
Qed.

End ExtractExtra.

(* ================================================================== *)
(** * The deduplicated edges that [merge_synonyms] returns *)
(* ================================================================== *)

Module MergeDedup.
Import Py PyFacts Num NumFacts Merge MergeProofs MergeShape.
Local Open Scope Q_scope.

Lemma mark_conflict_keeps_flags e x :
  In x (Edge.flags e) -> In x (Edge.flags (mark_conflict e)).
Proof.
  intro H. unfold mark_conflict. destruct (has_conflict_flag e); simpl; [exact H|].
  rewrite in_app_iff. now left.
Qed.

Section WithInterpreter.
Variable lower : str -> str.
Variable set_iter : list str -> list str.
Hypothesis set_iter_perm : forall l, Permutation (set_iter l) l.

Local Abbreviation node_loop := (Merge.node_loop lower).
Local Abbreviation edge_loop := (Merge.edge_loop set_iter).
Local Abbreviation merge_synonyms := (Merge.merge_synonyms lower set_iter).

(** C3. The edges that [merge_synonyms] returns are the survivors of the
    groups of input edges that share (source, target, relation) once the
    endpoints are rewritten: there is exactly one returned edge per group,
    and it is the result of running through the group in input order,
    where the first edge is kept, a later one replaces the kept one exactly
    when its confidence is strictly higher, and each time the loser's
    snippet is appended to the survivor's unless it is already a substring
    of it. The conflict marking that follows leaves the evidence alone, and
    the survivor of a group of two or more is returned with the flag
    "duplicate". *)
Theorem C3_dedup_keeps_first_unless_strictly_higher
    (nodes : list Node.t) (edges : list Edge.t) :
  let idm := id_map (node_loop nodes) in
  let out := snd (fst (merge_synonyms nodes edges)) in
  NoDup (map key_of out)
  /\ (forall k, In k (map key_of out) <-> group_of idm edges k <> [])
  /\ Forall (fun e' =>
               exists s,
                 spec_group_survivor set_iter (group_of idm edges (key_of e')) = Some s
                 /\ (e' = s \/ e' = mark_conflict s)
                 /\ Edge.evidence e' = Edge.evidence s
                 /\ ((2 <= length (group_of idm edges (key_of e')))%nat ->
                     In duplicate_flag (Edge.flags e')))
            out.
Proof.
  cbv zeta. unfold Merge.merge_synonyms. cbn [fst snd].
  set (idm := id_map (node_loop nodes)).
  set (deduped := out_edges (edge_loop idm edges)).
  assert (ND : NoDup (Dict.keys deduped)) by apply edge_loop_keys_nodup.
  destruct (MergeExtra.edge_loop_entries set_iter idm edges) as [[_ En] _].
  fold deduped in En.
  rewrite (@conflict_loop_values lower set_iter set_iter_perm deduped ND).
  set (f := fun kv : edge_key * Edge.t =>
              if in_conflict deduped (fst kv) then mark_conflict (snd kv) else snd kv).
  assert (Kf : forall kv, In kv deduped -> key_of (f kv) = fst kv).
  { intros [k e] H. unfold f. cbn [fst snd].
    destruct (in_conflict deduped k); [rewrite MergeExtra.key_of_mark_conflict|];
      now apply En. }
  assert (Keys : map key_of (map f deduped) = Dict.keys deduped).
  { rewrite map_map. unfold Dict.keys. now apply map_ext_in. }
  split; [now rewrite Keys|]. split.
  - intro k. rewrite Keys.
    pose proof (edge_loop_by_group set_iter idm edges k) as G. fold deduped in G.
    destruct (Dict.get key_eqb deduped k) as [e|] eqn:Gk.
    + split.
      * intros _ E. rewrite E in G. discriminate.
      * intros _. apply (DictFacts.get_In _ key_eqb_eq) in Gk.
        change k with (fst (k, e)). now apply in_map.
    + apply (DictFacts.get_None_keys _ key_eqb_eq) in Gk. split; [contradiction|].
      intro N. destruct (group_of idm edges k); [contradiction | discriminate].
  - apply Forall_forall. intros e' H. apply in_map_iff in H.
    destruct H as ([k e] & <- & H). rewrite (Kf _ H). cbn [fst].
    pose proof (DictFacts.In_get _ key_eqb_eq _ _ _ ND H) as G.
    unfold deduped in G. rewrite (edge_loop_by_group set_iter) in G.
    exists e. split; [exact G|]. unfold f. cbn [fst snd].
    destruct (in_conflict deduped k).
    + split; [now right|]. split; [apply mark_conflict_fields|].
      intro L. apply mark_conflict_keeps_flags.
      now apply (@group_survivor_flagged set_iter set_iter_perm _ _ L).
    + split; [now left|]. split; [reflexivity|].
      intro L. now apply (@group_survivor_flagged set_iter set_iter_perm _ _ L).
Qed.

End WithInterpreter.

Lemma C3_witness :
  exists e',
    snd (fst (run_sample duplicate_edges)) = [e']
    /\ In duplicate_flag (Edge.flags e')
    /\ Edge.confidence e' == 0.7
    /\ Evidence.snippet (Edge.evidence e')
       = of_string "second snippet" ++ [10%N] ++ of_string "first snippet".
Proof.
  pose proof (@C3_dedup_keeps_first_unless_strictly_higher ascii_lower (fun l => l)
                (fun l => Permutation_refl l) sample_nodes duplicate_edges) as H.
  cbv zeta in H. destruct H as (_ & _ & F). rewrite Forall_forall in F.
  eexists. split; [vm_compute; reflexivity|].
  split; [|split; reflexivity].
  match goal with |- In _ (Edge.flags ?e) => destruct (F e) as (s & _ & _ & _ & D) end.
  - vm_compute. left. reflexivity.
  - apply D. vm_compute. lia.
Defined.

End MergeDedup.
